(** * spriter: a shallow embedding of [main.py]

    The program arranges a pool of emoji sprites into a grid, a swirl, a
    torus or a sphere, animates them every frame and binds one full-screen
    colour shader.  This development embeds the layout functions, the
    per-frame compositor, the key handler, the post-process selector and
    the asset lookup of [EmojiApp], and proves properties of them.

    Conventions of the embedding.
    - A Python [float] is a real number ([R]); rounding is not modelled.
      Equalities between transforms are equalities of the values the code
      assigns, not statements about rounding error.
    - A Python [int] used as a count or an index is a [nat].
    - A Python [str] that names a key, a mode, a file or a path is a
      [string]; a [str] that holds emoji is a list of Unicode code points.
    - An ursina [Entity] is a [Sprite] record.  The attributes the program
      tacks onto an entity ([base_position], [base_scale_val], ...) may be
      absent, so they are [option] fields and reading an absent one raises
      [AttributeError].
    - Code that can raise returns a [res]; the state that Python mutates in
      place is passed explicitly.
    - The host engine, the file system and the random generator are
      variables of the section [Program]. *)

From Stdlib Require Import Reals Lra Lia List String Ascii Bool Arith NArith.
Import ListNotations.

Open Scope string_scope.
Open Scope list_scope.
Open Scope R_scope.

(** Evaluating a concrete run to a normal form, leaving real arithmetic as
    it stands. *)
Ltac normalize_state :=
  cbv -[sin cos PI sqrt Rabs Rmax Rmin Req_dec_T Rle_dec IZR INR Rdiv Rminus Rplus
        Rmult Ropp Rinv].

(** ** Exceptions and results *)

Inductive exn : Type :=
  | FileNotFoundError
  | JSONDecodeError
  | OtherError          (* any other failure of [open] or [json.load] *)
  | TypeError
  | AttributeError
  | ValueError.

Inductive res (A : Type) : Type :=
  | Ok (a : A)
  | Raise (e : exn).

Arguments Ok {A} a.
Arguments Raise {A} e.

Definition bind {A B : Type} (c : res A) (k : A -> res B) : res B :=
  match c with
  | Ok a => k a
  | Raise e => Raise e
  end.

Notation "x <- c ;; k" := (bind c (fun x => k))
  (at level 61, c at next level, right associativity).

(** Reading an attribute that an entity may lack. *)
Definition attr {A : Type} (o : option A) : res A :=
  match o with
  | Some a => Ok a
  | None => Raise AttributeError
  end.

(** ** Vectors *)

Record Vec3 : Type := mkVec3 { vx : R; vy : R; vz : R }.

Definition vec_add (a b : Vec3) : Vec3 :=
  mkVec3 (vx a + vx b) (vy a + vy b) (vz a + vz b).

Definition vec_scale (a : Vec3) (k : R) : Vec3 :=
  mkVec3 (vx a * k) (vy a * k) (vz a * k).

Definition vec_length (a : Vec3) : R :=
  sqrt (vx a * vx a + vy a * vy a + vz a * vz a).

(** [Vec3.normalized()]: a zero vector stays zero. *)
Definition normalized (a : Vec3) : Vec3 :=
  if Req_dec_T (vec_length a) 0 then a else vec_scale a (/ vec_length a).

(** Assigning a scalar to [entity.scale] sets the three axes to it. *)
Definition uniform (s : R) : Vec3 := mkVec3 s s s.

Definition vec_zero : Vec3 := mkVec3 0 0 0.

(** ** Entities *)

Inductive Color : Type := white | red.

Record Sprite : Type := mkSprite {
  name : string;
  texture : option string;
  color : Color;
  position : Vec3;
  rotation : Vec3;
  scale : Vec3;
  visible : bool;
  billboard : bool;
  double_sided : bool;
  base_scale_val : option R;
  base_scale : option Vec3;
  base_position : option Vec3;
  base_rotation_z : option R;
  animation_phase_offset : option R
}.

Definition set_texture (s : Sprite) (t : option string) : Sprite :=
  mkSprite (name s) t (color s) (position s) (rotation s) (scale s) (visible s)
    (billboard s) (double_sided s) (base_scale_val s) (base_scale s)
    (base_position s) (base_rotation_z s) (animation_phase_offset s).

Definition set_color (s : Sprite) (c : Color) : Sprite :=
  mkSprite (name s) (texture s) c (position s) (rotation s) (scale s) (visible s)
    (billboard s) (double_sided s) (base_scale_val s) (base_scale s)
    (base_position s) (base_rotation_z s) (animation_phase_offset s).

Definition set_position (s : Sprite) (p : Vec3) : Sprite :=
  mkSprite (name s) (texture s) (color s) p (rotation s) (scale s) (visible s)
    (billboard s) (double_sided s) (base_scale_val s) (base_scale s)
    (base_position s) (base_rotation_z s) (animation_phase_offset s).

Definition set_rotation (s : Sprite) (r : Vec3) : Sprite :=
  mkSprite (name s) (texture s) (color s) (position s) r (scale s) (visible s)
    (billboard s) (double_sided s) (base_scale_val s) (base_scale s)
    (base_position s) (base_rotation_z s) (animation_phase_offset s).

Definition set_scale (s : Sprite) (v : Vec3) : Sprite :=
  mkSprite (name s) (texture s) (color s) (position s) (rotation s) v (visible s)
    (billboard s) (double_sided s) (base_scale_val s) (base_scale s)
    (base_position s) (base_rotation_z s) (animation_phase_offset s).

Definition set_visible (s : Sprite) (b : bool) : Sprite :=
  mkSprite (name s) (texture s) (color s) (position s) (rotation s) (scale s) b
    (billboard s) (double_sided s) (base_scale_val s) (base_scale s)
    (base_position s) (base_rotation_z s) (animation_phase_offset s).

Definition set_billboard (s : Sprite) (b : bool) : Sprite :=
  mkSprite (name s) (texture s) (color s) (position s) (rotation s) (scale s)
    (visible s) b (double_sided s) (base_scale_val s) (base_scale s)
    (base_position s) (base_rotation_z s) (animation_phase_offset s).

Definition set_base_scale_val (s : Sprite) (v : R) : Sprite :=
  mkSprite (name s) (texture s) (color s) (position s) (rotation s) (scale s)
    (visible s) (billboard s) (double_sided s) (Some v) (base_scale s)
    (base_position s) (base_rotation_z s) (animation_phase_offset s).

Definition set_base_scale (s : Sprite) (v : Vec3) : Sprite :=
  mkSprite (name s) (texture s) (color s) (position s) (rotation s) (scale s)
    (visible s) (billboard s) (double_sided s) (base_scale_val s) (Some v)
    (base_position s) (base_rotation_z s) (animation_phase_offset s).

Definition set_base_position (s : Sprite) (p : Vec3) : Sprite :=
  mkSprite (name s) (texture s) (color s) (position s) (rotation s) (scale s)
    (visible s) (billboard s) (double_sided s) (base_scale_val s) (base_scale s)
    (Some p) (base_rotation_z s) (animation_phase_offset s).

Definition set_base_rotation_z (s : Sprite) (r : R) : Sprite :=
  mkSprite (name s) (texture s) (color s) (position s) (rotation s) (scale s)
    (visible s) (billboard s) (double_sided s) (base_scale_val s) (base_scale s)
    (base_position s) (Some r) (animation_phase_offset s).

Definition set_animation_phase_offset (s : Sprite) (r : R) : Sprite :=
  mkSprite (name s) (texture s) (color s) (position s) (rotation s) (scale s)
    (visible s) (billboard s) (double_sided s) (base_scale_val s) (base_scale s)
    (base_position s) (base_rotation_z s) (Some r).

(** [rotation_x += d], [rotation_y += d], [rotation_z += d]. *)
Definition add_rotation_x (s : Sprite) (d : R) : Sprite :=
  set_rotation s (mkVec3 (vx (rotation s) + d) (vy (rotation s)) (vz (rotation s))).

Definition add_rotation_y (s : Sprite) (d : R) : Sprite :=
  set_rotation s (mkVec3 (vx (rotation s)) (vy (rotation s) + d) (vz (rotation s))).

(** The sprites hang directly under the scene root, which carries the
    identity transform, so [world_rotation_z] reads and writes
    [rotation_z]. *)
Definition world_rotation_z (s : Sprite) : R := vz (rotation s).

Definition add_world_rotation_z (s : Sprite) (d : R) : Sprite :=
  set_rotation s (mkVec3 (vx (rotation s)) (vy (rotation s)) (vz (rotation s) + d)).

(** [Entity(model='quad', color=color.red, scale=1, name="fallback_sprite")]:
    none of the program's own attributes is set. *)
Definition fallback_entity : Sprite :=
  mkSprite "fallback_sprite" None red vec_zero vec_zero (uniform 1) true false
    false None None None None None.

(** [l[i] := f l[i]]; out of range the list is unchanged (the program never
    indexes out of range: every index is guarded by a length test). *)
Fixpoint update_nth (l : list Sprite) (i : nat) (f : Sprite -> Sprite) : list Sprite :=
  match l, i with
  | [], _ => []
  | s :: l', O => f s :: l'
  | s :: l', S i' => s :: update_nth l' i' f
  end.

(** [for i, sprite in enumerate(l)], counting from [i]. *)
Fixpoint enumerate_from (i : nat) (f : nat -> Sprite -> Sprite) (l : list Sprite)
  : list Sprite :=
  match l with
  | [] => []
  | s :: l' => f i s :: enumerate_from (S i) f l'
  end.

Definition enumerate_map (f : nat -> Sprite -> Sprite) (l : list Sprite) : list Sprite :=
  enumerate_from 0 f l.

(** [math.ceil(n / d)] for counts. *)
Definition ceil_div (n d : nat) : nat := ((n + d - 1) / d)%nat.

Section Program.

(** *** Host services *)

(** [entity.look_at(target, axis='up')] of the engine: the rotation it gives
    to an entity (whose current transform it can read) aimed at [target]. *)
Variable look_at : Sprite -> Vec3 -> Vec3.

(** [uniform_draw k] is the value of the [k]-th call of
    [random.uniform(0, 2 * math.pi)] in this run. *)
Variable uniform_draw : nat -> R.

(** [Path(p).exists()]. *)
Variable path_exists : string -> bool.

(** ** Layout engine *)

(** [(c - num_cols/2 + 0.5)*cell_size], and the same for the row. *)
Definition cell_coord (k count : nat) (cell_size : R) : R :=
  (INR k - INR count / 2 + 0.5) * cell_size.

(** What the grid loop does to the sprite it puts in column [c] of row [r]. *)
Definition grid_place (num_cols num_rows : nat) (cell_size emoji_scale_val : R)
    (c r : nat) (sprite : Sprite) : Sprite :=
  let s1 := set_base_scale_val sprite emoji_scale_val in
  let s2 := set_scale s1 (uniform emoji_scale_val) in
  let pos := mkVec3 (cell_coord c num_cols cell_size)
                    (cell_coord r num_rows cell_size) 0 in
  let s3 := set_base_position s2 pos in
  let s4 := set_position s3 pos in
  let s5 := set_visible s4 true in
  let s6 := set_billboard s5 true in
  set_rotation s6 vec_zero.

(** [for c in range(num_cols)]: [cols_left] columns remain, the next one is
    [c].  The flag tells whether the loop was left by [break]. *)
Fixpoint grid_row (num_cols num_rows : nat) (cell_size emoji_scale_val : R)
    (r : nat) (cols_left c : nat) (l : list Sprite) (idx : nat)
  : list Sprite * nat * bool :=
  match cols_left with
  | O => (l, idx, false)
  | S k =>
      if (idx <? List.length l)%nat then
        grid_row num_cols num_rows cell_size emoji_scale_val r k (S c)
          (update_nth l idx (grid_place num_cols num_rows cell_size emoji_scale_val c r))
          (S idx)
      else (l, idx, true)
  end.

(** [for r in range(num_rows)], with the [else: continue] / [break] pair
    after the inner loop. *)
Fixpoint grid_rows (num_cols num_rows : nat) (cell_size emoji_scale_val : R)
    (rows_left r : nat) (l : list Sprite) (idx : nat) : list Sprite * nat :=
  match rows_left with
  | O => (l, idx)
  | S k =>
      match grid_row num_cols num_rows cell_size emoji_scale_val r num_cols 0 l idx with
      | (l', idx', true) => (l', idx')
      | (l', idx', false) =>
          grid_rows num_cols num_rows cell_size emoji_scale_val k (S r) l' idx'
      end
  end.

(** [for i in range(idx, len(l)): l[i].visible = False]. *)
Definition hide_from (idx : nat) (l : list Sprite) : list Sprite :=
  enumerate_map (fun i s => if (idx <=? i)%nat then set_visible s false else s) l.

Definition arrange_sprites_grid (sprites_to_arrange : list Sprite)
    (num_cols num_rows : nat) (cell_size emoji_scale_val : R) : list Sprite :=
  let '(l, idx) :=
    grid_rows num_cols num_rows cell_size emoji_scale_val num_rows 0
      sprites_to_arrange 0 in
  hide_from idx l.

Definition _arrange_3d_pattern (sprite : Sprite) (pos_vec : Vec3) (scale_val : R)
    (look_at_target_vec : Vec3) : Sprite :=
  let s1 := set_base_scale_val sprite scale_val in
  let s2 := set_scale s1 (uniform scale_val) in
  let s3 := set_base_position s2 pos_vec in
  let s4 := set_position s3 pos_vec in
  let s5 := set_billboard s4 false in
  let s6 := set_rotation s5 (look_at s5 look_at_target_vec) in
  let s7 := add_rotation_x s6 90 in
  set_visible s7 true.

Definition swirl_pos (num_sprites_in_pattern : nat) (turns radius height_factor : R)
    (i : nat) : Vec3 :=
  let t := INR i / INR (Nat.max 1 (num_sprites_in_pattern - 1)) in
  let angle := t * turns * 2 * PI in
  mkVec3 (radius * cos angle) ((t - 0.5) * height_factor) (radius * sin angle).

Definition arrange_sprites_swirl (sprites_to_arrange : list Sprite)
    (num_sprites_in_pattern : nat) (turns radius height_factor emoji_scale_val : R)
  : list Sprite :=
  enumerate_map (fun i sprite =>
    if (i <? num_sprites_in_pattern)%nat then
      let pos := swirl_pos num_sprites_in_pattern turns radius height_factor i in
      _arrange_3d_pattern sprite pos emoji_scale_val
        (vec_add pos (normalized (mkVec3 (vx pos) 0 (vz pos))))
    else set_visible sprite false) sprites_to_arrange.

Definition torus_u (num_sprites_in_pattern i : nat) : R :=
  INR i / INR num_sprites_in_pattern * 2 * PI.

Definition torus_v (num_sprites_in_pattern i : nat) : R :=
  INR i * (2 * PI * 5 / INR num_sprites_in_pattern).

Definition torus_pos (num_sprites_in_pattern : nat) (R_major r_minor : R) (i : nat)
  : Vec3 :=
  let u := torus_u num_sprites_in_pattern i in
  let v := torus_v num_sprites_in_pattern i in
  mkVec3 ((R_major + r_minor * cos v) * cos u) (r_minor * sin v)
         ((R_major + r_minor * cos v) * sin u).

Definition arrange_sprites_torus (sprites_to_arrange : list Sprite)
    (num_sprites_in_pattern : nat) (R_major r_minor emoji_scale_val : R)
  : list Sprite :=
  enumerate_map (fun i sprite =>
    if (i <? num_sprites_in_pattern)%nat then
      let u := torus_u num_sprites_in_pattern i in
      let v := torus_v num_sprites_in_pattern i in
      let pos := torus_pos num_sprites_in_pattern R_major r_minor i in
      let normal := normalized (mkVec3 (cos u * cos v) (sin v) (sin u * cos v)) in
      _arrange_3d_pattern sprite pos emoji_scale_val (vec_add pos normal)
    else set_visible sprite false) sprites_to_arrange.

Definition phi : R := PI * (sqrt 5 - 1).

(** The point [(x_s, y_s, z_s)] of the unit sphere for sprite [i]. *)
Definition sphere_unit (num_sprites_in_pattern i : nat) : Vec3 :=
  let y_s := 1 - INR i / INR (Nat.max 1 (num_sprites_in_pattern - 1)) * 2 in
  let r_s := sqrt (Rmax 0 (1 - y_s * y_s)) in
  let theta := phi * INR i in
  mkVec3 (cos theta * r_s) y_s (sin theta * r_s).

Definition sphere_pos (num_sprites_in_pattern : nat) (sphere_r : R) (i : nat) : Vec3 :=
  vec_scale (sphere_unit num_sprites_in_pattern i) sphere_r.

Definition arrange_sprites_sphere (sprites_to_arrange : list Sprite)
    (num_sprites_in_pattern : nat) (sphere_r emoji_scale_val : R) : list Sprite :=
  enumerate_map (fun i sprite =>
    if (i <? num_sprites_in_pattern)%nat then
      let pos := sphere_pos num_sprites_in_pattern sphere_r i in
      _arrange_3d_pattern sprite pos emoji_scale_val
        (vec_add pos (normalized (sphere_unit num_sprites_in_pattern i)))
    else set_visible sprite false) sprites_to_arrange.

(** ** Sprite state store *)

(** One turn of the loop of [setup_sprite_initial_states]; [draw] is the
    value [random.uniform] returns for this sprite. *)
Definition setup_sprite (draw : R) (sprite : Sprite) : Sprite :=
  let s1 :=
    match base_scale_val sprite with
    | None =>
        set_base_scale_val sprite
          (if Req_dec_T (vx (scale sprite)) (vy (scale sprite))
           then vx (scale sprite)
           else Rmax (vx (scale sprite)) (vy (scale sprite)))
    | Some _ => sprite
    end in
  let s2 := set_base_scale s1 (scale s1) in
  let s3 := set_base_position s2 (position s2) in
  let s4 := set_base_rotation_z s3 (world_rotation_z s3) in
  set_animation_phase_offset s4 draw.

(** [draws] counts the calls of [random.uniform] made so far. *)
Definition setup_sprite_initial_states (sprites : list Sprite) (draws : nat)
  : list Sprite * nat :=
  (enumerate_map (fun i sprite => setup_sprite (uniform_draw (draws + i)) sprite) sprites,
   (draws + List.length sprites)%nat).

(** ** Asset lookup *)

(** A Python [str] holding arbitrary text: its code points. *)
Definition ustr : Type := list N.

Definition ustr_of_string (s : string) : ustr :=
  List.map N_of_ascii (list_ascii_of_string s).

(** What [json.load] returns.  [JDict] lists the items of the resulting
    [dict] in insertion order (its keys are pairwise distinct). *)
#[warnings="-register-all"]
Inductive json : Type :=
  | JNull
  | JBool (b : bool)
  | JInt (z : Z)
  | JFloat (x : R)
  | JStr (s : ustr)
  | JList (l : list json)
  | JDict (d : list (ustr * json)).

(** Python truth value. *)
Definition truthy (v : json) : bool :=
  match v with
  | JNull => false
  | JBool b => b
  | JInt z => negb (Z.eqb z 0)
  | JFloat x => if Req_dec_T x 0 then false else true
  | JStr s => match s with [] => false | _ => true end
  | JList l => match l with [] => false | _ => true end
  | JDict d => match d with [] => false | _ => true end
  end.

(** [for x in v]: the items a [for] loop sees, or [TypeError]. *)
Definition iterate (v : json) : res (list json) :=
  match v with
  | JStr s => Ok (List.map (fun c => JStr [c]) s)
  | JList l => Ok l
  | JDict d => Ok (List.map (fun kv => JStr (fst kv)) d)
  | _ => Raise TypeError
  end.

Definition ustr_eqb (a b : ustr) : bool :=
  if list_eq_dec N.eq_dec a b then true else false.

(** [d.get(key, [])]. *)
Fixpoint dict_get (d : list (ustr * json)) (key : ustr) : json :=
  match d with
  | [] => JList []
  | (k, v) :: d' => if ustr_eqb k key then v else dict_get d' key
  end.

(** [str.isspace] for one code point, as [str.strip] uses it. *)
Definition is_space (c : N) : bool :=
  ((9 <=? c) && (c <=? 13) || (28 <=? c) && (c <=? 32)
   || (c =? 133) || (c =? 160) || (c =? 5760)
   || (8192 <=? c) && (c <=? 8202)
   || (c =? 8232) || (c =? 8233) || (c =? 8239) || (c =? 8287) || (c =? 12288))%N.

Fixpoint lstrip_space (s : ustr) : ustr :=
  match s with
  | [] => []
  | c :: s' => if is_space c then lstrip_space s' else s
  end.

Definition strip (s : ustr) : ustr :=
  List.rev (lstrip_space (List.rev (lstrip_space s))).

(** [s.split(';')], with the piece being read kept in [cur] (reversed). *)
Fixpoint split_semicolon (cur : ustr) (s : ustr) : list ustr :=
  match s with
  | [] => [List.rev cur]
  | c :: s' =>
      if (c =? 59)%N then List.rev cur :: split_semicolon [] s'
      else split_semicolon (c :: cur) s'
  end.

(** *** The [unicode_escape] codec on one code point *)

Definition hex_digit (n : N) : ascii :=
  match n with
  | 0%N => "0" | 1%N => "1" | 2%N => "2" | 3%N => "3" | 4%N => "4"
  | 5%N => "5" | 6%N => "6" | 7%N => "7" | 8%N => "8" | 9%N => "9"
  | 10%N => "a" | 11%N => "b" | 12%N => "c" | 13%N => "d" | 14%N => "e"
  | _ => "f"
  end%char.

(** [width] lower-case hexadecimal digits of [n], most significant first. *)
Fixpoint hex_fixed (width : nat) (n : N) : string :=
  match width with
  | O => EmptyString
  | S w => hex_fixed w (n / 16)%N ++ String (hex_digit (n mod 16)%N) EmptyString
  end%string.

Definition backslash : ascii := ascii_of_N 92.

Definition unicode_escape_char (c : N) : string :=
  if (c <? 256)%N then
    if ((32 <=? c) && (c <? 127))%N then
      if (c =? 92)%N then String backslash (String backslash EmptyString)
      else String (ascii_of_N c) EmptyString
    else if (c =? 9)%N then String backslash "t"
    else if (c =? 10)%N then String backslash "n"
    else if (c =? 13)%N then String backslash "r"
    else String backslash (String "x" (hex_fixed 2 c))
  else if (c <? 65536)%N then String backslash (String "u" (hex_fixed 4 c))
  else String backslash (String "U" (hex_fixed 8 c)).

(** [s.encode('unicode_escape').decode('utf-8')]: the escapes are ASCII. *)
Definition unicode_escape (s : ustr) : string :=
  String.concat "" (List.map unicode_escape_char s).

(** [s.split('U')[-1]]: what follows the last ['U'] of [s], or [s] itself
    when there is none; [cur] is the piece being read (reversed). *)
Fixpoint split_U_last (cur : list ascii) (s : string) : string :=
  match s with
  | EmptyString => string_of_list_ascii (List.rev cur)
  | String a s' =>
      if Ascii.eqb a "U" then split_U_last [] s'
      else split_U_last (a :: cur) s'
  end.

(** [s.lstrip('0')]. *)
Fixpoint lstrip_zero (s : string) : string :=
  match s with
  | EmptyString => EmptyString
  | String a s' => if Ascii.eqb a "0" then lstrip_zero s' else s
  end.

Definition lower_ascii (a : ascii) : ascii :=
  let n := N_of_ascii a in
  if ((65 <=? n) && (n <=? 90))%N then ascii_of_N (n + 32) else a.

(** [s.lower()] on ASCII text. *)
Fixpoint lower (s : string) : string :=
  match s with
  | EmptyString => EmptyString
  | String a s' => String (lower_ascii a) (lower s')
  end.

(** [c.encode('unicode_escape').decode('utf-8').split('U')[-1].lstrip('0').lower()] *)
Definition codepoint_piece (c : ustr) : string :=
  lower (lstrip_zero (split_U_last [] (unicode_escape c))).

(** The generator [(... for c in char if c)]: [c] must be a [str], any other
    value has no [encode]. *)
Fixpoint pieces (cs : list json) : res (list string) :=
  match cs with
  | [] => Ok []
  | c :: cs' =>
      if truthy c then
        match c with
        | JStr s => rest <- pieces cs' ;; Ok (codepoint_piece s :: rest)
        | _ => Raise AttributeError
        end
      else pieces cs'
  end.

Definition emoji_filename (char : json) : res string :=
  cs <- iterate char ;;
  ps <- pieces cs ;;
  Ok ("emoji_u" ++ String.concat "_" ps ++ ".png")%string.

(** The list comprehension [[f"emoji_u....png" for char in emoji_chars if char]]. *)
Fixpoint emoji_filenames (chars : list json) : res (list string) :=
  match chars with
  | [] => Ok []
  | char :: chars' =>
      if truthy char then
        f <- emoji_filename char ;;
        rest <- emoji_filenames chars' ;;
        Ok (f :: rest)
      else emoji_filenames chars'
  end.

(** The [try] body of [get_emoji_filenames_for_set_and_group] once
    [json.load] has returned [data]. *)
Definition filenames_of_data (data : json) (group_name : ustr) : res (list string) :=
  let emoji_chars :=
    match data with
    | JDict d =>
        match dict_get d group_name with
        | JStr s =>
            JList (List.map JStr
                     (List.filter (fun e => match e with [] => false | _ => true end)
                        (List.map strip (split_semicolon [] s))))
        | v => v
        end
    | JList l => data
    | _ => JList []
    end in
  if truthy emoji_chars then
    chars <- iterate emoji_chars ;;
    emoji_filenames chars
  else Ok [].

Definition EMOJI_SET_BASE_PATH : string := "assets/sets/".
Definition EMOJI_ASSET_BASE_PATH : string := "assets/noto-emoji/png/".
Definition DEFAULT_EMOJI_SET : string := "noto_emoji_regular.json".
Definition DEFAULT_EMOJI_GROUP : string := "Smileys & Emotion".
Definition DEFAULT_RESOLUTION_FOLDER : string := "128".

(** [open(path, 'r', encoding='utf-8')] followed by [json.load]: the value
    read, or the exception raised. *)
Variable read_set_file : string -> res json.

Definition get_emoji_filenames_for_set_and_group (set_filename : string)
    (group_name : string) : res (list string) :=
  match read_set_file (EMOJI_SET_BASE_PATH ++ set_filename)%string with
  | Ok data => filenames_of_data data (ustr_of_string group_name)
  | Raise FileNotFoundError => Ok []
  | Raise JSONDecodeError => Ok []
  | Raise e => Raise e
  end.

(** ** Application state *)

(** The two entries of [custom_shaders], which [load_custom_shaders] fills
    once at start-up and nothing changes afterwards. *)
Inductive Shader : Type := grayscale_shader | sepia_shader.

(** The engine's [camera]: the bound post-process shader, the value last
    pushed to its input ['amount'], and the yaw. *)
Record Camera : Type := mkCamera {
  shader : option Shader;
  shader_amount : option R;
  camera_rotation_y : R
}.

(** The fields of [EmojiApp], followed by the process-wide state the
    program touches: the engine's [camera], the module's [texture_cache],
    the number of [random.uniform] calls made, and whether
    [application.quit()] was called. *)
Record EmojiApp : Type := mkEmojiApp {
  sprites : list Sprite;
  num_sprites : nat;
  idle_rotation_enabled : bool;
  idle_zoom_enabled : bool;
  idle_rotation_pattern : string;
  idle_zoom_pattern : string;
  idle_rotation_speed : R;
  idle_zoom_amplitude : R;
  idle_zoom_speed_factor : R;
  node_animation_enabled : bool;
  node_animation_type : string;
  node_anim_amplitude : R;
  node_anim_frequency : R;
  node_anim_speed : R;
  current_arrangement : string;
  grayscale_enabled : bool;
  sepia_enabled : bool;
  sepia_amount : R;
  bloom_enabled : bool;
  afterimage_enabled : bool;
  afterimage_damp : R;
  camera : Camera;
  texture_cache : list (string * string);
  draws : nat;
  quit_requested : bool
}.

Definition set_sprites (a : EmojiApp) (v : list Sprite) : EmojiApp :=
  mkEmojiApp v (num_sprites a) (idle_rotation_enabled a) (idle_zoom_enabled a)
    (idle_rotation_pattern a) (idle_zoom_pattern a) (idle_rotation_speed a)
    (idle_zoom_amplitude a) (idle_zoom_speed_factor a) (node_animation_enabled a)
    (node_animation_type a) (node_anim_amplitude a) (node_anim_frequency a)
    (node_anim_speed a) (current_arrangement a) (grayscale_enabled a) (sepia_enabled a)
    (sepia_amount a) (bloom_enabled a) (afterimage_enabled a) (afterimage_damp a)
    (camera a) (texture_cache a) (draws a) (quit_requested a).

Definition set_idle_rotation_enabled (a : EmojiApp) (v : bool) : EmojiApp :=
  mkEmojiApp (sprites a) (num_sprites a) v (idle_zoom_enabled a)
    (idle_rotation_pattern a) (idle_zoom_pattern a) (idle_rotation_speed a)
    (idle_zoom_amplitude a) (idle_zoom_speed_factor a) (node_animation_enabled a)
    (node_animation_type a) (node_anim_amplitude a) (node_anim_frequency a)
    (node_anim_speed a) (current_arrangement a) (grayscale_enabled a) (sepia_enabled a)
    (sepia_amount a) (bloom_enabled a) (afterimage_enabled a) (afterimage_damp a)
    (camera a) (texture_cache a) (draws a) (quit_requested a).

Definition set_idle_zoom_enabled (a : EmojiApp) (v : bool) : EmojiApp :=
  mkEmojiApp (sprites a) (num_sprites a) (idle_rotation_enabled a) v
    (idle_rotation_pattern a) (idle_zoom_pattern a) (idle_rotation_speed a)
    (idle_zoom_amplitude a) (idle_zoom_speed_factor a) (node_animation_enabled a)
    (node_animation_type a) (node_anim_amplitude a) (node_anim_frequency a)
    (node_anim_speed a) (current_arrangement a) (grayscale_enabled a) (sepia_enabled a)
    (sepia_amount a) (bloom_enabled a) (afterimage_enabled a) (afterimage_damp a)
    (camera a) (texture_cache a) (draws a) (quit_requested a).

Definition set_node_animation_type (a : EmojiApp) (v : string) : EmojiApp :=
  mkEmojiApp (sprites a) (num_sprites a) (idle_rotation_enabled a) (idle_zoom_enabled a)
    (idle_rotation_pattern a) (idle_zoom_pattern a) (idle_rotation_speed a)
    (idle_zoom_amplitude a) (idle_zoom_speed_factor a) (node_animation_enabled a) v
    (node_anim_amplitude a) (node_anim_frequency a) (node_anim_speed a)
    (current_arrangement a) (grayscale_enabled a) (sepia_enabled a) (sepia_amount a)
    (bloom_enabled a) (afterimage_enabled a) (afterimage_damp a) (camera a)
    (texture_cache a) (draws a) (quit_requested a).

Definition set_current_arrangement (a : EmojiApp) (v : string) : EmojiApp :=
  mkEmojiApp (sprites a) (num_sprites a) (idle_rotation_enabled a) (idle_zoom_enabled a)
    (idle_rotation_pattern a) (idle_zoom_pattern a) (idle_rotation_speed a)
    (idle_zoom_amplitude a) (idle_zoom_speed_factor a) (node_animation_enabled a)
    (node_animation_type a) (node_anim_amplitude a) (node_anim_frequency a)
    (node_anim_speed a) v (grayscale_enabled a) (sepia_enabled a) (sepia_amount a)
    (bloom_enabled a) (afterimage_enabled a) (afterimage_damp a) (camera a)
    (texture_cache a) (draws a) (quit_requested a).

Definition set_grayscale_enabled (a : EmojiApp) (v : bool) : EmojiApp :=
  mkEmojiApp (sprites a) (num_sprites a) (idle_rotation_enabled a) (idle_zoom_enabled a)
    (idle_rotation_pattern a) (idle_zoom_pattern a) (idle_rotation_speed a)
    (idle_zoom_amplitude a) (idle_zoom_speed_factor a) (node_animation_enabled a)
    (node_animation_type a) (node_anim_amplitude a) (node_anim_frequency a)
    (node_anim_speed a) (current_arrangement a) v (sepia_enabled a) (sepia_amount a)
    (bloom_enabled a) (afterimage_enabled a) (afterimage_damp a) (camera a)
    (texture_cache a) (draws a) (quit_requested a).

Definition set_sepia_enabled (a : EmojiApp) (v : bool) : EmojiApp :=
  mkEmojiApp (sprites a) (num_sprites a) (idle_rotation_enabled a) (idle_zoom_enabled a)
    (idle_rotation_pattern a) (idle_zoom_pattern a) (idle_rotation_speed a)
    (idle_zoom_amplitude a) (idle_zoom_speed_factor a) (node_animation_enabled a)
    (node_animation_type a) (node_anim_amplitude a) (node_anim_frequency a)
    (node_anim_speed a) (current_arrangement a) (grayscale_enabled a) v (sepia_amount a)
    (bloom_enabled a) (afterimage_enabled a) (afterimage_damp a) (camera a)
    (texture_cache a) (draws a) (quit_requested a).

Definition set_sepia_amount (a : EmojiApp) (v : R) : EmojiApp :=
  mkEmojiApp (sprites a) (num_sprites a) (idle_rotation_enabled a) (idle_zoom_enabled a)
    (idle_rotation_pattern a) (idle_zoom_pattern a) (idle_rotation_speed a)
    (idle_zoom_amplitude a) (idle_zoom_speed_factor a) (node_animation_enabled a)
    (node_animation_type a) (node_anim_amplitude a) (node_anim_frequency a)
    (node_anim_speed a) (current_arrangement a) (grayscale_enabled a)
    (sepia_enabled a) v (bloom_enabled a) (afterimage_enabled a) (afterimage_damp a)
    (camera a) (texture_cache a) (draws a) (quit_requested a).

Definition set_bloom_enabled (a : EmojiApp) (v : bool) : EmojiApp :=
  mkEmojiApp (sprites a) (num_sprites a) (idle_rotation_enabled a) (idle_zoom_enabled a)
    (idle_rotation_pattern a) (idle_zoom_pattern a) (idle_rotation_speed a)
    (idle_zoom_amplitude a) (idle_zoom_speed_factor a) (node_animation_enabled a)
    (node_animation_type a) (node_anim_amplitude a) (node_anim_frequency a)
    (node_anim_speed a) (current_arrangement a) (grayscale_enabled a) (sepia_enabled a)
    (sepia_amount a) v (afterimage_enabled a) (afterimage_damp a) (camera a)
    (texture_cache a) (draws a) (quit_requested a).

Definition set_afterimage_enabled (a : EmojiApp) (v : bool) : EmojiApp :=
  mkEmojiApp (sprites a) (num_sprites a) (idle_rotation_enabled a) (idle_zoom_enabled a)
    (idle_rotation_pattern a) (idle_zoom_pattern a) (idle_rotation_speed a)
    (idle_zoom_amplitude a) (idle_zoom_speed_factor a) (node_animation_enabled a)
    (node_animation_type a) (node_anim_amplitude a) (node_anim_frequency a)
    (node_anim_speed a) (current_arrangement a) (grayscale_enabled a) (sepia_enabled a)
    (sepia_amount a) (bloom_enabled a) v (afterimage_damp a) (camera a)
    (texture_cache a) (draws a) (quit_requested a).

Definition set_camera (a : EmojiApp) (v : Camera) : EmojiApp :=
  mkEmojiApp (sprites a) (num_sprites a) (idle_rotation_enabled a) (idle_zoom_enabled a)
    (idle_rotation_pattern a) (idle_zoom_pattern a) (idle_rotation_speed a)
    (idle_zoom_amplitude a) (idle_zoom_speed_factor a) (node_animation_enabled a)
    (node_animation_type a) (node_anim_amplitude a) (node_anim_frequency a)
    (node_anim_speed a) (current_arrangement a) (grayscale_enabled a) (sepia_enabled a)
    (sepia_amount a) (bloom_enabled a) (afterimage_enabled a) (afterimage_damp a) v
    (texture_cache a) (draws a) (quit_requested a).

Definition set_texture_cache (a : EmojiApp) (v : list (string * string)) : EmojiApp :=
  mkEmojiApp (sprites a) (num_sprites a) (idle_rotation_enabled a) (idle_zoom_enabled a)
    (idle_rotation_pattern a) (idle_zoom_pattern a) (idle_rotation_speed a)
    (idle_zoom_amplitude a) (idle_zoom_speed_factor a) (node_animation_enabled a)
    (node_animation_type a) (node_anim_amplitude a) (node_anim_frequency a)
    (node_anim_speed a) (current_arrangement a) (grayscale_enabled a) (sepia_enabled a)
    (sepia_amount a) (bloom_enabled a) (afterimage_enabled a) (afterimage_damp a)
    (camera a) v (draws a) (quit_requested a).

Definition set_draws (a : EmojiApp) (v : nat) : EmojiApp :=
  mkEmojiApp (sprites a) (num_sprites a) (idle_rotation_enabled a) (idle_zoom_enabled a)
    (idle_rotation_pattern a) (idle_zoom_pattern a) (idle_rotation_speed a)
    (idle_zoom_amplitude a) (idle_zoom_speed_factor a) (node_animation_enabled a)
    (node_animation_type a) (node_anim_amplitude a) (node_anim_frequency a)
    (node_anim_speed a) (current_arrangement a) (grayscale_enabled a) (sepia_enabled a)
    (sepia_amount a) (bloom_enabled a) (afterimage_enabled a) (afterimage_damp a)
    (camera a) (texture_cache a) v (quit_requested a).

Definition set_quit_requested (a : EmojiApp) (v : bool) : EmojiApp :=
  mkEmojiApp (sprites a) (num_sprites a) (idle_rotation_enabled a) (idle_zoom_enabled a)
    (idle_rotation_pattern a) (idle_zoom_pattern a) (idle_rotation_speed a)
    (idle_zoom_amplitude a) (idle_zoom_speed_factor a) (node_animation_enabled a)
    (node_animation_type a) (node_anim_amplitude a) (node_anim_frequency a)
    (node_anim_speed a) (current_arrangement a) (grayscale_enabled a) (sepia_enabled a)
    (sepia_amount a) (bloom_enabled a) (afterimage_enabled a) (afterimage_damp a)
    (camera a) (texture_cache a) (draws a) v.

(** ** Textures and sprite creation *)

Fixpoint cache_lookup (cache : list (string * string)) (key : string) : option string :=
  match cache with
  | [] => None
  | (k, v) :: cache' => if String.eqb k key then Some v else cache_lookup cache' key
  end.

(** [str(EMOJI_ASSET_BASE_PATH / resolution_folder / filename)] *)
Definition texture_path (resolution_folder filename : string) : string :=
  (EMOJI_ASSET_BASE_PATH ++ resolution_folder ++ "/" ++ filename)%string.

(** Returns the texture reference ([None] when the file is missing) and the
    cache after the call. *)
Definition load_emoji_texture (cache : list (string * string))
    (emoji_codepoint_filename resolution_folder : string)
  : option string * list (string * string) :=
  let texture_path_str := texture_path resolution_folder emoji_codepoint_filename in
  match cache_lookup cache texture_path_str with
  | Some t => (Some t, cache)
  | None =>
      if path_exists texture_path_str
      then (Some texture_path_str, (texture_path_str, texture_path_str) :: cache)
      else (None, cache)
  end.

(** Truth value of a texture reference: [None] and the empty string are false. *)
Definition texture_given (t : option string) : bool :=
  match t with
  | None => false
  | Some EmptyString => false
  | Some _ => true
  end.

Definition create_emoji_sprite (texture_path_or_object : option string) (draws : nat)
  : Sprite * nat :=
  if texture_given texture_path_or_object then
    (mkSprite "entity" texture_path_or_object white vec_zero vec_zero (uniform 1)
       true true true (Some 1) (Some (mkVec3 1 1 1)) (Some vec_zero) (Some 0)
       (Some (uniform_draw draws)),
     S draws)
  else (fallback_entity, draws).

(** ** Applying an arrangement *)

(** [active_sprites] is always the slice [self.sprites[:self.num_sprites]]:
    a new list of the same entities, so what [callback] does to them shows
    in [self.sprites].  [callback] is the arrangement with its [*args]. *)
Definition _apply_arrangement_and_setup_state (app : EmojiApp) (arrangement_name : string)
    (callback : list Sprite -> list Sprite) : EmojiApp :=
  let arranged :=
    callback (firstn (num_sprites app) (sprites app))
    ++ skipn (num_sprites app) (sprites app) in
  let app1 := set_current_arrangement (set_sprites app arranged) arrangement_name in
  let '(sprites', draws') := setup_sprite_initial_states (sprites app1) (draws app1) in
  set_draws (set_sprites app1 sprites') draws'.

(** The entries of [arrangement_map] (and of [arrangement_args_map], which
    holds the same arguments). *)
Definition arrangement_map (num_sprites : nat) (arrangement_name : string)
  : option (list Sprite -> list Sprite) :=
  if String.eqb arrangement_name "grid" then
    Some (fun l => arrange_sprites_grid l 5 (ceil_div num_sprites 5) 1.2 1)
  else if String.eqb arrangement_name "swirl" then
    Some (fun l => arrange_sprites_swirl l num_sprites 3 3 5 0.7)
  else if String.eqb arrangement_name "torus" then
    Some (fun l => arrange_sprites_torus l num_sprites 3 1 0.5)
  else if String.eqb arrangement_name "sphere" then
    Some (fun l => arrange_sprites_sphere l num_sprites 3 0.6)
  else None.

(** One turn of [for i in range(self.num_sprites)] in
    [load_and_arrange_emojis]; the state is the sprite list, the texture
    cache and the count of random draws. *)
Definition load_one (filenames : list string) (i : nat)
    (st : list Sprite * list (string * string) * nat)
  : list Sprite * list (string * string) * nat :=
  let '(sprites, cache, draws) := st in
  let filename := nth (i mod List.length filenames) filenames EmptyString in
  let '(texture_ref, cache') :=
    load_emoji_texture cache filename DEFAULT_RESOLUTION_FOLDER in
  if (i <? List.length sprites)%nat then
    (update_nth sprites i (fun sprite =>
       let s1 := set_texture sprite
                   (if texture_given texture_ref then texture_ref else Some "white_cube") in
       let s2 := set_color s1 (if texture_given texture_ref then white else red) in
       set_visible s2 true),
     cache', draws)
  else
    let '(sprite, draws') := create_emoji_sprite texture_ref draws in
    (sprites ++ [sprite], cache', draws').

Fixpoint load_loop (filenames : list string) (count i : nat)
    (st : list Sprite * list (string * string) * nat)
  : list Sprite * list (string * string) * nat :=
  match count with
  | O => st
  | S k => load_loop filenames k (S i) (load_one filenames i st)
  end.

Definition load_and_arrange_emojis (app : EmojiApp) : res EmojiApp :=
  filenames <- get_emoji_filenames_for_set_and_group DEFAULT_EMOJI_SET DEFAULT_EMOJI_GROUP ;;
  match filenames with
  | [] =>
      match sprites app with
      | [] => Ok (set_sprites app [fallback_entity])
      | _ => Ok app
      end
  | _ =>
      let '(sprites1, cache1, draws1) :=
        load_loop filenames (num_sprites app) 0
          (sprites app, texture_cache app, draws app) in
      let sprites2 := hide_from (num_sprites app) sprites1 in
      let app1 := set_draws (set_texture_cache (set_sprites app sprites2) cache1) draws1 in
      match arrangement_map (num_sprites app1) (current_arrangement app1) with
      | Some func =>
          Ok (_apply_arrangement_and_setup_state app1 (current_arrangement app1) func)
      | None => Ok app1
      end
  end.

(** ** Post-process selector *)

Definition set_shader (c : Camera) (s : option Shader) : Camera :=
  mkCamera s (shader_amount c) (camera_rotation_y c).

(** [camera.set_shader_input('amount', v)] *)
Definition set_shader_input_amount (c : Camera) (v : R) : Camera :=
  mkCamera (shader c) (Some v) (camera_rotation_y c).

Definition apply_post_processing (app : EmojiApp) : EmojiApp :=
  let cam := set_shader (camera app) None in
  if grayscale_enabled app then
    set_camera app (set_shader cam (Some grayscale_shader))
  else if sepia_enabled app then
    set_camera app
      (set_shader_input_amount (set_shader cam (Some sepia_shader)) (sepia_amount app))
  else set_camera app cam.

(** ** Key handler *)

Definition patterns : list string :=
  ["none"; "wave_position"; "wave_zoom"; "wave_rotation"]%string.

(** [patterns.index(x)] *)
Fixpoint index_of (l : list string) (x : string) : res nat :=
  match l with
  | [] => Raise ValueError
  | y :: l' => if String.eqb y x then Ok O else i <- index_of l' x ;; Ok (S i)
  end.

(** The arrangement name bound to a key in [arrangement_args_map]. *)
Definition arrangement_key (key : string) : option string :=
  if String.eqb key "1" then Some "grid"
  else if String.eqb key "2" then Some "swirl"
  else if String.eqb key "3" then Some "torus"
  else if String.eqb key "4" then Some "sphere"
  else None.

(** The arrangement function [getattr(self, f"arrange_sprites_{name}")] with
    the arguments of the key's entry. *)
Definition arrangement_of_key (num_sprites : nat) (key : string)
  : option (string * (list Sprite -> list Sprite)) :=
  match arrangement_key key with
  | Some name =>
      match arrangement_map num_sprites name with
      | Some func => Some (name, func)
      | None => None
      end
  | None => None
  end.

(** [super().input(key)] is the engine's own handler; it does not touch the
    state modelled here.  The printing of the conceptual toggles is left
    out.  The escape key calls the engine's [application.quit()], which ends
    the program: the handler's own part of it, recorded in [quit_requested],
    is all that is modelled. *)
Definition input (app : EmojiApp) (key : string) : res EmojiApp :=
  match arrangement_of_key (num_sprites app) key with
  | Some (name, arrange_func) =>
      Ok (_apply_arrangement_and_setup_state app name arrange_func)
  | None =>
      if String.eqb key "r" then
        Ok (set_idle_rotation_enabled app (negb (idle_rotation_enabled app)))
      else if String.eqb key "t" then
        Ok (set_idle_zoom_enabled app (negb (idle_zoom_enabled app)))
      else if String.eqb key "n" then
        current_idx <- index_of patterns (node_animation_type app) ;;
        Ok (set_node_animation_type app
              (nth ((current_idx + 1) mod List.length patterns) patterns EmptyString))
      else if String.eqb key "g" then
        Ok (apply_post_processing
              (set_grayscale_enabled app (negb (grayscale_enabled app))))
      else if String.eqb key "s" then
        Ok (apply_post_processing (set_sepia_enabled app (negb (sepia_enabled app))))
      else if String.eqb key "b" then
        Ok (set_bloom_enabled app (negb (bloom_enabled app)))
      else if String.eqb key "a" then
        Ok (set_afterimage_enabled app (negb (afterimage_enabled app)))
      else if String.eqb key "s up" then
        Ok (apply_post_processing
              (set_sepia_amount app (Rmin 1.0 (sepia_amount app + 0.1))))
      else if String.eqb key "s down" then
        Ok (apply_post_processing
              (set_sepia_amount app (Rmax 0.0 (sepia_amount app - 0.1))))
      else if String.eqb key "escape" then Ok (set_quit_requested app true)
      else Ok app
  end.

(** ** Animation compositor

    [t] is [time.time()] and [dt] is [time.dt] of the frame. *)

(** [factor] of the idle rotation: an unknown pattern keeps [1.0] and does
    not read the phase offset. *)
Definition idle_rotation_factor (app : EmojiApp) (sprite : Sprite) (t : R) : res R :=
  let pattern := idle_rotation_pattern app in
  if String.eqb pattern "sin" then
    ph <- attr (animation_phase_offset sprite) ;;
    Ok (sin (t * idle_zoom_speed_factor app + ph))
  else if String.eqb pattern "pulse" then
    ph <- attr (animation_phase_offset sprite) ;;
    Ok (Rabs (sin (t * idle_zoom_speed_factor app + ph)))
  else if String.eqb pattern "ramp" then
    ph <- attr (animation_phase_offset sprite) ;;
    Ok ((sin (t * idle_zoom_speed_factor app + ph) + 1) / 2.0)
  else Ok 1.0.

(** [zoom_val] of the idle zoom. *)
Definition idle_zoom_val (app : EmojiApp) (sprite : Sprite) (t : R) : res R :=
  let pattern := idle_zoom_pattern app in
  if String.eqb pattern "sin" then
    ph <- attr (animation_phase_offset sprite) ;;
    Ok (1.0 + idle_zoom_amplitude app * sin (t * idle_zoom_speed_factor app * 1.5 + ph))
  else if String.eqb pattern "pulse" then
    ph <- attr (animation_phase_offset sprite) ;;
    Ok (1.0 + idle_zoom_amplitude app
              * Rabs (sin (t * idle_zoom_speed_factor app * 1.5 + ph)))
  else if String.eqb pattern "ramp" then
    ph <- attr (animation_phase_offset sprite) ;;
    Ok (1.0 + idle_zoom_amplitude app
              * ((sin (t * idle_zoom_speed_factor app * 1.5 + ph) + 1) / 2.0))
  else Ok 1.0.

(** [new_s if not sprite.billboard else sprite.base_scale.z] *)
Definition scale_z (sprite : Sprite) (new_s : R) : res R :=
  if billboard sprite then bs <- attr (base_scale sprite) ;; Ok (vz bs)
  else Ok new_s.

Definition apply_idle_animations (app : EmojiApp) (sprite : Sprite) (t dt : R)
  : res Sprite :=
  s1 <- (if idle_rotation_enabled app then
           factor <- idle_rotation_factor app sprite t ;;
           if billboard sprite
           then Ok (add_world_rotation_z sprite (idle_rotation_speed app * factor * dt))
           else Ok (add_rotation_y sprite (idle_rotation_speed app * factor * dt))
         else Ok sprite) ;;
  match idle_zoom_enabled app, base_scale_val s1 with
  | true, Some bsv =>
      zoom_val <- idle_zoom_val app s1 t ;;
      let new_scale := bsv * zoom_val in
      z <- scale_z s1 new_scale ;;
      Ok (set_scale s1 (mkVec3 new_scale new_scale z))
  | _, _ => Ok s1
  end.

Definition apply_node_animations (app : EmojiApp) (sprite : Sprite) (index : nat)
    (t dt : R) : res Sprite :=
  bp <- attr (base_position sprite) ;;
  let s1 := set_position sprite bp in
  bsv <- attr (base_scale_val s1) ;;
  let s2 := set_scale s1 (uniform bsv) in
  if negb (node_animation_enabled app) || String.eqb (node_animation_type app) "none"
  then Ok s2
  else
    ph <- attr (animation_phase_offset s2) ;;
    let wave :=
      sin (INR index * node_anim_frequency app + t * node_anim_speed app * 2.0 + ph)
      * node_anim_amplitude app in
    if String.eqb (node_animation_type app) "wave_position" then
      let offset :=
        mkVec3 wave
          (cos (INR index * node_anim_frequency app * 0.7
                + t * node_anim_speed app * 1.5 + ph) * node_anim_amplitude app)
          0 in
      Ok (set_position s2 (vec_add bp offset))
    else if String.eqb (node_animation_type app) "wave_zoom" then
      let scale_factor := 1.0 + wave * 0.5 in
      let clamped_scale := Rmax 0.1 scale_factor in
      let new_s := bsv * clamped_scale in
      z <- scale_z s2 new_s ;;
      Ok (set_scale s2 (mkVec3 new_s new_s z))
    else if String.eqb (node_animation_type app) "wave_rotation" then
      if billboard s2 then Ok (add_world_rotation_z s2 (wave * 30 * dt))
      else Ok (add_rotation_y s2 (wave * 30 * dt))
    else Ok s2.

(** What one frame does to the sprite of index [i]. *)
Definition update_sprite (app : EmojiApp) (t dt : R) (i : nat) (sprite : Sprite)
  : res Sprite :=
  if visible sprite then
    s1 <- apply_node_animations app sprite i t dt ;;
    apply_idle_animations app s1 t dt
  else Ok sprite.

(** [for i, sprite in enumerate(self.sprites)], counting from [i]. *)
Fixpoint update_sprites (app : EmojiApp) (t dt : R) (i : nat) (l : list Sprite)
  : res (list Sprite) :=
  match l with
  | [] => Ok []
  | sprite :: l' =>
      s' <- update_sprite app t dt i sprite ;;
      rest <- update_sprites app t dt (S i) l' ;;
      Ok (s' :: rest)
  end.

Definition update (app : EmojiApp) (t dt : R) : res EmojiApp :=
  sprites' <- update_sprites app t dt 0 (sprites app) ;;
  let app1 := set_sprites app sprites' in
  if String.eqb (current_arrangement app1) "swirl"
     || String.eqb (current_arrangement app1) "torus"
     || String.eqb (current_arrangement app1) "sphere"
  then
    Ok (set_camera app1
          (mkCamera (shader (camera app1)) (shader_amount (camera app1))
             (camera_rotation_y (camera app1) + dt * 7)))
  else Ok app1.

(** ** Start-up *)

(** The yaw [camera.look_at(Vec3(0,0,0))] leaves the camera with. *)
Variable camera_start_rotation_y : R.

(** The fields as [__init__] sets them, before any asset is loaded. *)
Definition initial_app : EmojiApp :=
  mkEmojiApp [] 30 true true "sin" "sin" 30 0.1 2.0 true "wave_position" 0.5 1.0 1.0
    "sphere" false false 1.0 false false 0.85
    (mkCamera None None camera_start_rotation_y) [] 0 false.

Definition __init__ : res EmojiApp :=
  app1 <- load_and_arrange_emojis initial_app ;;
  let '(sprites', draws') := setup_sprite_initial_states (sprites app1) (draws app1) in
  Ok (set_draws (set_sprites app1 sprites') draws').

(** A run of the program after start-up: key events and rendered frames. *)
Inductive event : Type :=
  | Key (key : string)
  | Frame (t dt : R).

Definition step (app : EmojiApp) (e : event) : res EmojiApp :=
  match e with
  | Key key => input app key
  | Frame t dt => update app t dt
  end.

(** The handlers applied to a list of events in turn.  The program itself
    handles a list only up to its first escape key, where the engine ends
    it. *)
Fixpoint run (app : EmojiApp) (events : list event) : res EmojiApp :=
  match events with
  | [] => Ok app
  | e :: events' => app' <- step app e ;; run app' events'
  end.

(** ** Post-process shaders ([shaders.py])

    The fragment programs bound by [apply_post_processing], as functions of
    the colour [texture(tex, v_uv).rgb] they sample; the result is the
    [rgb] part of [fragColor] and its alpha. *)

(** GLSL [dot] on [vec3]. *)
Definition dot (a b : Vec3) : R := vx a * vx b + vy a * vy b + vz a * vz b.

(** GLSL [mix(x, y, a)] = [x*(1-a) + y*a], component by component. *)
Definition mix (x y : Vec3) (a : R) : Vec3 :=
  mkVec3 (vx x * (1 - a) + vx y * a) (vy x * (1 - a) + vy y * a)
         (vz x * (1 - a) + vz y * a).

Definition grayscale_shader_frag (color : Vec3) : Vec3 * R :=
  let gray := dot color (mkVec3 0.299 0.587 0.114) in
  (mkVec3 gray gray gray, 1.0).

Definition sepia_color (color : Vec3) : Vec3 :=
  mkVec3 (dot color (mkVec3 0.393 0.769 0.189))
         (dot color (mkVec3 0.349 0.686 0.168))
         (dot color (mkVec3 0.272 0.534 0.131)).

Definition sepia_shader_frag (amount : R) (color : Vec3) : Vec3 * R :=
  (mix color (sepia_color color) amount, 1.0).

(** ** Vocabulary of the properties *)

(** The attributes the compositor reads are present (as they are on every
    sprite once [setup_sprite_initial_states] has run). *)
Definition has_base_state (s : Sprite) (bp : Vec3) (v : R) (bs : Vec3) (ph : R) : Prop :=
  base_position s = Some bp /\ base_scale_val s = Some v
  /\ base_scale s = Some bs /\ animation_phase_offset s = Some ph.

(** Adding [d] to the yaw of a non-billboard sprite and to the roll of a
    billboard. *)
Definition spin (is_billboard : bool) (r : Vec3) (d : R) : Vec3 :=
  if is_billboard then mkVec3 (vx r) (vy r) (vz r + d)
  else mkVec3 (vx r) (vy r + d) (vz r).

Ltac finish := repeat split; first [assumption | reflexivity].

Ltac case_eqb :=
  match goal with
  | |- context [String.eqb ?a ?b] => destruct (String.eqb a b) eqn:?
  end.

(** The rotation the node layer adds in one frame. *)
Definition node_rotation_delta (app : EmojiApp) (i : nat) (t dt ph : R) : R :=
  if negb (node_animation_enabled app) || String.eqb (node_animation_type app) "none"
  then 0
  else if String.eqb (node_animation_type app) "wave_position" then 0
  else if String.eqb (node_animation_type app) "wave_zoom" then 0
  else if String.eqb (node_animation_type app) "wave_rotation" then
    sin (INR i * node_anim_frequency app + t * node_anim_speed app * 2.0 + ph)
    * node_anim_amplitude app * 30 * dt
  else 0.

(** The rotation the idle layer adds in one frame. *)
Definition idle_rotation_delta (app : EmojiApp) (t dt ph : R) : R :=
  if idle_rotation_enabled app then
    idle_rotation_speed app
    * (if String.eqb (idle_rotation_pattern app) "sin"
       then sin (t * idle_zoom_speed_factor app + ph)
       else if String.eqb (idle_rotation_pattern app) "pulse"
       then Rabs (sin (t * idle_zoom_speed_factor app + ph))
       else if String.eqb (idle_rotation_pattern app) "ramp"
       then (sin (t * idle_zoom_speed_factor app + ph) + 1) / 2.0
       else 1.0)
    * dt
  else 0.

(** [factor] of the idle zoom, by pattern: sine, pulse, ramp; any other
    pattern leaves the scale at its base value. *)
Definition idle_zoom_factor (pattern : string) (x : R) : R :=
  if String.eqb pattern "sin" then sin x
  else if String.eqb pattern "pulse" then Rabs (sin x)
  else if String.eqb pattern "ramp" then (sin x + 1) / 2
  else 0.

(** Every visible sprite of the pool has its base state. *)
Definition well_formed (l : list Sprite) : Prop :=
  forall s, In s l -> visible s = true ->
    exists bp v bs ph, has_base_state s bp v bs ph.

Definition frames_events (frames : list (R * R)) : list event :=
  List.map (fun f => Frame (fst f) (snd f)) frames.


(** What an arrangement gives the sprite of index [i]: a position, a uniform
    scale and either zero rotation ([None]) or the look-at rotation towards
    a target, plus 90 degrees about X. *)
Definition placed_as (r : Sprite) (pos : Vec3) (sc : R) (target : option Vec3) : Prop :=
  position r = pos /\ scale r = uniform sc /\ base_scale_val r = Some sc
  /\ match target with
     | None => rotation r = vec_zero
     | Some tg =>
         exists e, position e = pos
                   /\ rotation r = mkVec3 (vx (look_at e tg) + 90) (vy (look_at e tg))
                                          (vz (look_at e tg))
     end.

(** The cache only holds paths that exist (it starts empty and the files do
    not change while the program runs). *)
Definition cache_consistent (cache : list (string * string)) : Prop :=
  forall k v, cache_lookup cache k = Some v -> path_exists k = true.

(** The file sprite [i] takes its texture from. *)
Definition texture_file (filenames : list string) (i : nat) : string :=
  texture_path DEFAULT_RESOLUTION_FOLDER
    (nth (i mod List.length filenames) filenames EmptyString).

(** Invariant of the loading loop when it creates every sprite: [i] sprites
    so far, and a sprite whose file is missing is the red fallback entity. *)
Definition loaded (filenames : list string) (i : nat)
    (st : list Sprite * list (string * string) * nat) : Prop :=
  List.length (fst (fst st)) = i
  /\ cache_consistent (snd (fst st))
  /\ forall j s, nth_error (fst (fst st)) j = Some s ->
       path_exists (texture_file filenames j) = false -> s = fallback_entity.

(** Reading a string of lower-case hexadecimal digits back as a number. *)
Definition hex_digit_value (a : ascii) : option N :=
  let n := N_of_ascii a in
  if ((48 <=? n) && (n <=? 57))%N then Some (n - 48)%N
  else if ((97 <=? n) && (n <=? 102))%N then Some (n - 87)%N
  else None.

Fixpoint hex_value_from (acc : N) (s : string) : option N :=
  match s with
  | EmptyString => Some acc
  | String a s' =>
      match hex_digit_value a with
      | Some d => hex_value_from (16 * acc + d) s'
      | None => None
      end
  end.

Definition hex_value (s : string) : option N :=
  match s with
  | EmptyString => None
  | _ => hex_value_from 0 s
  end.

(** Every character of the string is a lower-case hexadecimal digit. *)
Fixpoint hex_string (s : string) : Prop :=
  match s with
  | EmptyString => True
  | String a s' => (exists d, a = hex_digit d) /\ hex_string s'
  end.

(** The shader bound to the camera is the one the two toggles select, and
    while sepia is bound its input ['amount'] holds the current intensity. *)
Definition post_process_consistent (app : EmojiApp) : Prop :=
  shader (camera app) =
    (if grayscale_enabled app then Some grayscale_shader
     else if sepia_enabled app then Some sepia_shader
     else None)
  /\ (shader (camera app) = Some sepia_shader ->
      shader_amount (camera app) = Some (sepia_amount app)).

(** What every state reached after start-up satisfies. *)
Definition healthy (app : EmojiApp) : Prop :=
  well_formed (sprites app)
  /\ In (node_animation_type app) patterns
  /\ post_process_consistent app.

(** The cache maps a path to itself, and only paths that exist. *)
Definition cache_of_existing (cache : list (string * string)) : Prop :=
  forall k v, cache_lookup cache k = Some v -> v = k /\ path_exists k = true.

(** Invariant of the loading loop into an empty pool: [i] sprites so far,
    each carrying the texture of its own file when that file exists. *)
Definition textured (filenames : list string) (i : nat)
    (st : list Sprite * list (string * string) * nat) : Prop :=
  List.length (fst (fst st)) = i
  /\ cache_of_existing (snd (fst st))
  /\ forall j s, nth_error (fst (fst st)) j = Some s ->
       path_exists (texture_file filenames j) = true ->
       texture s = Some (texture_file filenames j) /\ color s = white.

(** The sprites before index [i] are visible. *)
Definition visible_below (i : nat) (l : list Sprite) : Prop :=
  forall j s, (j < i)%nat -> nth_error l j = Some s -> visible s = true.

(** [s'] differs from [s] at most in position, rotation and scale. *)
Definition same_but_transform (s s' : Sprite) : Prop :=
  s' = set_scale (set_rotation (set_position s (position s')) (rotation s')) (scale s').

(** [sum(dt for (t, dt) in frames)] *)
Fixpoint total_dt (frames : list (R * R)) : R :=
  match frames with
  | [] => 0
  | f :: frames' => snd f + total_dt frames'
  end.

(** The test at the end of [update]. *)
Definition is_3d_arrangement (app : EmojiApp) : bool :=
  String.eqb (current_arrangement app) "swirl"
  || String.eqb (current_arrangement app) "torus"
  || String.eqb (current_arrangement app) "sphere".

(** A JSON value that Python takes as true but cannot iterate: a number
    other than zero, or [true]. *)
Definition truthy_scalar (v : json) : Prop :=
  match v with
  | JBool b => b = true
  | JInt z => z <> 0%Z
  | JFloat x => x <> 0
  | _ => False
  end.

(** The file name [emoji_filename] derives from a string, piece by piece. *)
Definition filename_of_ustr (s : ustr) : string :=
  ("emoji_u" ++ String.concat "_" (List.map (fun c => codepoint_piece [c]) s) ++ ".png")%string.

(** The non-blank pieces of a semicolon-separated group, stripped. *)
Definition group_pieces (s : ustr) : list ustr :=
  List.filter (fun e => match e with [] => false | _ => true end)
    (List.map strip (split_semicolon [] s)).

(** The pool of [app'] shows what the pool of [app] shows: as many sprites,
    each with the texture and colour of the sprite at its index, and the
    same cache and active count. *)
Definition same_pool (app app' : EmojiApp) : Prop :=
  num_sprites app' = num_sprites app
  /\ List.length (sprites app') = List.length (sprites app)
  /\ texture_cache app' = texture_cache app
  /\ forall i s, nth_error (sprites app) i = Some s ->
       exists s', nth_error (sprites app') i = Some s'
                  /\ texture s' = texture s /\ color s' = color s.

(** The entries of [arrangement_args_map], read as what each arrangement
    gives the sprite of index [i] among [n] active ones: its position, its
    uniform scale and the point it is made to look at (none in the grid). *)
Definition layout_position (n : nat) (arrangement_name : string) (i : nat) : Vec3 :=
  if String.eqb arrangement_name "grid" then
    mkVec3 (cell_coord (i mod 5) 5 1.2) (cell_coord (i / 5) (ceil_div n 5) 1.2) 0
  else if String.eqb arrangement_name "swirl" then swirl_pos n 3 3 5 i
  else if String.eqb arrangement_name "torus" then torus_pos n 3 1 i
  else sphere_pos n 3 i.

Definition layout_scale (arrangement_name : string) : R :=
  if String.eqb arrangement_name "grid" then 1
  else if String.eqb arrangement_name "swirl" then 0.7
  else if String.eqb arrangement_name "torus" then 0.5
  else 0.6.

Definition layout_target (n : nat) (arrangement_name : string) (i : nat) : option Vec3 :=
  if String.eqb arrangement_name "grid" then None
  else if String.eqb arrangement_name "swirl" then
    Some (vec_add (swirl_pos n 3 3 5 i)
            (normalized (mkVec3 (vx (swirl_pos n 3 3 5 i)) 0 (vz (swirl_pos n 3 3 5 i)))))
  else if String.eqb arrangement_name "torus" then
    Some (vec_add (torus_pos n 3 1 i)
            (normalized (mkVec3 (cos (torus_u n i) * cos (torus_v n i))
                                (sin (torus_v n i))
                                (sin (torus_u n i) * cos (torus_v n i)))))
  else Some (vec_add (sphere_pos n 3 i) (normalized (sphere_unit n i))).

(** The arrangement a key selects. *)
Definition key_arrangement (key : string) : string :=
  if String.eqb key "1" then "grid"
  else if String.eqb key "2" then "swirl"
  else if String.eqb key "3" then "torus"
  else "sphere".

(** Sample states: one billboard sprite as the grid leaves the only sprite
    of a one-sprite pool, after idle rotation has turned it by 30 degrees. *)
Definition sample_sprite : Sprite :=
  mkSprite "entity" (Some "assets/noto-emoji/png/128/emoji_u1f600.png") white
    (mkVec3 (-2.4) 0 0) (mkVec3 0 0 30) (uniform 1) true true true
    (Some 1) (Some (uniform 1)) (Some (mkVec3 (-2.4) 0 0)) (Some 0) (Some 0).

(** Every animation off. *)
Definition sample_app : EmojiApp :=
  mkEmojiApp [sample_sprite] 1 false false "sin" "sin" 30 0.1 2.0 true "none" 0.5 1.0 1.0
    "grid" false false 1.0 false false 0.85 (mkCamera None None 0) [] 1 false.

(** Node mode [wave_zoom] together with the idle zoom. *)
Definition sample_app_zoom : EmojiApp :=
  mkEmojiApp [sample_sprite] 1 false true "sin" "sin" 30 0.1 2.0 true "wave_zoom" 0.5 1.0
    1.0 "grid" false false 1.0 false false 0.85 (mkCamera None None 0) [] 1 false.

(** A sprite that the animations of earlier frames have moved away from
    its base position and base scale; not a billboard. *)
Definition displaced_sprite : Sprite :=
  mkSprite "entity" (Some "assets/noto-emoji/png/128/emoji_u1f600.png") white
    (mkVec3 5 6 7) (mkVec3 10 20 30) (mkVec3 3 4 5) true false true
    (Some 2) (Some (uniform 2)) (Some (mkVec3 1 2 3)) (Some 0) (Some 0).

(** Node mode [wave_rotation] with the idle rotation, on the displaced sprite. *)
Definition sample_app_rotation : EmojiApp :=
  mkEmojiApp [displaced_sprite] 1 true false "sin" "sin" 30 0.1 2.0 true "wave_rotation"
    0.5 1.0 1.0 "swirl" false false 1.0 false false 0.85 (mkCamera None None 0) [] 1 false.

(** Two pools of two active sprites that differ in every sprite. *)
Definition sample_app_pair : EmojiApp :=
  mkEmojiApp [sample_sprite; displaced_sprite] 2 true true "sin" "sin" 30 0.1 2.0 true
    "wave_position" 0.5 1.0 1.0 "grid" false false 1.0 false false 0.85
    (mkCamera None None 0) [] 2 false.


(** * Properties *)

(** ** Post-process selector *)

Lemma apply_arrangement_keeps_post_process (app : EmojiApp) (nm : string)
    (f : list Sprite -> list Sprite) :
  let app' := _apply_arrangement_and_setup_state app nm f in
  sepia_amount app' = sepia_amount app
  /\ node_animation_type app' = node_animation_type app
  /\ grayscale_enabled app' = grayscale_enabled app
  /\ sepia_enabled app' = sepia_enabled app
  /\ camera app' = camera app.
Proof.
  unfold _apply_arrangement_and_setup_state, setup_sprite_initial_states.
  cbn. repeat split; reflexivity.
Qed.

Lemma apply_post_processing_fields (app : EmojiApp) :
  sepia_amount (apply_post_processing app) = sepia_amount app
  /\ node_animation_type (apply_post_processing app) = node_animation_type app
  /\ grayscale_enabled (apply_post_processing app) = grayscale_enabled app
  /\ sepia_enabled (apply_post_processing app) = sepia_enabled app.
Proof.
  unfold apply_post_processing.
  destruct (grayscale_enabled app) eqn:G; [| destruct (sepia_enabled app) eqn:S];
    cbn; rewrite ?G, ?S; repeat split; reflexivity.
Qed.

(** What the selector binds, by cases on the two toggles. *)
Lemma apply_post_processing_shader (app : EmojiApp) :
  shader (camera (apply_post_processing app)) =
    if grayscale_enabled app then Some grayscale_shader
    else if sepia_enabled app then Some sepia_shader
    else None.
Proof.
  unfold apply_post_processing.
  destruct (grayscale_enabled app); [| destruct (sepia_enabled app)]; reflexivity.
Qed.

(** C1 (the code at the key sequence [g], [s]): after start-up, pressing
    [g] and then [s] leaves both toggles on, and the shader bound to the
    camera is the grayscale one, not the sepia one: the [if] / [elif] of
    [apply_post_processing] tests grayscale first. *)
Theorem grayscale_then_sepia_binds_grayscale :
  exists app',
    run initial_app [Key "g"; Key "s"] = Ok app'
    /\ grayscale_enabled app' = true
    /\ sepia_enabled app' = true
    /\ shader (camera app') = Some grayscale_shader.
Proof.
  eexists. split; [reflexivity |]. cbn. repeat split; reflexivity.
Qed.

(** ** Sepia intensity *)

Lemma clamp_up_bounds (a : R) : 0 <= a <= 1 -> 0 <= Rmin 1.0 (a + 0.1) <= 1.
Proof.
  intros [H0 H1]. unfold Rmin. destruct (Rle_dec 1.0 (a + 0.1)); lra.
Qed.

Lemma clamp_down_bounds (a : R) : 0 <= a <= 1 -> 0 <= Rmax 0.0 (a - 0.1) <= 1.
Proof.
  intros [H0 H1]. unfold Rmax. destruct (Rle_dec 0.0 (a - 0.1)); lra.
Qed.

Lemma next_pattern_total (x : string) :
  In x patterns ->
  exists idx, index_of patterns x = Ok idx
    /\ In (nth ((idx + 1) mod List.length patterns) patterns EmptyString) patterns.
Proof.
  unfold patterns. intros H.
  repeat (destruct H as [<- | H]; [eexists; split; [reflexivity |]; cbn; tauto |]).
  destruct H.
Qed.

(** One key never raises from a state whose node mode is one of the four
    known ones, keeps the mode among them and keeps the intensity in range. *)
Lemma input_keeps_sepia_range (app : EmojiApp) (key : string) :
  In (node_animation_type app) patterns ->
  0 <= sepia_amount app <= 1 ->
  exists app',
    input app key = Ok app'
    /\ In (node_animation_type app') patterns
    /\ 0 <= sepia_amount app' <= 1.
Proof.
  intros Hp Hb. unfold input.
  destruct (arrangement_of_key (num_sprites app) key) as [[nm f] |].
  { eexists. split; [reflexivity |].
    destruct (apply_arrangement_keeps_post_process app nm f) as (-> & -> & _).
    auto. }
  destruct (String.eqb key "r"); [eexists; split; [reflexivity | cbn; auto] |].
  destruct (String.eqb key "t"); [eexists; split; [reflexivity | cbn; auto] |].
  destruct (String.eqb key "n").
  { destruct (next_pattern_total _ Hp) as (idx & -> & Hin).
    eexists. split; [reflexivity |]. cbn [bind node_animation_type sepia_amount
      set_node_animation_type]. auto. }
  destruct (String.eqb key "g").
  { eexists. split; [reflexivity |].
    destruct (apply_post_processing_fields
                (set_grayscale_enabled app (negb (grayscale_enabled app))))
      as (-> & -> & _). cbn. auto. }
  destruct (String.eqb key "s").
  { eexists. split; [reflexivity |].
    destruct (apply_post_processing_fields
                (set_sepia_enabled app (negb (sepia_enabled app))))
      as (-> & -> & _). cbn. auto. }
  destruct (String.eqb key "b"); [eexists; split; [reflexivity | cbn; auto] |].
  destruct (String.eqb key "a"); [eexists; split; [reflexivity | cbn; auto] |].
  destruct (String.eqb key "s up").
  { eexists. split; [reflexivity |].
    destruct (apply_post_processing_fields
                (set_sepia_amount app (Rmin 1.0 (sepia_amount app + 0.1))))
      as (-> & -> & _). cbn. split; [assumption | apply clamp_up_bounds; assumption]. }
  destruct (String.eqb key "s down").
  { eexists. split; [reflexivity |].
    destruct (apply_post_processing_fields
                (set_sepia_amount app (Rmax 0.0 (sepia_amount app - 0.1))))
      as (-> & -> & _). cbn. split; [assumption | apply clamp_down_bounds; assumption]. }
  destruct (String.eqb key "escape"); eexists; (split; [reflexivity | cbn; auto]).
Qed.

Lemma keys_keep_sepia_range (keys : list string) :
  forall app : EmojiApp,
    In (node_animation_type app) patterns ->
    0 <= sepia_amount app <= 1 ->
    exists app',
      run app (List.map Key keys) = Ok app'
      /\ In (node_animation_type app') patterns
      /\ 0 <= sepia_amount app' <= 1.
Proof.
  induction keys as [| key keys IH]; intros app Hp Hb.
  - exists app. cbn. auto.
  - destruct (input_keeps_sepia_range app key Hp Hb) as (app1 & E1 & Hp1 & Hb1).
    destruct (IH app1 Hp1 Hb1) as (app2 & E2 & Hp2 & Hb2).
    exists app2. cbn. rewrite E1. cbn. auto.
Qed.

(** C9: from a state whose sepia intensity lies in [[0, 1]] (at start-up it
    is [1.0]), every sequence of keys is handled without an exception and
    leaves the intensity in [[0, 1]]; the key [s up] sets it to
    [min(1.0, amount + 0.1)] and the key [s down] to
    [max(0.0, amount - 0.1)], so a step is [0.1] wherever the bound is not
    reached. *)
Theorem sepia_amount_stays_in_unit_interval :
  forall (keys : list string) (app : EmojiApp),
    In (node_animation_type app) patterns ->
    0 <= sepia_amount app <= 1 ->
    (exists app',
        run app (List.map Key keys) = Ok app' /\ 0 <= sepia_amount app' <= 1)
    /\ (exists up,
          input app "s up" = Ok up
          /\ sepia_amount up = Rmin 1 (sepia_amount app + 0.1)
          /\ (sepia_amount app + 0.1 <= 1 ->
              sepia_amount up = sepia_amount app + 0.1))
    /\ (exists down,
          input app "s down" = Ok down
          /\ sepia_amount down = Rmax 0 (sepia_amount app - 0.1)
          /\ (0 <= sepia_amount app - 0.1 ->
              sepia_amount down = sepia_amount app - 0.1)).
Proof.
  intros keys app Hp Hb. split; [| split].
  - destruct (keys_keep_sepia_range keys app Hp Hb) as (app' & E & _ & Hb').
    exists app'. auto.
  - eexists. split; [reflexivity |].
    destruct (apply_post_processing_fields
                (set_sepia_amount app (Rmin 1.0 (sepia_amount app + 0.1))))
      as (-> & _). cbn [sepia_amount set_sepia_amount].
    replace 1.0 with 1 by lra. split; [reflexivity |].
    intros H. unfold Rmin. destruct (Rle_dec 1 (sepia_amount app + 0.1)); lra.
  - eexists. split; [reflexivity |].
    destruct (apply_post_processing_fields
                (set_sepia_amount app (Rmax 0.0 (sepia_amount app - 0.1))))
      as (-> & _). cbn [sepia_amount set_sepia_amount].
    replace 0.0 with 0 by lra. split; [reflexivity |].
    intros H. unfold Rmax. destruct (Rle_dec 0 (sepia_amount app - 0.1)); lra.
Qed.

(** ** Lists of sprites *)

Lemma update_nth_length (l : list Sprite) (i : nat) (f : Sprite -> Sprite) :
  List.length (update_nth l i f) = List.length l.
Proof.
  revert i. induction l as [| s l IH]; intros [| i]; cbn; auto.
Qed.

Lemma nth_error_update_nth (l : list Sprite) (i j : nat) (f : Sprite -> Sprite) :
  nth_error (update_nth l i f) j =
    if (j =? i)%nat then option_map f (nth_error l j) else nth_error l j.
Proof.
  revert i j. induction l as [| s l IH]; intros [| i] [| j]; cbn; auto;
    match goal with
    | |- context [(?a =? ?b)%nat] => destruct (a =? b)%nat; reflexivity
    end.
Qed.

Lemma enumerate_from_length (k : nat) (f : nat -> Sprite -> Sprite) (l : list Sprite) :
  List.length (enumerate_from k f l) = List.length l.
Proof.
  revert k. induction l as [| s l IH]; intros k; cbn; auto.
Qed.

Lemma nth_error_enumerate_from (k : nat) (f : nat -> Sprite -> Sprite)
    (l : list Sprite) (j : nat) :
  nth_error (enumerate_from k f l) j = option_map (f (k + j)%nat) (nth_error l j).
Proof.
  revert k j. induction l as [| s l IH]; intros k [| j]; cbn; auto.
  - rewrite Nat.add_0_r. reflexivity.
  - rewrite IH. replace (S k + j)%nat with (k + S j)%nat by lia. reflexivity.
Qed.

Lemma nth_error_enumerate_map (f : nat -> Sprite -> Sprite) (l : list Sprite) (j : nat) :
  nth_error (enumerate_map f l) j = option_map (f j) (nth_error l j).
Proof.
  unfold enumerate_map. apply nth_error_enumerate_from.
Qed.

Lemma enumerate_map_length (f : nat -> Sprite -> Sprite) (l : list Sprite) :
  List.length (enumerate_map f l) = List.length l.
Proof.
  apply enumerate_from_length.
Qed.

(** ** Grid layout *)

Section Grid.

Variables (num_cols num_rows : nat) (cell_size emoji_scale_val : R).
Hypothesis cols_pos : (0 < num_cols)%nat.

(** Invariant of the inner loop: it fills the cells of row [r] from column
    [c] on with the sprites [idx], [idx + 1], ... and stops early exactly
    when the sprites run out. *)
Lemma grid_row_spec (r cols_left : nat) :
  forall (c : nat) (l : list Sprite) (idx : nat),
    (idx <= List.length l)%nat ->
    match grid_row num_cols num_rows cell_size emoji_scale_val r cols_left c l idx with
    | (l', idx', broke) =>
        List.length l' = List.length l
        /\ idx' = Nat.min (idx + cols_left) (List.length l)
        /\ (broke = true -> idx' = List.length l)
        /\ (broke = false -> idx' = (idx + cols_left)%nat)
        /\ forall j,
            nth_error l' j =
              if ((idx <=? j) && (j <? idx'))%nat
              then option_map
                     (grid_place num_cols num_rows cell_size emoji_scale_val
                        (c + (j - idx))%nat r)
                     (nth_error l j)
              else nth_error l j
    end.
Proof.
  induction cols_left as [| k IH]; intros c l idx Hidx; cbn [grid_row].
  - repeat split; try lia; try discriminate.
    intros j. replace ((idx <=? j) && (j <? idx))%nat with false; [reflexivity |].
    symmetry. apply andb_false_iff.
    destruct (Nat.leb_spec idx j); [right; apply Nat.ltb_ge; lia | left; reflexivity].
  - destruct (Nat.ltb_spec idx (List.length l)) as [Hlt | Hge].
    + specialize
        (IH (S c)
            (update_nth l idx (grid_place num_cols num_rows cell_size emoji_scale_val c r))
            (S idx)).
      rewrite update_nth_length in IH. specialize (IH Hlt).
      destruct (grid_row num_cols num_rows cell_size emoji_scale_val r k (S c)
                  (update_nth l idx
                     (grid_place num_cols num_rows cell_size emoji_scale_val c r))
                  (S idx)) as [[l' idx'] broke].
      destruct IH as (Hlen & Hidx' & Hb1 & Hb0 & Hnth).
      repeat split; try lia.
      * intros Hb. apply Hb1 in Hb. lia.
      * intros Hb. apply Hb0 in Hb. lia.
      * intros j. rewrite Hnth, nth_error_update_nth.
        destruct (Nat.eqb_spec j idx) as [-> | Hne].
        -- replace (S idx <=? idx)%nat with false by (symmetry; apply Nat.leb_gt; lia).
           rewrite Nat.leb_refl. cbn [andb].
           replace (idx <? idx')%nat with true by (symmetry; apply Nat.ltb_lt; lia).
           replace (c + (idx - idx))%nat with c by lia. reflexivity.
        -- destruct (Nat.leb_spec (S idx) j) as [H1 | H1].
           ++ replace (idx <=? j)%nat with true by (symmetry; apply Nat.leb_le; lia).
              cbn [andb]. destruct (j <? idx')%nat; [| reflexivity].
              replace (S c + (j - S idx))%nat with (c + (j - idx))%nat by lia.
              reflexivity.
           ++ replace (idx <=? j)%nat with false by (symmetry; apply Nat.leb_gt; lia).
              reflexivity.
    + assert (idx = List.length l) by lia. subst idx.
      repeat split; try lia; try discriminate.
      intros j.
      replace ((List.length l <=? j) && (j <? List.length l))%nat with false;
        [reflexivity |].
      symmetry. apply andb_false_iff.
      destruct (Nat.leb_spec (List.length l) j);
        [right; apply Nat.ltb_ge; lia | left; reflexivity].
Qed.

Lemma cell_of_index (r d : nat) :
  (d < num_cols)%nat ->
  ((r * num_cols + d) mod num_cols = d /\ (r * num_cols + d) / num_cols = r)%nat.
Proof.
  intros Hd. split.
  - symmetry. apply (Nat.mod_unique _ _ r); lia.
  - symmetry. apply (Nat.div_unique _ _ _ d); lia.
Qed.

(** Invariant of the outer loop, entered at row [r] with [idx = r * num_cols]:
    sprite [j] lands in column [j mod num_cols] of row [j / num_cols]. *)
Lemma grid_rows_spec (rows_left : nat) :
  forall (r : nat) (l : list Sprite) (idx : nat),
    idx = (r * num_cols)%nat ->
    (idx <= List.length l)%nat ->
    match grid_rows num_cols num_rows cell_size emoji_scale_val rows_left r l idx with
    | (l', idx') =>
        List.length l' = List.length l
        /\ idx' = Nat.min (idx + rows_left * num_cols) (List.length l)
        /\ forall j,
            nth_error l' j =
              if ((idx <=? j) && (j <? idx'))%nat
              then option_map
                     (grid_place num_cols num_rows cell_size emoji_scale_val
                        (j mod num_cols) (j / num_cols))%nat
                     (nth_error l j)
              else nth_error l j
    end.
Proof.
  induction rows_left as [| k IH]; intros r l idx Hr Hidx; cbn [grid_rows].
  - repeat split; try lia.
    intros j. replace ((idx <=? j) && (j <? idx))%nat with false; [reflexivity |].
    symmetry. apply andb_false_iff.
    destruct (Nat.leb_spec idx j); [right; apply Nat.ltb_ge; lia | left; reflexivity].
  - pose proof (grid_row_spec r num_cols 0 l idx Hidx) as Hrow.
    destruct (grid_row num_cols num_rows cell_size emoji_scale_val r num_cols 0 l idx)
      as [[l1 idx1] broke].
    destruct Hrow as (Hlen1 & Hidx1 & Hb1 & Hb0 & Hnth1).
    assert (Hcell : forall j, (idx <= j)%nat -> (j < idx1)%nat ->
              (0 + (j - idx) = j mod num_cols /\ r = j / num_cols)%nat).
    { intros j H1 H2.
      destruct (cell_of_index r (j - idx)) as [Hm Hd]; [lia |].
      replace (r * num_cols + (j - idx))%nat with j in Hm, Hd by lia. lia. }
    destruct broke.
    + specialize (Hb1 eq_refl). repeat split; try lia.
      intros j. rewrite Hnth1.
      destruct (Nat.leb_spec idx j) as [H1 | H1]; [| reflexivity].
      destruct (Nat.ltb_spec j idx1) as [H2 | H2]; [| reflexivity]. cbn [andb].
      destruct (Hcell j H1 H2) as [-> <-]. reflexivity.
    + specialize (Hb0 eq_refl).
      specialize (IH (S r) l1 idx1).
      rewrite Hlen1 in IH.
      assert (E1 : idx1 = (S r * num_cols)%nat) by lia.
      assert (E2 : (idx1 <= List.length l)%nat) by lia.
      specialize (IH E1 E2).
      destruct (grid_rows num_cols num_rows cell_size emoji_scale_val k (S r) l1 idx1)
        as [l' idx'].
      destruct IH as (Hlen & Hidx' & Hnth).
      repeat split; try lia.
      intros j. rewrite Hnth, Hnth1.
      destruct (Nat.leb_spec idx1 j) as [H1 | H1].
      * replace (idx <=? j)%nat with true by (symmetry; apply Nat.leb_le; lia).
        replace (j <? idx1)%nat with false by (symmetry; apply Nat.ltb_ge; lia).
        rewrite andb_false_r. reflexivity.
      * cbn [andb].
        destruct (Nat.leb_spec idx j) as [H3 | H3]; [| reflexivity].
        replace (j <? idx1)%nat with true by (symmetry; apply Nat.ltb_lt; lia).
        replace (j <? idx')%nat with true by (symmetry; apply Nat.ltb_lt; lia).
        cbn [andb]. destruct (Hcell j H3 H1) as [-> <-]. reflexivity.
Qed.

(** The grid arrangement, sprite by sprite: a sprite that gets one of the
    [num_cols * num_rows] cells is placed in it, row-major; any other sprite
    of the list is marked invisible and otherwise left alone. *)
Lemma arrange_sprites_grid_nth (l : list Sprite) (j : nat) :
  nth_error (arrange_sprites_grid l num_cols num_rows cell_size emoji_scale_val) j =
    option_map
      (fun s => if (j <? num_rows * num_cols)%nat
                then grid_place num_cols num_rows cell_size emoji_scale_val
                       (j mod num_cols)%nat (j / num_cols)%nat s
                else set_visible s false)
      (nth_error l j).
Proof.
  unfold arrange_sprites_grid.
  pose proof (grid_rows_spec num_rows 0 l 0 eq_refl (Nat.le_0_l _)) as H.
  destruct (grid_rows num_cols num_rows cell_size emoji_scale_val num_rows 0 l 0)
    as [l' idx'].
  destruct H as (Hlen & Hidx & Hnth).
  unfold hide_from. rewrite nth_error_enumerate_map, Hnth. cbn [Nat.leb andb].
  destruct (nth_error l j) as [s |] eqn:E.
  - assert (j < List.length l)%nat by (apply nth_error_Some; congruence).
    destruct (Nat.ltb_spec j idx') as [H1 | H1]; cbn [option_map].
    + replace (idx' <=? j)%nat with false by (symmetry; apply Nat.leb_gt; lia).
      replace (j <? num_rows * num_cols)%nat with true
        by (symmetry; apply Nat.ltb_lt; lia).
      reflexivity.
    + replace (idx' <=? j)%nat with true by (symmetry; apply Nat.leb_le; lia).
      replace (j <? num_rows * num_cols)%nat with false
        by (symmetry; apply Nat.ltb_ge; lia).
      reflexivity.
  - destruct (j <? idx')%nat; reflexivity.
Qed.

Lemma arrange_sprites_grid_length (l : list Sprite) :
  List.length (arrange_sprites_grid l num_cols num_rows cell_size emoji_scale_val)
  = List.length l.
Proof.
  unfold arrange_sprites_grid.
  pose proof (grid_rows_spec num_rows 0 l 0 eq_refl (Nat.le_0_l _)) as H.
  destruct (grid_rows num_cols num_rows cell_size emoji_scale_val num_rows 0 l 0)
    as [l' idx'].
  destruct H as (Hlen & _). unfold hide_from. rewrite enumerate_map_length. exact Hlen.
Qed.

End Grid.

Lemma ceil_div_covers (n d : nat) : (0 < d)%nat -> (n <= ceil_div n d * d)%nat.
Proof.
  intros Hd. unfold ceil_div.
  pose proof (Nat.div_mod_eq (n + d - 1) d) as E.
  pose proof (Nat.mod_upper_bound (n + d - 1) d) as B. nia.
Qed.

Lemma ceil_div_last_row (n d : nat) :
  (0 < d)%nat -> (0 < n)%nat -> ((n - 1) / d = ceil_div n d - 1)%nat.
Proof.
  intros Hd Hn. unfold ceil_div.
  replace (n + d - 1)%nat with ((n - 1) + 1 * d)%nat by lia.
  rewrite Nat.div_add by lia. lia.
Qed.

Lemma cell_coord_step (k count : nat) (cell_size : R) :
  cell_coord (S k) count cell_size - cell_coord k count cell_size = cell_size.
Proof.
  unfold cell_coord. rewrite S_INR. lra.
Qed.

Lemma cell_coord_centered (k count : nat) (cell_size : R) :
  (k < count)%nat ->
  cell_coord k count cell_size + cell_coord (count - 1 - k) count cell_size = 0.
Proof.
  intros Hk. unfold cell_coord.
  replace (INR (count - 1 - k)) with (INR count - 1 - INR k).
  - lra.
  - rewrite !minus_INR by lia. cbn. lra.
Qed.

(** The snapshot taken after an arrangement touches the [base_*] attributes
    and the phase offset only. *)
Lemma setup_sprite_transform (draw : R) (s : Sprite) :
  let s' := setup_sprite draw s in
  position s' = position s /\ rotation s' = rotation s /\ scale s' = scale s
  /\ visible s' = visible s /\ billboard s' = billboard s
  /\ color s' = color s /\ texture s' = texture s.
Proof.
  unfold setup_sprite. destruct (base_scale_val s); cbn; repeat split; reflexivity.
Qed.

Lemma setup_sprite_base (draw : R) (s : Sprite) :
  let s' := setup_sprite draw s in
  base_position s' = Some (position s)
  /\ base_scale s' = Some (scale s)
  /\ base_rotation_z s' = Some (vz (rotation s))
  /\ animation_phase_offset s' = Some draw
  /\ base_scale_val s' =
       match base_scale_val s with
       | Some v => Some v
       | None => Some (Rmax (vx (scale s)) (vy (scale s)))
       end.
Proof.
  unfold setup_sprite. destruct (base_scale_val s) eqn:E; cbn; rewrite ?E;
    repeat split; try reflexivity.
  destruct (Req_dec_T (vx (scale s)) (vy (scale s))) as [H | H]; [| reflexivity].
  rewrite <- H. unfold Rmax. destruct (Rle_dec _ _); reflexivity.
Qed.

(** The sprite list after an arrangement whose callback keeps the length of
    the slice it is given. *)
Lemma apply_arrangement_sprites (app : EmojiApp) (nm : string)
    (f : list Sprite -> list Sprite) (i : nat) :
  nth_error (sprites (_apply_arrangement_and_setup_state app nm f)) i =
    option_map (setup_sprite (uniform_draw (draws app + i)))
      (nth_error (f (firstn (num_sprites app) (sprites app))
                  ++ skipn (num_sprites app) (sprites app)) i).
Proof.
  unfold _apply_arrangement_and_setup_state, setup_sprite_initial_states.
  cbn. rewrite nth_error_enumerate_map. reflexivity.
Qed.

Lemma nth_error_slice_active (f : list Sprite -> list Sprite) (l : list Sprite)
    (n i : nat) :
  (forall l', List.length (f l') = List.length l') ->
  (i < n)%nat ->
  nth_error (f (firstn n l) ++ skipn n l) i = nth_error (f (firstn n l)) i.
Proof.
  intros Hf Hi.
  destruct (Nat.lt_ge_cases i (List.length (f (firstn n l)))) as [H | H].
  - apply nth_error_app1. exact H.
  - rewrite nth_error_app2 by exact H.
    rewrite Hf, length_firstn in H.
    assert (List.length l <= n)%nat by lia.
    rewrite skipn_all2 by assumption.
    symmetry. rewrite nth_error_nil. apply nth_error_None. rewrite Hf, length_firstn. lia.
Qed.

Lemma nth_error_slice_surplus (f : list Sprite -> list Sprite) (l : list Sprite)
    (n i : nat) :
  (forall l', List.length (f l') = List.length l') ->
  (n <= i)%nat ->
  nth_error (f (firstn n l) ++ skipn n l) i = nth_error l i.
Proof.
  intros Hf Hi.
  destruct (Nat.lt_ge_cases n (List.length l)) as [H | H].
  - rewrite nth_error_app2 by (rewrite Hf, length_firstn; lia).
    rewrite Hf, length_firstn, nth_error_skipn.
    f_equal. lia.
  - rewrite skipn_all2, app_nil_r by assumption.
    transitivity (@None Sprite).
    + apply nth_error_None. rewrite Hf, length_firstn. lia.
    + symmetry. apply nth_error_None. lia.
Qed.

Lemma load_one_length (filenames : list string) (i : nat) (sp : list Sprite)
    (cache : list (string * string)) (d : nat) :
  List.length (fst (fst (load_one filenames i (sp, cache, d)))) =
    if (i <? List.length sp)%nat then List.length sp else S (List.length sp).
Proof.
  unfold load_one.
  destruct (load_emoji_texture cache _ DEFAULT_RESOLUTION_FOLDER) as [tex cache'].
  destruct (i <? List.length sp)%nat.
  - cbn. apply update_nth_length.
  - destruct (create_emoji_sprite tex d) as [s d']. cbn.
    rewrite length_app. cbn. lia.
Qed.

(** After the loading loop the pool holds at least [num_sprites] sprites. *)
Lemma load_loop_length (filenames : list string) (count : nat) :
  forall (i : nat) (st : list Sprite * list (string * string) * nat),
    (i <= List.length (fst (fst st)))%nat ->
    List.length (fst (fst (load_loop filenames count i st))) =
      Nat.max (List.length (fst (fst st))) (i + count).
Proof.
  induction count as [| k IH]; intros i [[sp cache] d] Hi; cbn [load_loop].
  - cbn in *. lia.
  - pose proof (load_one_length filenames i sp cache d) as H1.
    rewrite IH.
    + rewrite H1. cbn [fst] in *.
      destruct (Nat.ltb_spec i (List.length sp)); lia.
    + rewrite H1. cbn [fst] in *.
      destruct (Nat.ltb_spec i (List.length sp)); lia.
Qed.

Lemma hide_from_nth (n : nat) (l : list Sprite) (i : nat) :
  nth_error (hide_from n l) i =
    option_map (fun s => if (n <=? i)%nat then set_visible s false else s)
      (nth_error l i).
Proof.
  unfold hide_from. apply nth_error_enumerate_map.
Qed.

Lemma grid_place_fields (num_cols num_rows : nat) (cell_size emoji_scale_val : R)
    (c r : nat) (s : Sprite) :
  let s' := grid_place num_cols num_rows cell_size emoji_scale_val c r s in
  position s' = mkVec3 (cell_coord c num_cols cell_size)
                       (cell_coord r num_rows cell_size) 0
  /\ base_position s' = Some (position s')
  /\ billboard s' = true
  /\ rotation s' = vec_zero
  /\ scale s' = uniform emoji_scale_val
  /\ base_scale_val s' = Some emoji_scale_val
  /\ visible s' = true.
Proof.
  cbn. repeat split; reflexivity.
Qed.

(** C3: the grid arrangement of [n] sprites in [num_cols > 0] columns and
    [ceil(n / num_cols)] rows keeps the list's length and puts sprite [i] in
    column [i mod num_cols] of row [i / num_cols] (row-major), which lies
    inside the [num_cols] x [ceil(n / num_cols)] footprint; the sprite is
    billboarded, has zero rotation, the given uniform scale, and is visible.
    The last sprite sits in the last row; neighbouring cells are [cell_size]
    apart and the cells are centred on the origin.  Sprites left without a
    cell are marked invisible by the arrangement, and the sprites of the pool
    with index [>= num_sprites] are invisible after
    [load_and_arrange_emojis] has laid out the grid. *)
Theorem grid_layout_row_major :
  forall (l : list Sprite) (num_cols : nat) (cell_size emoji_scale_val : R),
    (0 < num_cols)%nat ->
    let n := List.length l in
    let num_rows := ceil_div n num_cols in
    let out := arrange_sprites_grid l num_cols num_rows cell_size emoji_scale_val in
    List.length out = n
    /\ (forall i s, nth_error l i = Some s ->
          exists s',
            nth_error out i = Some s'
            /\ (i mod num_cols < num_cols)%nat /\ (i / num_cols < num_rows)%nat
            /\ position s' = mkVec3 (cell_coord (i mod num_cols) num_cols cell_size)
                                    (cell_coord (i / num_cols) num_rows cell_size) 0
            /\ base_position s' = Some (position s')
            /\ billboard s' = true
            /\ rotation s' = vec_zero
            /\ scale s' = uniform emoji_scale_val
            /\ base_scale_val s' = Some emoji_scale_val
            /\ visible s' = true)
    /\ ((0 < n)%nat -> ((n - 1) / num_cols = num_rows - 1)%nat)
    /\ (forall k count,
          cell_coord (S k) count cell_size - cell_coord k count cell_size = cell_size)
    /\ (forall k count, (k < count)%nat ->
          cell_coord k count cell_size + cell_coord (count - 1 - k) count cell_size = 0)
    /\ (forall rows i s, nth_error l i = Some s -> (rows * num_cols <= i)%nat ->
          nth_error (arrange_sprites_grid l num_cols rows cell_size emoji_scale_val) i
          = Some (set_visible s false))
    /\ (forall app fn fns,
          current_arrangement app = "grid" ->
          get_emoji_filenames_for_set_and_group DEFAULT_EMOJI_SET DEFAULT_EMOJI_GROUP
          = Ok (fn :: fns) ->
          exists app',
            load_and_arrange_emojis app = Ok app'
            /\ (forall i, (i < num_sprites app)%nat ->
                  exists s',
                    nth_error (sprites app') i = Some s'
                    /\ position s' =
                         mkVec3 (cell_coord (i mod 5) 5 1.2)
                                (cell_coord (i / 5) (ceil_div (num_sprites app) 5) 1.2) 0
                    /\ billboard s' = true /\ rotation s' = vec_zero
                    /\ scale s' = uniform 1 /\ visible s' = true)
            /\ (forall i s', (num_sprites app <= i)%nat ->
                  nth_error (sprites app') i = Some s' -> visible s' = false)).
Proof.
  intros l num_cols cell_size emoji_scale_val Hc n num_rows out.
  split; [apply arrange_sprites_grid_length; exact Hc |].
  split; [| split; [| split; [| split; [| split]]]].
  - intros i s E.
    assert (Hi : (i < n)%nat) by (apply nth_error_Some; congruence).
    pose proof (ceil_div_covers n num_cols Hc) as Hcov. fold num_rows in Hcov.
    assert (Hcell : (i < num_rows * num_cols)%nat) by lia.
    eexists. split.
    + unfold out. rewrite (arrange_sprites_grid_nth _ _ _ _ Hc), E. cbn [option_map].
      apply Nat.ltb_lt in Hcell. rewrite Hcell. reflexivity.
    + split; [apply Nat.mod_upper_bound; lia |].
      split; [apply Nat.Div0.div_lt_upper_bound; lia |].
      apply grid_place_fields.
  - intros Hn. apply ceil_div_last_row; assumption.
  - intros k count. apply cell_coord_step.
  - intros k count Hk. apply cell_coord_centered. exact Hk.
  - intros rows i s E Hi.
    rewrite (arrange_sprites_grid_nth _ _ _ _ Hc), E. cbn [option_map].
    apply Nat.ltb_ge in Hi. rewrite Hi. reflexivity.
  - intros app fn fns Harr Hfiles.
    unfold load_and_arrange_emojis. rewrite Hfiles. cbn [bind].
    pose proof (load_loop_length (fn :: fns) (num_sprites app) 0
                  (sprites app, texture_cache app, draws app) (Nat.le_0_l _)) as Hlen.
    destruct (load_loop (fn :: fns) (num_sprites app) 0
                (sprites app, texture_cache app, draws app)) as [[sp1 cache1] d1].
    cbn [fst] in Hlen. cbn [num_sprites current_arrangement set_draws
      set_texture_cache set_sprites].
    rewrite Harr. cbn [arrangement_map String.eqb Ascii.eqb Bool.eqb].
    eexists. split; [reflexivity |].
    set (f := fun l0 => arrange_sprites_grid l0 5 (ceil_div (num_sprites app) 5) 1.2 1).
    assert (Hf : forall l', List.length (f l') = List.length l')
      by (intros l'; apply arrange_sprites_grid_length; lia).
    split.
    + intros i Hi. rewrite apply_arrangement_sprites.
      cbn [num_sprites sprites].
      rewrite (nth_error_slice_active f _ _ _ Hf Hi).
      unfold f. rewrite arrange_sprites_grid_nth by lia.
      rewrite nth_error_firstn. apply Nat.ltb_lt in Hi as Hi'. rewrite Hi'.
      cbn [sprites draws set_draws set_texture_cache set_sprites].
      rewrite hide_from_nth.
      destruct (nth_error sp1 i) as [s0 |] eqn:E0.
      2:{ apply nth_error_None in E0. lia. }
      cbn [option_map].
      pose proof (ceil_div_covers (num_sprites app) 5) as Hcov.
      replace (i <? ceil_div (num_sprites app) 5 * 5)%nat with true
        by (symmetry; apply Nat.ltb_lt; lia).
      eexists. split; [reflexivity |].
      match goal with
      | |- context [setup_sprite ?d ?x] =>
          destruct (setup_sprite_transform d x) as (-> & -> & -> & -> & -> & _)
      end.
      cbn. repeat split; reflexivity.
    + intros i s' Hi E.
      rewrite apply_arrangement_sprites in E. cbn [num_sprites sprites] in E.
      rewrite (nth_error_slice_surplus f _ _ _ Hf Hi) in E.
      cbn [sprites draws set_draws set_texture_cache set_sprites] in E.
      rewrite hide_from_nth in E.
      destruct (nth_error sp1 i) as [s0 |]; [| discriminate].
      cbn [option_map] in E. apply Nat.leb_le in Hi. rewrite Hi in E.
      injection E as <-.
      match goal with
      | |- context [setup_sprite ?d ?x] =>
          destruct (setup_sprite_transform d x) as (_ & _ & _ & -> & _)
      end.
      reflexivity.
Qed.

(** ** Sphere layout *)

Lemma arrange_3d_fields (s : Sprite) (pos : Vec3) (sc : R) (target : Vec3) :
  let s' := _arrange_3d_pattern s pos sc target in
  position s' = pos /\ base_position s' = Some pos
  /\ scale s' = uniform sc /\ base_scale_val s' = Some sc
  /\ billboard s' = false /\ visible s' = true.
Proof.
  cbn. repeat split; reflexivity.
Qed.

Lemma sphere_ratio_range (n i : nat) :
  (i < n)%nat -> 0 <= INR i / INR (Nat.max 1 (n - 1)) <= 1.
Proof.
  intros Hi.
  assert (Hm : (i <= Nat.max 1 (n - 1))%nat) by lia.
  assert (H1 : (1 <= Nat.max 1 (n - 1))%nat) by lia.
  apply le_INR in Hm. apply le_INR in H1. cbn [INR] in H1.
  pose proof (pos_INR i) as H0.
  set (m := INR (Nat.max 1 (n - 1))) in *.
  assert (Hinv : 0 < / m) by (apply Rinv_0_lt_compat; lra).
  assert (Hone : m * / m = 1) by (apply Rinv_r; lra).
  unfold Rdiv. split; nra.
Qed.

(** The unit point computed for an active sprite has norm one: the guard
    [max(0, .)] under the square root is never the active bound. *)
Lemma sphere_unit_norm (n i : nat) :
  (i < n)%nat ->
  let u := sphere_unit n i in
  vx u * vx u + vy u * vy u + vz u * vz u = 1.
Proof.
  intros Hi. unfold sphere_unit. cbn [vx vy vz].
  pose proof (sphere_ratio_range n i Hi) as Hq.
  set (q := INR i / INR (Nat.max 1 (n - 1))) in *.
  set (y := 1 - q * 2).
  assert (Hy : 0 <= 1 - y * y) by (unfold y; nra).
  rewrite Rmax_right by exact Hy.
  set (r := sqrt (1 - y * y)).
  assert (Hr : r * r = 1 - y * y) by (apply sqrt_sqrt; exact Hy).
  pose proof (sin2_cos2 (phi * INR i)) as Htrig. unfold Rsqr in Htrig.
  nra.
Qed.

Lemma sphere_pos_length (n : nat) (sphere_r : R) (i : nat) :
  (i < n)%nat -> vec_length (sphere_pos n sphere_r i) = Rabs sphere_r.
Proof.
  intros Hi. unfold vec_length, sphere_pos, vec_scale. cbn [vx vy vz].
  pose proof (sphere_unit_norm n i Hi) as Hu. cbn zeta in Hu.
  set (u := sphere_unit n i) in *.
  replace (vx u * sphere_r * (vx u * sphere_r) + vy u * sphere_r * (vy u * sphere_r)
           + vz u * sphere_r * (vz u * sphere_r))
    with (Rsqr sphere_r) by (unfold Rsqr; nra).
  apply sqrt_Rsqr_abs.
Qed.

Lemma sphere_pos_y (n : nat) (sphere_r : R) (i : nat) :
  (i < n)%nat ->
  vy (sphere_pos n sphere_r i) = (1 - 2 * INR i / INR (n - 1)) * sphere_r.
Proof.
  intros Hi. unfold sphere_pos, sphere_unit, vec_scale. cbn [vx vy vz].
  destruct (Nat.eq_dec n 1) as [-> | Hn].
  - assert (i = 0)%nat by lia. subst i. cbn. unfold Rdiv. ring.
  - replace (Nat.max 1 (n - 1)) with (n - 1)%nat by lia. unfold Rdiv. ring.
Qed.

Lemma sphere_pos_first (n : nat) (sphere_r : R) :
  sphere_pos n sphere_r 0 = mkVec3 0 sphere_r 0.
Proof.
  unfold sphere_pos, sphere_unit, vec_scale. cbn [vx vy vz INR].
  replace (1 - 0 / INR (Nat.max 1 (n - 1)) * 2) with 1 by (unfold Rdiv; ring).
  replace (1 - 1 * 1) with 0 by ring.
  rewrite Rmax_left by lra. rewrite sqrt_0. f_equal; ring.
Qed.

Lemma sphere_pos_last (n : nat) (sphere_r : R) :
  (2 <= n)%nat -> sphere_pos n sphere_r (n - 1) = mkVec3 0 (- sphere_r) 0.
Proof.
  intros Hn. unfold sphere_pos, sphere_unit, vec_scale. cbn [vx vy vz].
  replace (Nat.max 1 (n - 1)) with (n - 1)%nat by lia.
  assert (Hm : INR (n - 1) <> 0) by (apply not_0_INR; lia).
  replace (1 - INR (n - 1) / INR (n - 1) * 2) with (-1) by (field; exact Hm).
  replace (1 - -1 * -1) with 0 by ring.
  rewrite Rmax_left by lra. rewrite sqrt_0. f_equal; ring.
Qed.

Lemma sphere_pos_y_step (n : nat) (sphere_r : R) (i : nat) :
  (2 <= n)%nat ->
  vy (sphere_pos n sphere_r i) - vy (sphere_pos n sphere_r (S i))
  = 2 * sphere_r / INR (n - 1).
Proof.
  intros Hn. unfold sphere_pos, sphere_unit, vec_scale. cbn [vx vy vz].
  replace (Nat.max 1 (n - 1)) with (n - 1)%nat by lia.
  assert (Hm : INR (n - 1) <> 0) by (apply not_0_INR; lia).
  rewrite S_INR. field. exact Hm.
Qed.

Lemma arrange_sprites_sphere_nth (l : list Sprite) (n : nat) (sphere_r sc : R)
    (i : nat) (s : Sprite) :
  (i < n)%nat -> nth_error l i = Some s ->
  nth_error (arrange_sprites_sphere l n sphere_r sc) i =
    Some (_arrange_3d_pattern s (sphere_pos n sphere_r i) sc
            (vec_add (sphere_pos n sphere_r i) (normalized (sphere_unit n i)))).
Proof.
  intros Hi E. unfold arrange_sprites_sphere.
  rewrite nth_error_enumerate_map, E. cbn [option_map].
  apply Nat.ltb_lt in Hi. rewrite Hi. reflexivity.
Qed.

(** C2: for [n >= 1] the sphere arrangement puts every active sprite [i < n]
    at distance [|sphere_r|] from the origin, which is [sphere_r] for a
    radius that is not negative; its height is
    [y_i = (1 - 2*i/(n-1)) * sphere_r], so the heights start at [sphere_r],
    end at [-sphere_r] and are [2*sphere_r/(n-1)] apart when [n >= 2].  With
    [n = 12] and radius [0.6], sprite 0 is at [(0, 0.6, 0)] and sprite 11 at
    [(0, -0.6, 0)].  (Over the reals; rounding is not modelled.) *)
Theorem sphere_layout_on_sphere :
  forall (l : list Sprite) (n : nat) (sphere_r emoji_scale_val : R),
    (1 <= n)%nat ->
    let out := arrange_sprites_sphere l n sphere_r emoji_scale_val in
    (forall i s, (i < n)%nat -> nth_error l i = Some s ->
       exists s',
         nth_error out i = Some s'
         /\ visible s' = true
         /\ base_position s' = Some (position s')
         /\ vec_length (position s') = Rabs sphere_r
         /\ (0 <= sphere_r -> vec_length (position s') = sphere_r)
         /\ vy (position s') = (1 - 2 * INR i / INR (n - 1)) * sphere_r
         /\ (i = 0%nat -> position s' = mkVec3 0 sphere_r 0)
         /\ ((2 <= n)%nat -> i = (n - 1)%nat -> position s' = mkVec3 0 (- sphere_r) 0)
         /\ ((2 <= n)%nat ->
             vy (position s') - vy (sphere_pos n sphere_r (S i))
             = 2 * sphere_r / INR (n - 1)))
    /\ (forall s0 s11, nth_error l 0 = Some s0 -> nth_error l 11 = Some s11 ->
        exists s0' s11',
          nth_error (arrange_sprites_sphere l 12 0.6 emoji_scale_val) 0 = Some s0'
          /\ position s0' = mkVec3 0 0.6 0
          /\ nth_error (arrange_sprites_sphere l 12 0.6 emoji_scale_val) 11 = Some s11'
          /\ position s11' = mkVec3 0 (- 0.6) 0).
Proof.
  intros l n sphere_r sc Hn out. split.
  - intros i s Hi E. eexists. split.
    + unfold out. apply arrange_sprites_sphere_nth; eassumption.
    + destruct (arrange_3d_fields s (sphere_pos n sphere_r i) sc
                  (vec_add (sphere_pos n sphere_r i) (normalized (sphere_unit n i))))
        as (-> & -> & _ & _ & _ & ->).
      split; [reflexivity |]. split; [reflexivity |].
      split; [apply sphere_pos_length; exact Hi |].
      split; [intros H0; rewrite sphere_pos_length by exact Hi;
              apply Rabs_pos_eq; exact H0 |].
      split; [apply sphere_pos_y; exact Hi |].
      split; [intros ->; apply sphere_pos_first |].
      split; [intros H2 ->; apply sphere_pos_last; exact H2 |].
      intros H2. apply sphere_pos_y_step. exact H2.
  - intros s0 s11 E0 E11. do 2 eexists.
    split; [apply arrange_sprites_sphere_nth; [lia | exact E0] |].
    split.
    { destruct (arrange_3d_fields s0 (sphere_pos 12 0.6 0) sc
                  (vec_add (sphere_pos 12 0.6 0) (normalized (sphere_unit 12 0))))
        as (-> & _). apply sphere_pos_first. }
    split; [apply arrange_sprites_sphere_nth; [lia | exact E11] |].
    destruct (arrange_3d_fields s11 (sphere_pos 12 0.6 11) sc
                (vec_add (sphere_pos 12 0.6 11) (normalized (sphere_unit 12 11))))
      as (-> & _). change 11%nat with (12 - 1)%nat.
    rewrite sphere_pos_last by lia. f_equal. lra.
Qed.

(** ** Animation compositor *)

Lemma spin_zero (b : bool) (r : Vec3) : spin b r 0 = r.
Proof.
  destruct r as [x y z], b; unfold spin; cbn; f_equal; lra.
Qed.

Lemma spin_spin (b : bool) (r : Vec3) (d e : R) :
  spin b (spin b r d) e = spin b r (d + e).
Proof.
  destruct b; unfold spin; cbn; f_equal; lra.
Qed.

(** The node layer with the animation off: position and scale are set to
    the base values, nothing else is written. *)
Lemma apply_node_animations_off (app : EmojiApp) (s : Sprite) (i : nat) (t dt : R)
    (bp : Vec3) (v : R) :
  node_animation_enabled app = false \/ node_animation_type app = "none" ->
  base_position s = Some bp -> base_scale_val s = Some v ->
  apply_node_animations app s i t dt = Ok (set_scale (set_position s bp) (uniform v)).
Proof.
  intros Hoff Hbp Hv. unfold apply_node_animations.
  rewrite Hbp. cbn [attr bind base_scale_val set_position]. rewrite Hv. cbn [attr bind].
  destruct Hoff as [-> | ->]; [reflexivity |].
  change (String.eqb "none" "none") with true. rewrite orb_true_r. reflexivity.
Qed.

(** The node layer never fails on a sprite with its base state, keeps the
    attributes, and changes the rotation by an amount that does not depend
    on the rotation. *)
Lemma apply_node_animations_ok (app : EmojiApp) (s : Sprite) (i : nat) (t dt : R)
    (bp : Vec3) (v : R) (bs : Vec3) (ph : R) :
  has_base_state s bp v bs ph ->
  exists s',
    apply_node_animations app s i t dt = Ok s'
    /\ has_base_state s' bp v bs ph
    /\ visible s' = visible s /\ billboard s' = billboard s
    /\ rotation s' = spin (billboard s) (rotation s) (node_rotation_delta app i t dt ph).
Proof using.
  intros (Hbp & Hv & Hbs & Hph).
  unfold apply_node_animations, node_rotation_delta, has_base_state.
  rewrite Hbp. cbn [attr bind base_scale_val set_position]. rewrite Hv. cbn [attr bind].
  destruct (negb (node_animation_enabled app)
            || String.eqb (node_animation_type app) "none").
  { eexists. split; [reflexivity |]. rewrite spin_zero. cbn. finish. }
  cbn [animation_phase_offset set_scale set_position]. rewrite Hph. cbn [attr bind].
  case_eqb.
  { eexists. split; [reflexivity |]. rewrite spin_zero. cbn. finish. }
  case_eqb.
  { unfold scale_z. cbn [billboard set_scale set_position base_scale].
    destruct (billboard s) eqn:B.
    - rewrite Hbs. cbn [attr bind]. eexists. split; [reflexivity |].
      rewrite spin_zero. cbn. rewrite B. finish.
    - eexists. split; [reflexivity |]. rewrite spin_zero. cbn. rewrite B. finish. }
  case_eqb.
  { cbn [billboard set_scale set_position]. destruct (billboard s) eqn:B;
      (eexists; split; [reflexivity |]); cbn; rewrite ?B; unfold spin; finish. }
  eexists. split; [reflexivity |]. rewrite spin_zero. cbn. finish.
Qed.

Lemma idle_zoom_val_factor (app : EmojiApp) (s : Sprite) (t ph : R) :
  animation_phase_offset s = Some ph ->
  idle_zoom_val app s t =
    Ok (1 + idle_zoom_amplitude app
            * idle_zoom_factor (idle_zoom_pattern app)
                (t * idle_zoom_speed_factor app * 1.5 + ph)).
Proof.
  intros Hph. unfold idle_zoom_val, idle_zoom_factor. rewrite Hph. cbn [attr bind].
  repeat case_eqb; f_equal; lra.
Qed.

Lemma idle_rotation_factor_ok (app : EmojiApp) (s : Sprite) (t dt ph : R) :
  animation_phase_offset s = Some ph ->
  idle_rotation_enabled app = true ->
  exists factor,
    idle_rotation_factor app s t = Ok factor
    /\ idle_rotation_speed app * factor * dt = idle_rotation_delta app t dt ph.
Proof.
  intros Hph Hen. unfold idle_rotation_factor, idle_rotation_delta.
  rewrite Hph, Hen. cbn [attr bind].
  repeat case_eqb; eexists; split; reflexivity.
Qed.

(** The idle layer on a sprite with its base state: the rotation moves by
    [idle_rotation_delta], and with the zoom on the scale is rebuilt from
    [base_scale_val]. *)
Lemma apply_idle_animations_ok (app : EmojiApp) (s : Sprite) (t dt : R)
    (bp : Vec3) (v : R) (bs : Vec3) (ph : R) :
  has_base_state s bp v bs ph ->
  exists s',
    apply_idle_animations app s t dt = Ok s'
    /\ has_base_state s' bp v bs ph
    /\ visible s' = visible s /\ billboard s' = billboard s
    /\ position s' = position s
    /\ rotation s' = spin (billboard s) (rotation s) (idle_rotation_delta app t dt ph)
    /\ scale s' =
         if idle_zoom_enabled app then
           let m := 1 + idle_zoom_amplitude app
                        * idle_zoom_factor (idle_zoom_pattern app)
                            (t * idle_zoom_speed_factor app * 1.5 + ph) in
           mkVec3 (v * m) (v * m) (if billboard s then vz bs else v * m)
         else scale s.
Proof using.
  intros (Hbp & Hv & Hbs & Hph). unfold apply_idle_animations.
  assert (Hrot : exists s1,
            (if idle_rotation_enabled app
             then factor <- idle_rotation_factor app s t ;;
                  (if billboard s
                   then Ok (add_world_rotation_z s (idle_rotation_speed app * factor * dt))
                   else Ok (add_rotation_y s (idle_rotation_speed app * factor * dt)))
             else Ok s) = Ok s1
            /\ has_base_state s1 bp v bs ph
            /\ visible s1 = visible s /\ billboard s1 = billboard s
            /\ position s1 = position s /\ scale s1 = scale s
            /\ rotation s1
               = spin (billboard s) (rotation s) (idle_rotation_delta app t dt ph)).
  { destruct (idle_rotation_enabled app) eqn:Hen.
    - destruct (idle_rotation_factor_ok app s t dt ph Hph Hen) as (factor & -> & Hd).
      cbn [bind]. rewrite Hd.
      destruct (billboard s) eqn:B; eexists; (split; [reflexivity |]);
        unfold has_base_state, spin; cbn; rewrite ?B; finish.
    - exists s. split; [reflexivity |].
      unfold idle_rotation_delta. rewrite Hen, spin_zero.
      unfold has_base_state. finish. }
  destruct Hrot as (s1 & -> & (Hbp1 & Hv1 & Hbs1 & Hph1) & Hvis & Hbill & Hpos & Hsc & Hr).
  cbn [bind]. rewrite Hv1.
  destruct (idle_zoom_enabled app).
  - rewrite (idle_zoom_val_factor app s1 t ph Hph1). cbn [bind].
    unfold scale_z. rewrite Hbill.
    destruct (billboard s) eqn:B.
    + rewrite Hbs1. cbn [attr bind]. eexists. split; [reflexivity |].
      unfold has_base_state. cbn. finish.
    + cbn [bind]. eexists. split; [reflexivity |].
      unfold has_base_state. cbn. finish.
  - exists s1. split; [reflexivity |]. unfold has_base_state. finish.
Qed.

(** One frame on a visible sprite: both layers run, the rotation moves by
    the two deltas, and the idle zoom, when on, decides the scale. *)
Lemma update_sprite_ok (app : EmojiApp) (s : Sprite) (i : nat) (t dt : R)
    (bp : Vec3) (v : R) (bs : Vec3) (ph : R) :
  has_base_state s bp v bs ph ->
  visible s = true ->
  exists s',
    update_sprite app t dt i s = Ok s'
    /\ has_base_state s' bp v bs ph
    /\ visible s' = true /\ billboard s' = billboard s
    /\ rotation s' =
         spin (billboard s) (rotation s)
           (node_rotation_delta app i t dt ph + idle_rotation_delta app t dt ph)
    /\ (idle_zoom_enabled app = true ->
        scale s' =
          let m := 1 + idle_zoom_amplitude app
                       * idle_zoom_factor (idle_zoom_pattern app)
                           (t * idle_zoom_speed_factor app * 1.5 + ph) in
          mkVec3 (v * m) (v * m) (if billboard s then vz bs else v * m)).
Proof.
  intros Hb Hvis. unfold update_sprite. rewrite Hvis.
  destruct (apply_node_animations_ok app s i t dt bp v bs ph Hb)
    as (s1 & -> & Hb1 & Hvis1 & Hbill1 & Hrot1).
  cbn [bind].
  destruct (apply_idle_animations_ok app s1 t dt bp v bs ph Hb1)
    as (s2 & -> & Hb2 & Hvis2 & Hbill2 & Hpos2 & Hrot2 & Hsc2).
  exists s2. split; [reflexivity |]. split; [exact Hb2 |].
  split; [congruence |]. split; [congruence |]. split.
  - rewrite Hrot2, Hbill1, Hrot1. apply spin_spin.
  - intros Hz. rewrite Hsc2, Hz, Hbill1. reflexivity.
Qed.


Lemma update_sprites_ok (app : EmojiApp) (t dt : R) (l : list Sprite) :
  well_formed l ->
  forall k,
    exists l',
      update_sprites app t dt k l = Ok l'
      /\ well_formed l'
      /\ forall i s, nth_error l i = Some s ->
           exists s', nth_error l' i = Some s'
                      /\ update_sprite app t dt (k + i) s = Ok s'.
Proof.
  induction l as [| s l IH]; intros Hwf k.
  - exists []. split; [reflexivity |]. split; [exact Hwf |].
    intros [| i] s0 E; discriminate.
  - assert (Hs : exists s1, update_sprite app t dt k s = Ok s1
                 /\ (visible s1 = true ->
                     exists bp v bs ph, has_base_state s1 bp v bs ph)).
    { destruct (visible s) eqn:Hvis.
      - destruct (Hwf s (or_introl eq_refl) Hvis) as (bp & v & bs & ph & Hb).
        destruct (update_sprite_ok app s k t dt bp v bs ph Hb Hvis)
          as (s1 & E1 & Hb1 & _).
        exists s1. split; [exact E1 |]. intros _. exists bp, v, bs, ph. exact Hb1.
      - exists s. unfold update_sprite. rewrite Hvis. split; [reflexivity |].
        intros H. congruence. }
    destruct Hs as (s1 & E1 & Hwf1).
    destruct (IH (fun x Hx => Hwf x (or_intror Hx)) (S k)) as (l' & E' & Hwf' & Hnth).
    exists (s1 :: l'). cbn [update_sprites]. rewrite E1, E'. cbn [bind].
    split; [reflexivity |]. split.
    + intros x [<- | Hx]; [exact Hwf1 | apply Hwf'; exact Hx].
    + intros [| i] s0 E; cbn [nth_error] in *.
      * injection E as <-. exists s1. rewrite Nat.add_0_r. auto.
      * destruct (Hnth i s0 E) as (s' & Es' & Eu). exists s'.
        replace (k + S i)%nat with (S k + i)%nat by lia. auto.
Qed.

(** A frame never fails on a well-formed pool, keeps it well formed, leaves
    the toggles alone and updates each sprite with its own index. *)
Lemma update_ok (app : EmojiApp) (t dt : R) :
  well_formed (sprites app) ->
  exists app',
    update app t dt = Ok app'
    /\ well_formed (sprites app')
    /\ node_animation_enabled app' = node_animation_enabled app
    /\ node_animation_type app' = node_animation_type app
    /\ idle_rotation_enabled app' = idle_rotation_enabled app
    /\ idle_zoom_enabled app' = idle_zoom_enabled app
    /\ forall i s, nth_error (sprites app) i = Some s ->
         exists s', nth_error (sprites app') i = Some s'
                    /\ update_sprite app t dt i s = Ok s'.
Proof.
  intros Hwf. unfold update.
  destruct (update_sprites_ok app t dt (sprites app) Hwf 0) as (l' & -> & Hwf' & Hnth).
  cbn [bind].
  destruct (String.eqb (current_arrangement (set_sprites app l')) "swirl"
            || String.eqb (current_arrangement (set_sprites app l')) "torus"
            || String.eqb (current_arrangement (set_sprites app l')) "sphere");
    eexists; (split; [reflexivity |]); cbn; repeat split; auto.
Qed.


(** C8: with the idle zoom enabled, whatever the node mode, a frame leaves a
    visible sprite with the scale [base_scale_val * (1 + amplitude * factor)]
    on X and Y, built from the base value and not from the scale the node
    layer has just written; on Z a billboard keeps [base_scale.z], any other
    sprite gets the same product.  [factor] is the pattern's value at
    [t * speed_factor * 1.5 + phase]. *)
Theorem idle_zoom_overrides_node_scale :
  forall (app : EmojiApp) (t dt : R),
    idle_zoom_enabled app = true ->
    well_formed (sprites app) ->
    exists app',
      update app t dt = Ok app'
      /\ forall i s bp v bs ph,
           nth_error (sprites app) i = Some s -> visible s = true ->
           has_base_state s bp v bs ph ->
           exists s',
             nth_error (sprites app') i = Some s'
             /\ billboard s' = billboard s
             /\ scale s' =
                  let zoom_multiplier :=
                    1 + idle_zoom_amplitude app
                        * idle_zoom_factor (idle_zoom_pattern app)
                            (t * idle_zoom_speed_factor app * 1.5 + ph) in
                  mkVec3 (v * zoom_multiplier) (v * zoom_multiplier)
                         (if billboard s then vz bs else v * zoom_multiplier).
Proof.
  intros app t dt Hzoom Hwf.
  destruct (update_ok app t dt Hwf) as (app' & E & _ & _ & _ & _ & _ & Hnth).
  exists app'. split; [exact E |].
  intros i s bp v bs ph Es Hvis Hb.
  destruct (Hnth i s Es) as (s' & Es' & Eu).
  destruct (update_sprite_ok app s i t dt bp v bs ph Hb Hvis)
    as (s2 & Eu2 & _ & _ & Hbill & _ & Hsc).
  rewrite Eu2 in Eu. injection Eu as <-.
  exists s2. split; [exact Es' |]. split; [exact Hbill |]. apply Hsc. exact Hzoom.
Qed.

Lemma node_rotation_delta_zero (app : EmojiApp) (i : nat) (t dt ph : R) :
  node_animation_enabled app = false \/ node_animation_type app <> "wave_rotation" ->
  node_rotation_delta app i t dt ph = 0.
Proof.
  intros H. unfold node_rotation_delta.
  destruct (node_animation_enabled app); cbn [negb orb].
  - destruct H as [H | H]; [discriminate |].
    repeat case_eqb; try reflexivity.
    exfalso. apply H. apply String.eqb_eq. assumption.
  - reflexivity.
Qed.

Lemma idle_rotation_delta_zero (app : EmojiApp) (t dt ph : R) :
  idle_rotation_enabled app = false -> idle_rotation_delta app t dt ph = 0.
Proof.
  intros H. unfold idle_rotation_delta. rewrite H. reflexivity.
Qed.

(** A frame without a rotating animation leaves every rotation as it is. *)
Lemma update_keeps_rotation (app : EmojiApp) (t dt : R) :
  node_animation_enabled app = false \/ node_animation_type app <> "wave_rotation" ->
  idle_rotation_enabled app = false ->
  well_formed (sprites app) ->
  exists app',
    update app t dt = Ok app'
    /\ well_formed (sprites app')
    /\ (node_animation_enabled app' = false
        \/ node_animation_type app' <> "wave_rotation")
    /\ idle_rotation_enabled app' = false
    /\ forall i s, nth_error (sprites app) i = Some s ->
         exists s', nth_error (sprites app') i = Some s' /\ rotation s' = rotation s.
Proof.
  intros Hnode Hidle Hwf.
  destruct (update_ok app t dt Hwf) as (app' & E & Hwf' & En & Et & Er & _ & Hnth).
  exists app'. split; [exact E |]. split; [exact Hwf' |].
  split; [rewrite En, Et; exact Hnode |]. split; [congruence |].
  intros i s Es. destruct (Hnth i s Es) as (s' & Es' & Eu).
  exists s'. split; [exact Es' |].
  destruct (visible s) eqn:Hvis.
  - destruct (Hwf s (nth_error_In _ _ Es) Hvis) as (bp & v & bs & ph & Hb).
    destruct (update_sprite_ok app s i t dt bp v bs ph Hb Hvis)
      as (s2 & Eu2 & _ & _ & _ & Hrot & _).
    rewrite Eu2 in Eu. injection Eu as <-.
    rewrite Hrot, node_rotation_delta_zero, idle_rotation_delta_zero by assumption.
    rewrite Rplus_0_r. apply spin_zero.
  - unfold update_sprite in Eu. rewrite Hvis in Eu. injection Eu as <-. reflexivity.
Qed.

Lemma frames_keep_rotation (frames : list (R * R)) :
  forall app : EmojiApp,
    node_animation_enabled app = false \/ node_animation_type app <> "wave_rotation" ->
    idle_rotation_enabled app = false ->
    well_formed (sprites app) ->
    exists app',
      run app (frames_events frames) = Ok app'
      /\ forall i s, nth_error (sprites app) i = Some s ->
           exists s', nth_error (sprites app') i = Some s' /\ rotation s' = rotation s.
Proof.
  induction frames as [| [t dt] frames IH]; intros app Hnode Hidle Hwf.
  - exists app. split; [reflexivity |]. intros i s E. exists s. auto.
  - destruct (update_keeps_rotation app t dt Hnode Hidle Hwf)
      as (app1 & E1 & Hwf1 & Hnode1 & Hidle1 & Hrot1).
    destruct (IH app1 Hnode1 Hidle1 Hwf1) as (app2 & E2 & Hrot2).
    exists app2. split.
    + cbn [frames_events List.map run step fst snd]. rewrite E1. cbn [bind]. exact E2.
    + intros i s Es. destruct (Hrot1 i s Es) as (s1 & Es1 & R1).
      destruct (Hrot2 i s1 Es1) as (s2 & Es2 & R2).
      exists s2. split; [exact Es2 | congruence].
Qed.

(** The node layer starts from the base values: the position and the scale
    the sprite had before the call do not matter. *)
Lemma apply_node_animations_reset (app : EmojiApp) (s : Sprite) (i : nat) (t dt : R)
    (p0 sc0 : Vec3) :
  apply_node_animations app (set_scale (set_position s p0) sc0) i t dt
  = apply_node_animations app s i t dt.
Proof.
  unfold apply_node_animations. cbn [base_position set_scale set_position].
  destruct (base_position s) as [bp |]; [| reflexivity]. cbn [attr bind].
  cbn [base_scale_val set_scale set_position].
  destruct (base_scale_val s) as [v |]; reflexivity.
Qed.

Lemma input_toggle_keeps_sprites (app : EmojiApp) (key : string) :
  key = "r" \/ key = "t" \/ key = "n" ->
  In (node_animation_type app) patterns ->
  exists app', input app key = Ok app' /\ sprites app' = sprites app.
Proof.
  intros [-> | [-> | ->]] Hp.
  - eexists. split; reflexivity.
  - eexists. split; reflexivity.
  - unfold input. cbn [arrangement_of_key arrangement_key String.eqb Ascii.eqb Bool.eqb].
    destruct (next_pattern_total _ Hp) as (idx & -> & _).
    eexists. split; reflexivity.
Qed.

(** Where the node layer leaves a sprite: at the base position, moved by
    the wave only in mode [wave_position]; at the uniform base scale,
    multiplied by the clamped wave only in mode [wave_zoom]. *)
Lemma apply_node_animations_values (app : EmojiApp) (s s1 : Sprite) (i : nat)
    (t dt : R) (bp : Vec3) (v : R) (bs : Vec3) (ph : R) :
  has_base_state s bp v bs ph ->
  apply_node_animations app s i t dt = Ok s1 ->
  let wave :=
    sin (INR i * node_anim_frequency app + t * node_anim_speed app * 2.0 + ph)
    * node_anim_amplitude app in
  position s1 =
    (if node_animation_enabled app
        && String.eqb (node_animation_type app) "wave_position"
     then vec_add bp
            (mkVec3 wave
               (cos (INR i * node_anim_frequency app * 0.7
                     + t * node_anim_speed app * 1.5 + ph) * node_anim_amplitude app)
               0)
     else bp)
  /\ scale s1 =
       (if node_animation_enabled app && String.eqb (node_animation_type app) "wave_zoom"
        then mkVec3 (v * Rmax 0.1 (1.0 + wave * 0.5)) (v * Rmax 0.1 (1.0 + wave * 0.5))
               (if billboard s then vz bs else v * Rmax 0.1 (1.0 + wave * 0.5))
        else uniform v).
Proof.
  intros (Hbp & Hv & Hbs & Hph). unfold apply_node_animations, scale_z.
  rewrite Hbp. cbn [attr bind base_scale_val set_position]. rewrite Hv. cbn [attr bind].
  cbn [animation_phase_offset set_scale set_position billboard base_scale].
  rewrite Hph. cbn [attr bind]. cbv zeta.
  destruct (node_animation_enabled app); cbn [negb orb andb];
    [| intros H; injection H as <-; split; reflexivity].
  destruct (String.eqb_spec (node_animation_type app) "none") as [-> | Hnone];
    [intros H; injection H as <-; split; reflexivity |].
  destruct (String.eqb_spec (node_animation_type app) "wave_position") as [-> | Hpos];
    [intros H; injection H as <-; split; reflexivity |].
  destruct (String.eqb (node_animation_type app) "wave_zoom").
  { destruct (billboard s); [rewrite Hbs; cbn [attr bind] | cbn [bind]];
      intros H; injection H as <-; split; reflexivity. }
  destruct (String.eqb (node_animation_type app) "wave_rotation");
    [destruct (billboard s) |]; intros H; injection H as <-; split; reflexivity.
Qed.

(** C10: in every frame the node layer first sets the position of a visible
    sprite to [base_position] and its scale to the scalar [base_scale_val],
    whatever they were and whether or not the node animation is on: in every
    mode the position it leaves is the base position (plus the wave offset
    in mode [wave_position] only) and the scale is the uniform base scale
    (times the clamped wave in mode [wave_zoom] only), and with the
    animation off that is all the layer does.  The rotation is never set
    back: a frame adds the deltas of wave-rotation and idle rotation to the
    rotation the sprite already has, frames without a rotating animation
    keep it, and so do the keys that switch the animations.  Only a layout
    pass assigns the rotation anew: zero in the grid, the look-at rotation
    plus 90 degrees about X in the other arrangements. *)
Theorem position_scale_reset_rotation_kept :
  forall (app : EmojiApp) (t dt : R),
    well_formed (sprites app) ->
    exists app',
      update app t dt = Ok app'
      /\ (forall i s bp v bs ph,
            nth_error (sprites app) i = Some s -> visible s = true ->
            has_base_state s bp v bs ph ->
            exists s1 s',
              apply_node_animations app s i t dt = Ok s1
              /\ (forall p0 sc0,
                    apply_node_animations app (set_scale (set_position s p0) sc0) i t dt
                    = Ok s1)
              /\ (node_animation_enabled app = false \/ node_animation_type app = "none" ->
                  position s1 = bp /\ scale s1 = uniform v /\ rotation s1 = rotation s)
              /\ position s1 =
                   (if node_animation_enabled app
                       && String.eqb (node_animation_type app) "wave_position"
                    then vec_add bp
                           (mkVec3
                              (sin (INR i * node_anim_frequency app
                                    + t * node_anim_speed app * 2.0 + ph)
                               * node_anim_amplitude app)
                              (cos (INR i * node_anim_frequency app * 0.7
                                    + t * node_anim_speed app * 1.5 + ph)
                               * node_anim_amplitude app)
                              0)
                    else bp)
              /\ scale s1 =
                   (if node_animation_enabled app
                       && String.eqb (node_animation_type app) "wave_zoom"
                    then
                      let c := Rmax 0.1
                                 (1.0 + sin (INR i * node_anim_frequency app
                                             + t * node_anim_speed app * 2.0 + ph)
                                        * node_anim_amplitude app * 0.5) in
                      mkVec3 (v * c) (v * c) (if billboard s then vz bs else v * c)
                    else uniform v)
              /\ rotation s1
                 = spin (billboard s) (rotation s) (node_rotation_delta app i t dt ph)
              /\ nth_error (sprites app') i = Some s'
              /\ rotation s' =
                   spin (billboard s) (rotation s)
                     (node_rotation_delta app i t dt ph + idle_rotation_delta app t dt ph))
      /\ (forall frames,
            node_animation_enabled app = false
            \/ node_animation_type app <> "wave_rotation" ->
            idle_rotation_enabled app = false ->
            exists app'',
              run app (frames_events frames) = Ok app''
              /\ forall i s, nth_error (sprites app) i = Some s ->
                   exists s', nth_error (sprites app'') i = Some s'
                              /\ rotation s' = rotation s)
      /\ (forall key, key = "r" \/ key = "t" \/ key = "n" ->
            In (node_animation_type app) patterns ->
            exists app1, input app key = Ok app1 /\ sprites app1 = sprites app)
      /\ (forall num_cols num_rows cell_size sc c r s,
            rotation (grid_place num_cols num_rows cell_size sc c r s) = vec_zero)
      /\ (forall s pos sc target,
            exists e,
              position e = pos
              /\ rotation (_arrange_3d_pattern s pos sc target)
                 = mkVec3 (vx (look_at e target) + 90) (vy (look_at e target))
                          (vz (look_at e target))).
Proof.
  intros app t dt Hwf.
  destruct (update_ok app t dt Hwf) as (app' & E & _ & _ & _ & _ & _ & Hnth).
  exists app'. split; [exact E |].
  split; [| split; [| split; [| split]]].
  - intros i s bp v bs ph Es Hvis Hb.
    destruct (apply_node_animations_ok app s i t dt bp v bs ph Hb)
      as (s1 & E1 & _ & _ & _ & Hrot1).
    destruct (Hnth i s Es) as (s' & Es' & Eu).
    destruct (update_sprite_ok app s i t dt bp v bs ph Hb Hvis)
      as (s2 & Eu2 & _ & _ & _ & Hrot & _).
    rewrite Eu2 in Eu. injection Eu as <-.
    pose proof (apply_node_animations_values app s s1 i t dt bp v bs ph Hb E1) as Hval.
    cbv zeta in Hval. destruct Hval as (Hpos & Hsc).
    exists s1, s2. split; [exact E1 |].
    split; [intros p0 sc0; rewrite apply_node_animations_reset; exact E1 |].
    split; [| split; [exact Hpos |]; split; [exact Hsc |];
              split; [exact Hrot1 |]; split; [exact Es' | exact Hrot]].
    intros Hoff. destruct Hb as (Hbp & Hv & _).
    rewrite (apply_node_animations_off app s i t dt bp v Hoff Hbp Hv) in E1.
    injection E1 as <-. cbn. repeat split; reflexivity.
  - intros frames Hnode Hidle. apply frames_keep_rotation; assumption.
  - intros key Hkey Hp. apply input_toggle_keeps_sprites; assumption.
  - reflexivity.
  - intros s pos sc target. eexists. split; [| reflexivity]. reflexivity.
Qed.

(** ** Arrangements as functions of the index *)

Lemma arrange_3d_placed (s : Sprite) (pos : Vec3) (sc : R) (tg : Vec3) :
  placed_as (_arrange_3d_pattern s pos sc tg) pos sc (Some tg).
Proof.
  unfold placed_as. cbn. repeat split; try reflexivity.
  eexists. split; [| reflexivity]. reflexivity.
Qed.

Lemma enumerate_3d_active (n : nat) (pos : nat -> Vec3) (sc : R) (tg : nat -> Vec3)
    (l : list Sprite) (i : nat) (s : Sprite) :
  (i < n)%nat -> nth_error l i = Some s ->
  exists r,
    nth_error
      (enumerate_map (fun j sprite =>
         if (j <? n)%nat then _arrange_3d_pattern sprite (pos j) sc (tg j)
         else set_visible sprite false) l) i = Some r
    /\ placed_as r (pos i) sc (Some (tg i)).
Proof.
  intros Hi E. rewrite nth_error_enumerate_map, E. cbn [option_map].
  apply Nat.ltb_lt in Hi. rewrite Hi.
  eexists. split; [reflexivity | apply arrange_3d_placed].
Qed.

(** Each of the four arrangements keeps the length of the list, and what it
    gives an active sprite is fixed by the index and the parameters alone. *)
Lemma arrangement_map_active (n : nat) (arrangement_name : string)
    (f : list Sprite -> list Sprite) :
  arrangement_map n arrangement_name = Some f ->
  (forall l, List.length (f l) = List.length l)
  /\ forall i, (i < n)%nat ->
       exists pos sc target,
         forall l s, nth_error l i = Some s ->
           exists r, nth_error (f l) i = Some r /\ placed_as r pos sc target.
Proof.
  unfold arrangement_map.
  destruct (String.eqb arrangement_name "grid").
  { intros H.
    assert (Hf : f = fun l => arrange_sprites_grid l 5 (ceil_div n 5) 1.2 1)
      by congruence.
    subst f. clear H. cbn beta.
    split; [intros l; apply arrange_sprites_grid_length; lia |].
    intros i Hi.
    exists (mkVec3 (cell_coord (i mod 5) 5 1.2)
                   (cell_coord (i / 5) (ceil_div n 5) 1.2) 0), 1, None.
    intros l s E. rewrite arrange_sprites_grid_nth by lia. rewrite E. cbn [option_map].
    pose proof (ceil_div_covers n 5) as Hcov.
    replace (i <? ceil_div n 5 * 5)%nat with true by (symmetry; apply Nat.ltb_lt; lia).
    eexists. split; [reflexivity |]. unfold placed_as. cbn. repeat split; reflexivity. }
  destruct (String.eqb arrangement_name "swirl").
  { intros H. injection H as <-.
    split; [intros l; apply enumerate_map_length |].
    intros i Hi. do 3 eexists. intros l s E. unfold arrange_sprites_swirl.
    apply (enumerate_3d_active n
             (fun j => swirl_pos n 3 3 5 j) 0.7
             (fun j => vec_add (swirl_pos n 3 3 5 j)
                         (normalized (mkVec3 (vx (swirl_pos n 3 3 5 j)) 0
                                             (vz (swirl_pos n 3 3 5 j)))))
             l i s); assumption. }
  destruct (String.eqb arrangement_name "torus").
  { intros H. injection H as <-.
    split; [intros l; apply enumerate_map_length |].
    intros i Hi. do 3 eexists. intros l s E. unfold arrange_sprites_torus.
    apply (enumerate_3d_active n
             (fun j => torus_pos n 3 1 j) 0.5
             (fun j => vec_add (torus_pos n 3 1 j)
                         (normalized (mkVec3 (cos (torus_u n j) * cos (torus_v n j))
                                             (sin (torus_v n j))
                                             (sin (torus_u n j) * cos (torus_v n j)))))
             l i s); assumption. }
  destruct (String.eqb arrangement_name "sphere"); [| discriminate].
  intros H. injection H as <-.
  split; [intros l; apply enumerate_map_length |].
  intros i Hi. do 3 eexists. intros l s E. unfold arrange_sprites_sphere.
  apply (enumerate_3d_active n
           (fun j => sphere_pos n 3 j) 0.6
           (fun j => vec_add (sphere_pos n 3 j) (normalized (sphere_unit n j)))
           l i s); assumption.
Qed.




(** What each arrangement gives an active sprite, by name: the entries of
    the table read off as functions of the index. *)
Lemma arrangement_map_layout (n : nat) (arrangement_name : string)
    (f : list Sprite -> list Sprite) (l : list Sprite) (i : nat) (s : Sprite) :
  arrangement_map n arrangement_name = Some f ->
  (i < n)%nat -> nth_error l i = Some s ->
  exists r,
    nth_error (f l) i = Some r
    /\ placed_as r (layout_position n arrangement_name i) (layout_scale arrangement_name)
         (layout_target n arrangement_name i).
Proof.
  unfold arrangement_map, layout_position, layout_scale, layout_target. intros H Hi E.
  destruct (String.eqb arrangement_name "grid").
  { assert (Hf : f = fun l => arrange_sprites_grid l 5 (ceil_div n 5) 1.2 1)
      by congruence.
    subst f. clear H. cbn beta.
    rewrite arrange_sprites_grid_nth by lia. rewrite E. cbn [option_map].
    pose proof (ceil_div_covers n 5) as Hcov.
    replace (i <? ceil_div n 5 * 5)%nat with true by (symmetry; apply Nat.ltb_lt; lia).
    eexists. split; [reflexivity |]. unfold placed_as. cbn. repeat split; reflexivity. }
  destruct (String.eqb arrangement_name "swirl").
  { injection H as <-. unfold arrange_sprites_swirl.
    apply (enumerate_3d_active n
             (fun j => swirl_pos n 3 3 5 j) 0.7
             (fun j => vec_add (swirl_pos n 3 3 5 j)
                         (normalized (mkVec3 (vx (swirl_pos n 3 3 5 j)) 0
                                             (vz (swirl_pos n 3 3 5 j)))))
             l i s); assumption. }
  destruct (String.eqb arrangement_name "torus").
  { injection H as <-. unfold arrange_sprites_torus.
    apply (enumerate_3d_active n
             (fun j => torus_pos n 3 1 j) 0.5
             (fun j => vec_add (torus_pos n 3 1 j)
                         (normalized (mkVec3 (cos (torus_u n j) * cos (torus_v n j))
                                             (sin (torus_v n j))
                                             (sin (torus_u n j) * cos (torus_v n j)))))
             l i s); assumption. }
  destruct (String.eqb arrangement_name "sphere"); [| discriminate].
  injection H as <-. unfold arrange_sprites_sphere.
  apply (enumerate_3d_active n
           (fun j => sphere_pos n 3 j) 0.6
           (fun j => vec_add (sphere_pos n 3 j) (normalized (sphere_unit n j)))
           l i s); assumption.
Qed.




(** ** Missing assets *)

Lemma load_emoji_texture_missing (cache : list (string * string))
    (filename folder : string) :
  cache_consistent cache ->
  path_exists (texture_path folder filename) = false ->
  load_emoji_texture cache filename folder = (None, cache).
Proof.
  intros Hc Hmiss. unfold load_emoji_texture.
  destruct (cache_lookup cache (texture_path folder filename)) as [v |] eqn:E.
  - apply Hc in E. congruence.
  - rewrite Hmiss. reflexivity.
Qed.

Lemma load_emoji_texture_consistent (cache : list (string * string))
    (filename folder : string) :
  cache_consistent cache ->
  cache_consistent (snd (load_emoji_texture cache filename folder)).
Proof.
  intros Hc. unfold load_emoji_texture.
  destruct (cache_lookup cache (texture_path folder filename)) as [v |] eqn:E;
    [exact Hc |].
  destruct (path_exists (texture_path folder filename)) eqn:Hex; [| exact Hc].
  intros k v. cbn [snd cache_lookup].
  destruct (String.eqb_spec (texture_path folder filename) k) as [<- | Hne].
  - intros _. exact Hex.
  - apply Hc.
Qed.

Lemma load_one_loaded (filenames : list string) (i : nat)
    (st : list Sprite * list (string * string) * nat) :
  loaded filenames i st -> loaded filenames (S i) (load_one filenames i st).
Proof.
  destruct st as [[sp cache] d]. intros (Hlen & Hc & Hmiss). cbn [fst snd] in *.
  unfold load_one.
  pose proof (load_emoji_texture_consistent cache
                (nth (i mod List.length filenames) filenames EmptyString)
                DEFAULT_RESOLUTION_FOLDER Hc) as Hc'.
  pose proof (load_emoji_texture_missing cache
                (nth (i mod List.length filenames) filenames EmptyString)
                DEFAULT_RESOLUTION_FOLDER Hc) as Hnone.
  destruct (load_emoji_texture cache
              (nth (i mod List.length filenames) filenames EmptyString)
              DEFAULT_RESOLUTION_FOLDER) as [tex cache'].
  cbn [snd] in Hc'.
  replace (i <? List.length sp)%nat with false by (symmetry; apply Nat.ltb_ge; lia).
  destruct (create_emoji_sprite tex d) as [s0 d'] eqn:Ecreate.
  unfold loaded. cbn [fst snd].
  split; [rewrite length_app; cbn; lia |]. split; [exact Hc' |].
  intros j s Ej Hj.
  destruct (Nat.lt_ge_cases j (List.length sp)) as [Hlt | Hge].
  - rewrite nth_error_app1 in Ej by exact Hlt. eapply Hmiss; eassumption.
  - rewrite nth_error_app2 in Ej by exact Hge.
    destruct (j - List.length sp)%nat as [| m] eqn:Em.
    + assert (j = i) by lia. subst j. cbn in Ej. injection Ej as <-.
      specialize (Hnone Hj). injection Hnone as -> _.
      cbn in Ecreate. injection Ecreate as <- _. reflexivity.
    + cbn in Ej. destruct m; discriminate.
Qed.

Lemma load_loop_loaded (filenames : list string) (count : nat) :
  forall i st, loaded filenames i st ->
    loaded filenames (i + count) (load_loop filenames count i st).
Proof.
  induction count as [| k IH]; intros i st H; cbn [load_loop].
  - rewrite Nat.add_0_r. exact H.
  - replace (i + S k)%nat with (S i + k)%nat by lia.
    apply IH. apply load_one_loaded. exact H.
Qed.

(** An arrangement keeps the colour and the texture of the sprites it places
    and makes them visible. *)
Lemma arrangement_map_keeps_look (n : nat) (arrangement_name : string)
    (f : list Sprite -> list Sprite) (l : list Sprite) (i : nat) (s : Sprite) :
  arrangement_map n arrangement_name = Some f ->
  (i < n)%nat -> nth_error l i = Some s ->
  exists r, nth_error (f l) i = Some r
            /\ color r = color s /\ texture r = texture s /\ visible r = true.
Proof.
  unfold arrangement_map. intros H Hi E.
  assert (H3d : forall pos sc tg,
            exists r,
              nth_error
                (enumerate_map (fun j sprite =>
                   if (j <? n)%nat then _arrange_3d_pattern sprite (pos j) sc (tg j)
                   else set_visible sprite false) l) i = Some r
              /\ color r = color s /\ texture r = texture s /\ visible r = true).
  { intros pos sc tg. rewrite nth_error_enumerate_map, E. cbn [option_map].
    apply Nat.ltb_lt in Hi. rewrite Hi. eexists. split; [reflexivity |].
    cbn. repeat split; reflexivity. }
  destruct (String.eqb arrangement_name "grid").
  { assert (Hf : f = fun l => arrange_sprites_grid l 5 (ceil_div n 5) 1.2 1)
      by congruence.
    subst f. clear H. cbn beta.
    rewrite arrange_sprites_grid_nth by lia. rewrite E. cbn [option_map].
    pose proof (ceil_div_covers n 5) as Hcov.
    replace (i <? ceil_div n 5 * 5)%nat with true by (symmetry; apply Nat.ltb_lt; lia).
    eexists. split; [reflexivity |]. cbn. repeat split; reflexivity. }
  destruct (String.eqb arrangement_name "swirl").
  { injection H as <-. unfold arrange_sprites_swirl.
    apply (H3d (fun j => swirl_pos n 3 3 5 j) 0.7
             (fun j => vec_add (swirl_pos n 3 3 5 j)
                         (normalized (mkVec3 (vx (swirl_pos n 3 3 5 j)) 0
                                             (vz (swirl_pos n 3 3 5 j)))))). }
  destruct (String.eqb arrangement_name "torus").
  { injection H as <-. unfold arrange_sprites_torus.
    apply (H3d (fun j => torus_pos n 3 1 j) 0.5
             (fun j => vec_add (torus_pos n 3 1 j)
                         (normalized (mkVec3 (cos (torus_u n j) * cos (torus_v n j))
                                             (sin (torus_v n j))
                                             (sin (torus_u n j) * cos (torus_v n j)))))). }
  destruct (String.eqb arrangement_name "sphere"); [| discriminate].
  injection H as <-. unfold arrange_sprites_sphere.
  apply (H3d (fun j => sphere_pos n 3 j) 0.6
           (fun j => vec_add (sphere_pos n 3 j) (normalized (sphere_unit n j)))).
Qed.

(** Loading into an empty pool: the call returns, and a sprite whose texture
    file is missing is red, has no texture and is visible. *)
Lemma load_and_arrange_missing (app : EmojiApp) (fn : string) (fns : list string) :
  sprites app = [] ->
  cache_consistent (texture_cache app) ->
  get_emoji_filenames_for_set_and_group DEFAULT_EMOJI_SET DEFAULT_EMOJI_GROUP
  = Ok (fn :: fns) ->
  exists app',
    load_and_arrange_emojis app = Ok app'
    /\ forall i, (i < num_sprites app)%nat ->
         path_exists (texture_file (fn :: fns) i) = false ->
         exists s, nth_error (sprites app') i = Some s
                   /\ color s = red /\ texture s = None /\ visible s = true.
Proof.
  intros Hempty Hc Hfiles. unfold load_and_arrange_emojis.
  rewrite Hfiles. cbn [bind]. rewrite Hempty.
  assert (H0 : loaded (fn :: fns) 0 ([], texture_cache app, draws app)).
  { unfold loaded. cbn [fst snd]. split; [reflexivity |]. split; [exact Hc |].
    intros [| j] s E; discriminate. }
  pose proof (load_loop_loaded (fn :: fns) (num_sprites app) 0 _ H0) as Hl.
  destruct (load_loop (fn :: fns) (num_sprites app) 0 ([], texture_cache app, draws app))
    as [[sp1 cache1] d1].
  destruct Hl as (Hlen & _ & Hmiss). cbn [fst snd] in Hlen, Hmiss.
  cbn [num_sprites current_arrangement set_draws set_texture_cache set_sprites].
  assert (Hhid : forall i, (i < num_sprites app)%nat ->
            path_exists (texture_file (fn :: fns) i) = false ->
            nth_error (hide_from (num_sprites app) sp1) i = Some fallback_entity).
  { intros i Hi Hp. rewrite hide_from_nth.
    destruct (nth_error sp1 i) as [s0 |] eqn:E0.
    - rewrite (Hmiss i s0 E0 Hp). cbn [option_map].
      replace (num_sprites app <=? i)%nat with false
        by (symmetry; apply Nat.leb_gt; exact Hi).
      reflexivity.
    - apply nth_error_None in E0. lia. }
  destruct (arrangement_map (num_sprites app) (current_arrangement app))
    as [f |] eqn:Hf.
  - eexists. split; [reflexivity |]. intros i Hi Hp.
    destruct (arrangement_map_active _ _ _ Hf) as (Hflen & _).
    rewrite apply_arrangement_sprites.
    cbn [num_sprites sprites draws set_draws set_texture_cache set_sprites].
    rewrite (nth_error_slice_active f _ _ _ Hflen Hi).
    assert (Hfirst : nth_error (firstn (num_sprites app)
                                  (hide_from (num_sprites app) sp1)) i
                     = Some fallback_entity).
    { rewrite nth_error_firstn. apply Nat.ltb_lt in Hi as Hi'. rewrite Hi'.
      apply Hhid; assumption. }
    destruct (arrangement_map_keeps_look _ _ f _ i _ Hf Hi Hfirst)
      as (r & -> & Hcol & Htex & Hvis).
    cbn [option_map]. eexists. split; [reflexivity |].
    match goal with
    | |- context [setup_sprite ?d r] =>
        destruct (setup_sprite_transform d r) as (_ & _ & _ & -> & _ & -> & ->)
    end.
    rewrite Hcol, Htex, Hvis. repeat split; reflexivity.
  - eexists. split; [reflexivity |]. intros i Hi Hp.
    cbn [sprites set_draws set_texture_cache set_sprites].
    exists fallback_entity. split; [apply Hhid; assumption |].
    repeat split; reflexivity.
Qed.

(** C7: a set file that is absent or is not valid JSON gives an empty list
    of file names, and start-up then returns with a single red placeholder
    sprite; a texture file that is missing makes the texture loader return
    [None], and start-up still returns, the sprite in question being red and
    without a texture.  None of these cases raises. *)
Theorem asset_errors_degrade_gracefully :
  (forall set_filename group_name,
      read_set_file (EMOJI_SET_BASE_PATH ++ set_filename)%string = Raise FileNotFoundError
      \/ read_set_file (EMOJI_SET_BASE_PATH ++ set_filename)%string = Raise JSONDecodeError ->
      get_emoji_filenames_for_set_and_group set_filename group_name = Ok [])
  /\ (read_set_file (EMOJI_SET_BASE_PATH ++ DEFAULT_EMOJI_SET)%string
      = Raise FileNotFoundError
      \/ read_set_file (EMOJI_SET_BASE_PATH ++ DEFAULT_EMOJI_SET)%string
         = Raise JSONDecodeError ->
      exists app s,
        __init__ = Ok app
        /\ sprites app = [s]
        /\ name s = "fallback_sprite" /\ color s = red /\ texture s = None
        /\ visible s = true)
  /\ (forall cache filename folder,
        cache_consistent cache ->
        path_exists (texture_path folder filename) = false ->
        load_emoji_texture cache filename folder = (None, cache))
  /\ (forall fn fns,
        get_emoji_filenames_for_set_and_group DEFAULT_EMOJI_SET DEFAULT_EMOJI_GROUP
        = Ok (fn :: fns) ->
        exists app,
          __init__ = Ok app
          /\ forall i, (i < 30)%nat ->
               path_exists (texture_file (fn :: fns) i) = false ->
               exists s, nth_error (sprites app) i = Some s
                         /\ color s = red /\ texture s = None /\ visible s = true).
Proof.
  assert (Hlookup : forall set_filename group_name,
            read_set_file (EMOJI_SET_BASE_PATH ++ set_filename)%string
            = Raise FileNotFoundError
            \/ read_set_file (EMOJI_SET_BASE_PATH ++ set_filename)%string
               = Raise JSONDecodeError ->
            get_emoji_filenames_for_set_and_group set_filename group_name = Ok []).
  { intros set_filename group_name H. unfold get_emoji_filenames_for_set_and_group.
    destruct H as [-> | ->]; reflexivity. }
  split; [exact Hlookup |]. split; [| split].
  - intros H. unfold __init__, load_and_arrange_emojis.
    rewrite (Hlookup DEFAULT_EMOJI_SET DEFAULT_EMOJI_GROUP H).
    cbn [bind initial_app sprites]. unfold setup_sprite_initial_states.
    do 2 eexists. split; [reflexivity |]. cbn. repeat split; reflexivity.
  - intros cache filename folder. apply load_emoji_texture_missing.
  - intros fn fns Hfiles. unfold __init__.
    assert (Hc : cache_consistent (texture_cache initial_app))
      by (intros k v E; discriminate).
    destruct (load_and_arrange_missing initial_app fn fns eq_refl Hc Hfiles)
      as (app1 & -> & Hmiss).
    cbn [bind]. unfold setup_sprite_initial_states.
    eexists. split; [reflexivity |]. intros i Hi Hp.
    destruct (Hmiss i Hi Hp) as (s & Es & Hcol & Htex & Hvis).
    cbn [sprites set_draws set_sprites]. rewrite nth_error_enumerate_map, Es.
    cbn [option_map]. eexists. split; [reflexivity |].
    match goal with
    | |- context [setup_sprite ?d s] =>
        destruct (setup_sprite_transform d s) as (_ & _ & _ & -> & _ & -> & ->)
    end.
    auto.
Qed.

(** ** File names *)

Lemma hex_digit_plain (d : N) :
  Ascii.eqb (hex_digit d) "U" = false /\ lower_ascii (hex_digit d) = hex_digit d.
Proof.
  destruct d as [| p]; [split; reflexivity |].
  do 4 (try destruct p as [p | p |]); split; reflexivity.
Qed.

Lemma hex_digit_value_digit (d : N) :
  (d < 16)%N -> hex_digit_value (hex_digit d) = Some d.
Proof.
  intros H. destruct d as [| p]; [reflexivity |].
  do 4 (try destruct p as [p | p |]); try reflexivity; exfalso; lia.
Qed.

Lemma hex_string_app (s1 s2 : string) :
  hex_string s1 -> hex_string s2 -> hex_string (s1 ++ s2).
Proof.
  induction s1 as [| a s1 IH]; cbn; [auto |]. intros [Ha H1] H2. auto.
Qed.

Lemma hex_fixed_hex_string (w : nat) : forall n, hex_string (hex_fixed w n).
Proof.
  induction w as [| w IH]; intros n; cbn [hex_fixed]; [exact I |].
  apply hex_string_app; [apply IH |]. cbn. split; [eauto | exact I].
Qed.

Lemma split_U_last_hex (s : string) :
  hex_string s ->
  forall cur, split_U_last cur s
              = (string_of_list_ascii (List.rev cur) ++ s)%string.
Proof.
  induction s as [| a s IH]; intros Hs cur; cbn [split_U_last].
  - clear Hs. induction (List.rev cur) as [| b l IHl]; cbn; [reflexivity |].
    f_equal. exact IHl.
  - destruct Hs as [[d ->] Hs]. destruct (hex_digit_plain d) as [-> _].
    rewrite (IH Hs). cbn [List.rev].
    clear. induction (List.rev cur) as [| b l IHl]; cbn; [reflexivity |].
    f_equal. exact IHl.
Qed.

Lemma lstrip_zero_hex_string (s : string) : hex_string s -> hex_string (lstrip_zero s).
Proof.
  induction s as [| a s IH]; cbn; [auto |]. intros [Ha Hs].
  destruct (Ascii.eqb a "0"); [auto | cbn; auto].
Qed.

Lemma lower_hex_string (s : string) : hex_string s -> lower s = s.
Proof.
  induction s as [| a s IH]; cbn; [auto |]. intros [[d ->] Hs].
  destruct (hex_digit_plain d) as [_ ->]. rewrite (IH Hs). reflexivity.
Qed.

Lemma hex_value_from_app (s1 s2 : string) :
  forall acc,
    hex_value_from acc (s1 ++ s2) =
      match hex_value_from acc s1 with
      | Some v => hex_value_from v s2
      | None => None
      end.
Proof.
  induction s1 as [| a s1 IH]; intros acc; cbn; [reflexivity |].
  destruct (hex_digit_value a); [apply IH | reflexivity].
Qed.

Lemma hex_value_from_fixed (w : nat) :
  forall n acc,
    hex_value_from acc (hex_fixed w n)
    = Some (acc * 16 ^ N.of_nat w + n mod 16 ^ N.of_nat w)%N.
Proof.
  induction w as [| w IH]; intros n acc; cbn [hex_fixed].
  - cbn. f_equal. rewrite N.mod_1_r. lia.
  - rewrite hex_value_from_app, IH. cbn [hex_value_from].
    rewrite hex_digit_value_digit by (apply N.mod_upper_bound; lia).
    f_equal. rewrite Nat2N.inj_succ, N.pow_succ_r'.
    rewrite (N.Div0.mod_mul_r n 16 (16 ^ N.of_nat w)). lia.
Qed.

Lemma hex_value_from_lstrip_zero (s : string) :
  hex_value_from 0 (lstrip_zero s) = hex_value_from 0 s.
Proof.
  induction s as [| a s IH]; cbn [lstrip_zero]; [reflexivity |].
  destruct (Ascii.eqb_spec a "0") as [-> | Hne]; [| reflexivity].
  rewrite IH. reflexivity.
Qed.

(** A code point outside the Basic Multilingual Plane is escaped as
    [\U] and eight digits, so the piece is its hexadecimal writing: lower
    case, no leading zero, and reading it back gives the code point. *)
Lemma codepoint_piece_astral (c : N) :
  (65536 <= c < 1114112)%N ->
  codepoint_piece [c] = lstrip_zero (hex_fixed 8 c)
  /\ hex_string (codepoint_piece [c])
  /\ hex_value (codepoint_piece [c]) = Some c.
Proof.
  intros Hc.
  assert (E : codepoint_piece [c] = lstrip_zero (hex_fixed 8 c)).
  { unfold codepoint_piece, unicode_escape. cbn [List.map String.concat].
    unfold unicode_escape_char.
    replace (c <? 256)%N with false by (symmetry; apply N.ltb_ge; lia).
    replace (c <? 65536)%N with false by (symmetry; apply N.ltb_ge; lia).
    cbn [split_U_last].
    change (Ascii.eqb backslash "U") with false.
    change (Ascii.eqb "U" "U") with true. cbn iota.
    rewrite (split_U_last_hex _ (hex_fixed_hex_string 8 c)). cbn [List.rev].
    cbn [string_of_list_ascii String.append].
    apply lower_hex_string, lstrip_zero_hex_string, hex_fixed_hex_string. }
  split; [exact E |]. rewrite E.
  split; [apply lstrip_zero_hex_string, hex_fixed_hex_string |].
  assert (V : hex_value_from 0 (lstrip_zero (hex_fixed 8 c)) = Some c).
  { rewrite hex_value_from_lstrip_zero, hex_value_from_fixed.
    f_equal. rewrite N.mod_small; [lia |]. cbn. lia. }
  unfold hex_value. destruct (lstrip_zero (hex_fixed 8 c)) eqn:El; [| exact V].
  cbn in V. injection V as V. lia.
Qed.

(** A code point of the Basic Multilingual Plane beyond Latin-1 is escaped
    as [\u] and four digits; no upper-case [U] occurs, so the escape
    prefix stays in the piece, which therefore is not a hexadecimal
    number. *)
Lemma codepoint_piece_bmp (c : N) :
  (256 <= c < 65536)%N ->
  codepoint_piece [c] = String backslash (String "u" (hex_fixed 4 c))
  /\ hex_value (codepoint_piece [c]) = None.
Proof.
  intros Hc.
  assert (E : codepoint_piece [c] = String backslash (String "u" (hex_fixed 4 c))).
  { unfold codepoint_piece, unicode_escape. cbn [List.map String.concat].
    unfold unicode_escape_char.
    replace (c <? 256)%N with false by (symmetry; apply N.ltb_ge; lia).
    replace (c <? 65536)%N with true by (symmetry; apply N.ltb_lt; lia).
    cbn [split_U_last].
    change (Ascii.eqb backslash "U") with false.
    change (Ascii.eqb "u" "U") with false. cbn iota.
    rewrite (split_U_last_hex _ (hex_fixed_hex_string 4 c)).
    cbn [List.rev List.app string_of_list_ascii String.append lstrip_zero].
    change (Ascii.eqb backslash "0") with false. cbn iota.
    cbn [lower]. change (lower_ascii backslash) with backslash.
    change (lower_ascii "u") with "u"%char.
    rewrite (lower_hex_string _ (hex_fixed_hex_string 4 c)). reflexivity. }
  split; [exact E |]. rewrite E. reflexivity.
Qed.

(** C6 (the code at a heart, U+2764, and at a grinning face, U+1F600): the
    file name derived for U+1F600 is [emoji_u1f600.png], but the one
    derived for U+2764 is [emoji_u\u2764.png], with the escape prefix
    [\u] left in front of the digits. *)
Theorem bmp_filename_keeps_escape_prefix :
  filenames_of_data (JList [JStr [10084%N]; JStr [128512%N]])
    (ustr_of_string DEFAULT_EMOJI_GROUP)
  = Ok ["emoji_u\u2764.png"; "emoji_u1f600.png"]
  /\ hex_value (codepoint_piece [10084%N]) = None
  /\ hex_value (codepoint_piece [128512%N]) = Some 128512%N.
Proof.
  repeat split; reflexivity.
Qed.

(** * Further properties of the code *)

(** ** Swirl, torus and sphere *)

Lemma enumerate_3d_nth (n : nat) (pos : nat -> Vec3) (sc : R) (tg : nat -> Vec3)
    (l : list Sprite) (i : nat) (s : Sprite) :
  nth_error l i = Some s ->
  nth_error
    (enumerate_map (fun j sprite =>
       if (j <? n)%nat then _arrange_3d_pattern sprite (pos j) sc (tg j)
       else set_visible sprite false) l) i
  = Some (if (i <? n)%nat then _arrange_3d_pattern s (pos i) sc (tg i)
          else set_visible s false).
Proof.
  intros E. rewrite nth_error_enumerate_map, E. reflexivity.
Qed.

Lemma normalized_unit (a : Vec3) :
  vx a * vx a + vy a * vy a + vz a * vz a = 1 -> normalized a = a.
Proof.
  intros H. unfold normalized, vec_length. rewrite H, sqrt_1.
  destruct (Req_dec_T 1 0) as [H0 | _]; [lra |].
  destruct a as [x y z]. unfold vec_scale. cbn. f_equal; field.
Qed.

(** X1: the swirl puts every active sprite on the cylinder of the given
    radius around the Y axis, at a height that runs linearly from
    [-height_factor/2] (first sprite) to [height_factor/2] (last sprite) and
    never leaves that band; the sprite is visible and not a billboard. *)
Theorem swirl_layout_on_cylinder :
  forall (l : list Sprite) (n : nat) (turns radius height_factor emoji_scale_val : R)
         (i : nat) (s : Sprite),
    (i < n)%nat -> nth_error l i = Some s ->
    exists s',
      nth_error (arrange_sprites_swirl l n turns radius height_factor emoji_scale_val) i
      = Some s'
      /\ visible s' = true /\ billboard s' = false
      /\ base_position s' = Some (position s')
      /\ vx (position s') * vx (position s') + vz (position s') * vz (position s')
         = radius * radius
      /\ Rabs (vy (position s')) <= Rabs height_factor / 2
      /\ (i = 0%nat -> vy (position s') = - height_factor / 2)
      /\ ((2 <= n)%nat -> i = (n - 1)%nat -> vy (position s') = height_factor / 2).
Proof.
  intros l n turns radius h sc i s Hi E. unfold arrange_sprites_swirl.
  rewrite (enumerate_3d_nth n (fun j => swirl_pos n turns radius h j) sc
             (fun j => vec_add (swirl_pos n turns radius h j)
                         (normalized (mkVec3 (vx (swirl_pos n turns radius h j)) 0
                                             (vz (swirl_pos n turns radius h j)))))
             l i s E).
  apply Nat.ltb_lt in Hi as Hi'. rewrite Hi'.
  eexists. split; [reflexivity |].
  cbn [visible billboard base_position position _arrange_3d_pattern set_visible
       add_rotation_x set_rotation set_billboard set_position set_base_position
       set_scale set_base_scale_val].
  split; [reflexivity |]. split; [reflexivity |]. split; [reflexivity |].
  unfold swirl_pos. cbn [vx vy vz].
  pose proof (sphere_ratio_range n i Hi) as Ht.
  set (t := INR i / INR (Nat.max 1 (n - 1))) in *.
  split.
  { pose proof (sin2_cos2 (t * turns * 2 * PI)) as Htrig. unfold Rsqr in Htrig. nra. }
  split.
  { unfold Rabs. destruct (Rcase_abs ((t - 0.5) * h)), (Rcase_abs h); nra. }
  split.
  { intros ->. unfold t. cbn [INR]. unfold Rdiv. lra. }
  intros Hn ->. unfold t.
  replace (Nat.max 1 (n - 1)) with (n - 1)%nat by lia.
  assert (Hm : INR (n - 1) <> 0) by (apply not_0_INR; lia).
  replace (INR (n - 1) / INR (n - 1)) with 1 by (field; exact Hm). lra.
Qed.

(** X2: the torus puts every active sprite on the torus of major radius
    [R_major] and minor radius [r_minor] about the Y axis (the implicit
    equation holds), and aims it at the point one unit further along the
    outward unit normal of the surface at that place. *)
Theorem torus_layout_on_surface :
  forall (l : list Sprite) (n : nat) (R_major r_minor emoji_scale_val : R)
         (i : nat) (s : Sprite),
    (i < n)%nat -> nth_error l i = Some s ->
    let u := torus_u n i in
    let v := torus_v n i in
    let pos := torus_pos n R_major r_minor i in
    let normal := mkVec3 (cos u * cos v) (sin v) (sin u * cos v) in
    nth_error (arrange_sprites_torus l n R_major r_minor emoji_scale_val) i
    = Some (_arrange_3d_pattern s pos emoji_scale_val (vec_add pos normal))
    /\ dot normal normal = 1
    /\ pos = vec_add (mkVec3 (R_major * cos u) 0 (R_major * sin u))
                     (vec_scale normal r_minor)
    /\ (dot pos pos + R_major * R_major - r_minor * r_minor)
       * (dot pos pos + R_major * R_major - r_minor * r_minor)
       = 4 * (R_major * R_major) * (vx pos * vx pos + vz pos * vz pos).
Proof.
  intros l n R_major r_minor sc i s Hi E u v pos normal.
  assert (Hn : dot normal normal = 1).
  { unfold dot, normal. cbn [vx vy vz].
    pose proof (sin2_cos2 u) as Hu. pose proof (sin2_cos2 v) as Hv.
    unfold Rsqr in Hu, Hv. nra. }
  split.
  - unfold arrange_sprites_torus.
    rewrite (enumerate_3d_nth n (fun j => torus_pos n R_major r_minor j) sc
               (fun j => vec_add (torus_pos n R_major r_minor j)
                           (normalized
                              (mkVec3 (cos (torus_u n j) * cos (torus_v n j))
                                      (sin (torus_v n j))
                                      (sin (torus_u n j) * cos (torus_v n j)))))
               l i s E).
    apply Nat.ltb_lt in Hi. rewrite Hi. fold u v normal pos.
    rewrite (normalized_unit normal Hn). reflexivity.
  - split; [exact Hn |]. split.
    + unfold pos, torus_pos, normal, vec_add, vec_scale. fold u v. cbn [vx vy vz].
      f_equal; ring.
    + unfold pos, torus_pos, dot. fold u v. cbn [vx vy vz].
      pose proof (sin2_cos2 u) as Hu. pose proof (sin2_cos2 v) as Hv.
      unfold Rsqr in Hu, Hv.
      set (cu := cos u) in *. set (su := sin u) in *.
      set (cv := cos v) in *. set (sv := sin v) in *.
      assert (Hu' : su * su = 1 - cu * cu) by lra.
      assert (Hv' : sv * sv = 1 - cv * cv) by lra.
      replace ((R_major + r_minor * cv) * cu * ((R_major + r_minor * cv) * cu)
               + r_minor * sv * (r_minor * sv)
               + (R_major + r_minor * cv) * su * ((R_major + r_minor * cv) * su))
        with ((R_major + r_minor * cv) * (R_major + r_minor * cv) * (cu * cu + su * su)
              + r_minor * r_minor * (sv * sv)) by ring.
      replace ((R_major + r_minor * cv) * cu * ((R_major + r_minor * cv) * cu)
               + (R_major + r_minor * cv) * su * ((R_major + r_minor * cv) * su))
        with ((R_major + r_minor * cv) * (R_major + r_minor * cv) * (cu * cu + su * su))
        by ring.
      rewrite Hu', Hv'. ring.
Qed.

(** X3: the sphere aims every active sprite at the point one unit further
    out on the ray from the centre through the sprite: the look-at target is
    the unit point scaled by [sphere_r + 1]. *)
Theorem sphere_faces_outward :
  forall (l : list Sprite) (n : nat) (sphere_r emoji_scale_val : R)
         (i : nat) (s : Sprite),
    (i < n)%nat -> nth_error l i = Some s ->
    nth_error (arrange_sprites_sphere l n sphere_r emoji_scale_val) i
    = Some (_arrange_3d_pattern s (vec_scale (sphere_unit n i) sphere_r)
              emoji_scale_val (vec_scale (sphere_unit n i) (sphere_r + 1))).
Proof.
  intros l n sphere_r sc i s Hi E.
  rewrite (arrange_sprites_sphere_nth l n sphere_r sc i s Hi E).
  rewrite (normalized_unit _ (sphere_unit_norm n i Hi)).
  unfold sphere_pos.
  replace (vec_add (vec_scale (sphere_unit n i) sphere_r) (sphere_unit n i))
    with (vec_scale (sphere_unit n i) (sphere_r + 1)); [reflexivity |].
  destruct (sphere_unit n i) as [x y z].
  unfold vec_add, vec_scale. cbn [vx vy vz]. f_equal; ring.
Qed.

(** X4: swirl, torus and sphere keep the length of the list and mark every
    sprite with index [>= num_sprites_in_pattern] invisible without
    touching anything else of it. *)
Theorem surplus_sprites_hidden :
  forall (l : list Sprite) (n : nat) (a b c sc : R),
    List.length (arrange_sprites_swirl l n a b c sc) = List.length l
    /\ List.length (arrange_sprites_torus l n a b sc) = List.length l
    /\ List.length (arrange_sprites_sphere l n a sc) = List.length l
    /\ forall i s, (n <= i)%nat -> nth_error l i = Some s ->
         nth_error (arrange_sprites_swirl l n a b c sc) i = Some (set_visible s false)
         /\ nth_error (arrange_sprites_torus l n a b sc) i = Some (set_visible s false)
         /\ nth_error (arrange_sprites_sphere l n a sc) i = Some (set_visible s false).
Proof.
  intros l n a b c sc.
  split; [apply enumerate_map_length |]. split; [apply enumerate_map_length |].
  split; [apply enumerate_map_length |].
  intros i s Hi E. apply Nat.ltb_ge in Hi.
  unfold arrange_sprites_swirl, arrange_sprites_torus, arrange_sprites_sphere.
  rewrite !nth_error_enumerate_map, E. cbn [option_map]. rewrite Hi. auto.
Qed.

(** ** Bounds of the animations *)

Lemma scaled_sine_bound (x amp : R) : Rabs (sin x * amp) <= Rabs amp.
Proof.
  pose proof (SIN_bound x) as [H1 H2].
  unfold Rabs. destruct (Rcase_abs (sin x * amp)), (Rcase_abs amp); nra.
Qed.

Lemma scaled_cosine_bound (x amp : R) : Rabs (cos x * amp) <= Rabs amp.
Proof.
  pose proof (COS_bound x) as [H1 H2].
  unfold Rabs. destruct (Rcase_abs (cos x * amp)), (Rcase_abs amp); nra.
Qed.

Lemma idle_zoom_factor_bound (pattern : string) (x : R) :
  -1 <= idle_zoom_factor pattern x <= 1.
Proof.
  pose proof (SIN_bound x) as [H1 H2]. unfold idle_zoom_factor.
  repeat case_eqb; try lra.
  unfold Rabs. destruct (Rcase_abs (sin x)); lra.
Qed.

(** X5: in mode [wave_zoom] the node layer leaves the position at the base
    position and scales X and Y alike by a factor that is clamped from below
    at 0.1 and cannot exceed [1 + |amplitude|/2]; on Z a billboard keeps
    [base_scale.z], any other sprite gets the same factor.  The scale of a
    sprite with a base scale that is not negative is therefore never
    inverted. *)
Theorem wave_zoom_scale_clamped :
  forall (app : EmojiApp) (s : Sprite) (i : nat) (t dt : R)
         (bp : Vec3) (v : R) (bs : Vec3) (ph : R),
    has_base_state s bp v bs ph ->
    node_animation_enabled app = true ->
    node_animation_type app = "wave_zoom" ->
    0 <= v ->
    exists s1,
      apply_node_animations app s i t dt = Ok s1
      /\ position s1 = bp
      /\ rotation s1 = rotation s
      /\ vx (scale s1) = vy (scale s1)
      /\ 0.1 * v <= vx (scale s1) <= (1 + Rabs (node_anim_amplitude app) / 2) * v
      /\ vz (scale s1) = if billboard s then vz bs else vx (scale s1).
Proof.
  intros app s i t dt bp v bs ph (Hbp & Hv & Hbs & Hph) Hen Hty Hpos.
  unfold apply_node_animations.
  rewrite Hbp. cbn [attr bind base_scale_val set_position]. rewrite Hv. cbn [attr bind].
  rewrite Hen, Hty. cbn [negb orb String.eqb Ascii.eqb Bool.eqb].
  cbn [animation_phase_offset set_scale set_position]. rewrite Hph. cbn [attr bind].
  set (wave := sin (INR i * node_anim_frequency app + t * node_anim_speed app * 2.0 + ph)
               * node_anim_amplitude app).
  assert (Hw : Rabs wave <= Rabs (node_anim_amplitude app))
    by apply scaled_sine_bound.
  assert (Hclamp : 0.1 <= Rmax 0.1 (1.0 + wave * 0.5)
                   <= 1 + Rabs (node_anim_amplitude app) / 2).
  { pose proof (Rabs_pos (node_anim_amplitude app)).
    assert (wave <= Rabs wave) by apply Rle_abs.
    unfold Rmax. destruct (Rle_dec 0.1 (1.0 + wave * 0.5)); lra. }
  unfold scale_z. cbn [billboard set_scale set_position base_scale].
  destruct (billboard s) eqn:B.
  - rewrite Hbs. cbn [attr bind]. eexists. split; [reflexivity |].
    cbn [position rotation scale set_scale set_position vx vy vz].
    repeat split; try reflexivity; nra.
  - cbn [bind]. eexists. split; [reflexivity |].
    cbn [position rotation scale set_scale set_position vx vy vz].
    repeat split; try reflexivity; nra.
Qed.

(** X6: in mode [wave_position] the node layer moves the sprite away from
    its base position by at most [|amplitude|] along X and along Y and not at
    all along Z; the scale is the uniform base scale and the rotation is not
    touched. *)
Theorem wave_position_offset_bounded :
  forall (app : EmojiApp) (s : Sprite) (i : nat) (t dt : R)
         (bp : Vec3) (v : R) (bs : Vec3) (ph : R),
    has_base_state s bp v bs ph ->
    node_animation_enabled app = true ->
    node_animation_type app = "wave_position" ->
    exists s1,
      apply_node_animations app s i t dt = Ok s1
      /\ Rabs (vx (position s1) - vx bp) <= Rabs (node_anim_amplitude app)
      /\ Rabs (vy (position s1) - vy bp) <= Rabs (node_anim_amplitude app)
      /\ vz (position s1) - vz bp = 0
      /\ scale s1 = uniform v
      /\ rotation s1 = rotation s.
Proof.
  intros app s i t dt bp v bs ph (Hbp & Hv & Hbs & Hph) Hen Hty.
  unfold apply_node_animations.
  rewrite Hbp. cbn [attr bind base_scale_val set_position]. rewrite Hv. cbn [attr bind].
  rewrite Hen, Hty. cbn [negb orb String.eqb Ascii.eqb Bool.eqb].
  cbn [animation_phase_offset set_scale set_position]. rewrite Hph. cbn [attr bind].
  eexists. split; [reflexivity |].
  cbn [position rotation scale set_scale set_position vec_add vx vy vz].
  split.
  { match goal with
    | |- Rabs (?a + ?w - ?a) <= _ => replace (a + w - a) with w by ring
    end. apply scaled_sine_bound. }
  split.
  { match goal with
    | |- Rabs (?a + ?w - ?a) <= _ => replace (a + w - a) with w by ring
    end. apply scaled_cosine_bound. }
  split; [ring |]. split; reflexivity.
Qed.

(** X7: with the idle zoom enabled, whatever the node mode and the zoom
    pattern, a frame leaves a visible sprite of base scale value [v >= 0]
    with equal X and Y scale inside [v*(1 - |amplitude|), v*(1 + |amplitude|)]. *)
Theorem idle_zoom_scale_bounded :
  forall (app : EmojiApp) (s : Sprite) (i : nat) (t dt : R)
         (bp : Vec3) (v : R) (bs : Vec3) (ph : R),
    has_base_state s bp v bs ph ->
    visible s = true ->
    idle_zoom_enabled app = true ->
    0 <= v ->
    exists s',
      update_sprite app t dt i s = Ok s'
      /\ vx (scale s') = vy (scale s')
      /\ v * (1 - Rabs (idle_zoom_amplitude app)) <= vx (scale s')
         <= v * (1 + Rabs (idle_zoom_amplitude app)).
Proof.
  intros app s i t dt bp v bs ph Hb Hvis Hzoom Hv.
  destruct (update_sprite_ok app s i t dt bp v bs ph Hb Hvis)
    as (s' & E & _ & _ & _ & _ & Hsc).
  exists s'. split; [exact E |]. rewrite (Hsc Hzoom). cbn [vx vy].
  split; [reflexivity |].
  pose proof (idle_zoom_factor_bound (idle_zoom_pattern app)
                (t * idle_zoom_speed_factor app * 1.5 + ph)) as [F1 F2].
  set (f := idle_zoom_factor (idle_zoom_pattern app)
              (t * idle_zoom_speed_factor app * 1.5 + ph)) in *.
  set (a := idle_zoom_amplitude app).
  assert (Ha : Rabs (a * f) <= Rabs a).
  { unfold Rabs. destruct (Rcase_abs (a * f)), (Rcase_abs a); nra. }
  assert (H1 : a * f <= Rabs (a * f)) by apply Rle_abs.
  assert (H2 : - (a * f) <= Rabs (a * f)).
  { rewrite <- Rabs_Ropp. apply Rle_abs. }
  split; nra.
Qed.

(** ** Key handler *)

(** X8: the key [n] steps the node mode through
    none, wave_position, wave_zoom, wave_rotation and back to none and
    changes nothing else: the state after the press is the state before it
    with the mode replaced, so four presses restore the state exactly; with a
    mode outside this list the key raises [ValueError]. *)
Theorem node_mode_cycles :
  forall app : EmojiApp,
    (In (node_animation_type app) patterns ->
     (exists next,
         input app "n" = Ok (set_node_animation_type app next)
         /\ (node_animation_type app = "none" -> next = "wave_position")
         /\ (node_animation_type app = "wave_position" -> next = "wave_zoom")
         /\ (node_animation_type app = "wave_zoom" -> next = "wave_rotation")
         /\ (node_animation_type app = "wave_rotation" -> next = "none"))
     /\ run app [Key "n"; Key "n"; Key "n"; Key "n"] = Ok app)
    /\ (~ In (node_animation_type app) patterns -> input app "n" = Raise ValueError).
Proof.
  intros app. split.
  - intros Hp. destruct app. cbn [node_animation_type] in Hp.
    unfold patterns in Hp.
    destruct Hp as [<- | [<- | [<- | [<- | []]]]].
    + split; [exists "wave_position"; split; [reflexivity |]; cbn; repeat split;
              first [reflexivity | discriminate]
             | reflexivity].
    + split; [exists "wave_zoom"; split; [reflexivity |]; cbn; repeat split;
              first [reflexivity | discriminate]
             | reflexivity].
    + split; [exists "wave_rotation"; split; [reflexivity |]; cbn; repeat split;
              first [reflexivity | discriminate]
             | reflexivity].
    + split; [exists "none"; split; [reflexivity |]; cbn; repeat split;
              first [reflexivity | discriminate]
             | reflexivity].
  - intros Hn. unfold input.
    cbn [arrangement_of_key arrangement_key String.eqb Ascii.eqb Bool.eqb].
    unfold patterns in *. cbn [index_of].
    destruct (String.eqb_spec "none" (node_animation_type app)) as [E | _];
      [exfalso; apply Hn; cbn; auto |].
    destruct (String.eqb_spec "wave_position" (node_animation_type app)) as [E | _];
      [exfalso; apply Hn; cbn; auto |].
    destruct (String.eqb_spec "wave_zoom" (node_animation_type app)) as [E | _];
      [exfalso; apply Hn; cbn; auto |].
    destruct (String.eqb_spec "wave_rotation" (node_animation_type app)) as [E | _];
      [exfalso; apply Hn; cbn; auto |].
    reflexivity.
Qed.

(** X9: the keys [r], [t], [b] and [a] each flip one flag and nothing
    else: [r] the idle rotation, [t] the idle zoom, [b] the bloom flag and
    [a] the afterimage flag; the state after the press is the state before
    it with that one flag negated.  Pressed twice, any of them leaves the
    whole state as it was. *)
Theorem toggle_twice_restores :
  forall (app : EmojiApp) (key : string),
    key = "r" \/ key = "t" \/ key = "b" \/ key = "a" ->
    input app key
    = Ok (if String.eqb key "r"
          then set_idle_rotation_enabled app (negb (idle_rotation_enabled app))
          else if String.eqb key "t"
          then set_idle_zoom_enabled app (negb (idle_zoom_enabled app))
          else if String.eqb key "b"
          then set_bloom_enabled app (negb (bloom_enabled app))
          else set_afterimage_enabled app (negb (afterimage_enabled app)))
    /\ run app [Key key; Key key] = Ok app.
Proof.
  intros app key Hkey. destruct app.
  destruct Hkey as [-> | [-> | [-> | ->]]];
    (split; [reflexivity | cbn; rewrite negb_involutive; reflexivity]).
Qed.

(** ** States reached after start-up *)

Lemma apply_post_processing_consistent (app : EmojiApp) :
  post_process_consistent (apply_post_processing app).
Proof.
  unfold post_process_consistent, apply_post_processing.
  destruct (grayscale_enabled app) eqn:G; [| destruct (sepia_enabled app) eqn:S];
    cbn; rewrite ?G, ?S; split; try reflexivity; intros H; try discriminate; reflexivity.
Qed.

Lemma setup_gives_base_state (d : R) (s : Sprite) :
  exists bp v bs ph, has_base_state (setup_sprite d s) bp v bs ph.
Proof.
  destruct (setup_sprite_base d s) as (Hp & Hs & _ & Hph & Hv).
  unfold has_base_state. rewrite Hp, Hs, Hph, Hv.
  destruct (base_scale_val s); do 4 eexists; repeat split; reflexivity.
Qed.

Lemma setup_initial_states_well_formed (l : list Sprite) (d : nat) :
  well_formed (fst (setup_sprite_initial_states l d)).
Proof.
  unfold setup_sprite_initial_states. cbn [fst]. intros s Hin _.
  apply In_nth_error in Hin. destruct Hin as (i & Ei).
  rewrite nth_error_enumerate_map in Ei.
  destruct (nth_error l i) as [s0 |]; [| discriminate].
  cbn [option_map] in Ei. injection Ei as <-. apply setup_gives_base_state.
Qed.

Lemma apply_arrangement_well_formed (app : EmojiApp) (nm : string)
    (f : list Sprite -> list Sprite) :
  well_formed (sprites (_apply_arrangement_and_setup_state app nm f)).
Proof.
  unfold _apply_arrangement_and_setup_state.
  pose proof (setup_initial_states_well_formed
                (sprites (set_current_arrangement
                            (set_sprites app
                               (f (firstn (num_sprites app) (sprites app))
                                ++ skipn (num_sprites app) (sprites app))) nm))
                (draws (set_current_arrangement
                          (set_sprites app
                             (f (firstn (num_sprites app) (sprites app))
                              ++ skipn (num_sprites app) (sprites app))) nm))) as H.
  destruct (setup_sprite_initial_states _ _) as [sp d]. cbn [fst] in H. exact H.
Qed.

(** A key never raises in a healthy state and leaves it healthy. *)
Lemma input_keeps_healthy (app : EmojiApp) (key : string) :
  healthy app -> exists app', input app key = Ok app' /\ healthy app'.
Proof.
  intros (Hwf & Hp & Hc). unfold input, healthy.
  destruct (arrangement_of_key (num_sprites app) key) as [[nm f] |].
  { eexists. split; [reflexivity |].
    split; [apply apply_arrangement_well_formed |].
    destruct (apply_arrangement_keeps_post_process app nm f)
      as (Ea & Et & Eg & Es & Ec).
    unfold post_process_consistent. rewrite Et, Eg, Es, Ec, Ea. auto. }
  destruct (String.eqb key "r"); [eexists; split; [reflexivity | cbn; auto] |].
  destruct (String.eqb key "t"); [eexists; split; [reflexivity | cbn; auto] |].
  destruct (String.eqb key "n").
  { destruct (next_pattern_total _ Hp) as (idx & -> & Hin).
    eexists. split; [reflexivity |]. cbn [bind]. split; [exact Hwf |].
    split; [exact Hin | exact Hc]. }
  assert (Hpost : forall a, sprites a = sprites app ->
            node_animation_type a = node_animation_type app ->
            exists app', Ok (apply_post_processing a) = Ok app'
              /\ well_formed (sprites app')
              /\ In (node_animation_type app') patterns
              /\ post_process_consistent app').
  { intros a Hs Ht. eexists. split; [reflexivity |].
    assert (Hsp : sprites (apply_post_processing a) = sprites a).
    { unfold apply_post_processing.
      destruct (grayscale_enabled a); [| destruct (sepia_enabled a)]; reflexivity. }
    destruct (apply_post_processing_fields a) as (_ & Ety & _).
    rewrite Hsp, Hs, Ety, Ht.
    split; [exact Hwf |]. split; [exact Hp |]. apply apply_post_processing_consistent. }
  destruct (String.eqb key "g"); [apply Hpost; reflexivity |].
  destruct (String.eqb key "s"); [apply Hpost; reflexivity |].
  destruct (String.eqb key "b"); [eexists; split; [reflexivity | cbn; auto] |].
  destruct (String.eqb key "a"); [eexists; split; [reflexivity | cbn; auto] |].
  destruct (String.eqb key "s up"); [apply Hpost; reflexivity |].
  destruct (String.eqb key "s down"); [apply Hpost; reflexivity |].
  destruct (String.eqb key "escape"); eexists; (split; [reflexivity | cbn; auto]).
Qed.

(** A frame never raises in a healthy state and leaves it healthy. *)
Lemma update_keeps_healthy (app : EmojiApp) (t dt : R) :
  healthy app -> exists app', update app t dt = Ok app' /\ healthy app'.
Proof.
  intros (Hwf & Hp & Hc). unfold update.
  destruct (update_sprites_ok app t dt (sprites app) Hwf 0) as (l' & -> & Hwf' & _).
  cbn [bind]. unfold healthy, post_process_consistent.
  destruct (String.eqb (current_arrangement (set_sprites app l')) "swirl"
            || String.eqb (current_arrangement (set_sprites app l')) "torus"
            || String.eqb (current_arrangement (set_sprites app l')) "sphere");
    eexists; (split; [reflexivity |]); cbn; auto.
Qed.

Lemma run_keeps_healthy (events : list event) :
  forall app, healthy app -> exists app', run app events = Ok app' /\ healthy app'.
Proof.
  induction events as [| e events IH]; intros app H.
  - exists app. split; [reflexivity | exact H].
  - assert (Hstep : exists app1, step app e = Ok app1 /\ healthy app1).
    { destruct e as [key | t dt]; cbn [step];
        [apply input_keeps_healthy | apply update_keeps_healthy]; exact H. }
    destruct Hstep as (app1 & E1 & H1).
    destruct (IH app1 H1) as (app2 & E2 & H2).
    exists app2. cbn [run]. rewrite E1. cbn [bind]. auto.
Qed.

(** Loading leaves the animation and post-process settings alone. *)
Lemma load_and_arrange_keeps_settings (app app' : EmojiApp) :
  load_and_arrange_emojis app = Ok app' ->
  node_animation_type app' = node_animation_type app
  /\ grayscale_enabled app' = grayscale_enabled app
  /\ sepia_enabled app' = sepia_enabled app
  /\ sepia_amount app' = sepia_amount app
  /\ camera app' = camera app.
Proof.
  unfold load_and_arrange_emojis.
  destruct (get_emoji_filenames_for_set_and_group DEFAULT_EMOJI_SET DEFAULT_EMOJI_GROUP)
    as [[| fn fns] | e]; cbn [bind]; [| | discriminate].
  - destruct (sprites app); intros H; injection H as <-; cbn; auto.
  - destruct (load_loop (fn :: fns) (num_sprites app) 0
                (sprites app, texture_cache app, draws app)) as [[sp1 cache1] d1].
    destruct (arrangement_map _ _) as [f |]; intros H; injection H as <-.
    + match goal with
      | |- context [_apply_arrangement_and_setup_state ?a ?nm ?g] =>
          destruct (apply_arrangement_keeps_post_process a nm g)
            as (-> & -> & -> & -> & ->)
      end.
      cbn. auto.
    + cbn. auto.
Qed.

Lemma init_healthy (app0 : EmojiApp) : __init__ = Ok app0 -> healthy app0.
Proof.
  unfold __init__.
  destruct (load_and_arrange_emojis initial_app) as [app1 | e] eqn:E; [| discriminate].
  cbn [bind].
  pose proof (setup_initial_states_well_formed (sprites app1) (draws app1)) as Hwf.
  destruct (setup_sprite_initial_states (sprites app1) (draws app1)) as [sp d].
  cbn [fst] in Hwf. intros H. injection H as <-.
  destruct (load_and_arrange_keeps_settings _ _ E) as (Et & Eg & Es & Ea & Ec).
  unfold healthy, post_process_consistent.
  cbn [sprites node_animation_type camera grayscale_enabled sepia_enabled sepia_amount
       set_draws set_sprites].
  rewrite Et, Eg, Es, Ec.
  split; [exact Hwf |]. split; [cbn; auto |]. cbn. split; [reflexivity | discriminate].
Qed.

(** The quit request is made by the escape key only. *)
Lemma input_keeps_quit (app app' : EmojiApp) (key : string) :
  key <> "escape" ->
  input app key = Ok app' ->
  quit_requested app' = quit_requested app.
Proof.
  intros Hkey. unfold input.
  assert (Hpost : forall a, quit_requested (apply_post_processing a) = quit_requested a).
  { intros a. unfold apply_post_processing.
    destruct (grayscale_enabled a); [| destruct (sepia_enabled a)]; reflexivity. }
  destruct (arrangement_of_key (num_sprites app) key) as [[nm f] |].
  { intros H. injection H as <-.
    unfold _apply_arrangement_and_setup_state, setup_sprite_initial_states. reflexivity. }
  destruct (String.eqb key "r"); [intros H; injection H as <-; reflexivity |].
  destruct (String.eqb key "t"); [intros H; injection H as <-; reflexivity |].
  destruct (String.eqb key "n").
  { destruct (index_of patterns (node_animation_type app)); cbn [bind];
      [| discriminate].
    intros H. injection H as <-. reflexivity. }
  destruct (String.eqb key "g"); [intros H; injection H as <-; rewrite Hpost; reflexivity |].
  destruct (String.eqb key "s"); [intros H; injection H as <-; rewrite Hpost; reflexivity |].
  destruct (String.eqb key "b"); [intros H; injection H as <-; reflexivity |].
  destruct (String.eqb key "a"); [intros H; injection H as <-; reflexivity |].
  destruct (String.eqb key "s up"); [intros H; injection H as <-; rewrite Hpost; reflexivity |].
  destruct (String.eqb key "s down"); [intros H; injection H as <-; rewrite Hpost; reflexivity |].
  destruct (String.eqb_spec key "escape") as [E | _]; [contradiction |].
  intros H. injection H as <-. reflexivity.
Qed.

Lemma update_keeps_quit (app app' : EmojiApp) (t dt : R) :
  update app t dt = Ok app' -> quit_requested app' = quit_requested app.
Proof.
  unfold update.
  destruct (update_sprites app t dt 0 (sprites app)) as [l' | e]; cbn [bind];
    [| discriminate].
  destruct (String.eqb (current_arrangement (set_sprites app l')) "swirl"
            || String.eqb (current_arrangement (set_sprites app l')) "torus"
            || String.eqb (current_arrangement (set_sprites app l')) "sphere");
    intros H; injection H as <-; reflexivity.
Qed.

Lemma init_no_quit (app0 : EmojiApp) : __init__ = Ok app0 -> quit_requested app0 = false.
Proof.
  unfold __init__, load_and_arrange_emojis.
  destruct (get_emoji_filenames_for_set_and_group DEFAULT_EMOJI_SET DEFAULT_EMOJI_GROUP)
    as [[| fn fns] | e]; cbn [bind]; [| | discriminate].
  - destruct (sprites initial_app); cbn [bind];
      unfold setup_sprite_initial_states; intros H; injection H as <-; reflexivity.
  - destruct (load_loop (fn :: fns) (num_sprites initial_app) 0
                (sprites initial_app, texture_cache initial_app, draws initial_app))
      as [[sp1 cache1] d1].
    destruct (arrangement_map _ _) as [f |]; cbn [bind];
      unfold _apply_arrangement_and_setup_state, setup_sprite_initial_states;
      intros H; injection H as <-; reflexivity.
Qed.

Lemma run_without_escape (events : list event) :
  forall app,
    healthy app -> quit_requested app = false -> ~ In (Key "escape") events ->
    exists app', run app events = Ok app' /\ quit_requested app' = false.
Proof.
  induction events as [| e events IH]; intros app H Hq Hesc.
  - exists app. split; [reflexivity | exact Hq].
  - assert (Hstep : exists app1, step app e = Ok app1 /\ healthy app1
                                 /\ quit_requested app1 = false).
    { destruct e as [key | t dt]; cbn [step].
      - destruct (input_keeps_healthy app key H) as (app1 & E1 & H1).
        exists app1. split; [exact E1 |]. split; [exact H1 |].
        rewrite (input_keeps_quit app app1 key); [exact Hq | | exact E1].
        intros ->. apply Hesc. left. reflexivity.
      - destruct (update_keeps_healthy app t dt H) as (app1 & E1 & H1).
        exists app1. split; [exact E1 |]. split; [exact H1 |].
        rewrite (update_keeps_quit app app1 t dt E1). exact Hq. }
    destruct Hstep as (app1 & E1 & H1 & Hq1).
    destruct (IH app1 H1 Hq1) as (app2 & E2 & Hq2).
    { intros Hin. apply Hesc. right. exact Hin. }
    exists app2. cbn [run]. rewrite E1. cbn [bind]. auto.
Qed.

(** X10: once start-up has returned, no sequence of keys and frames
    without the escape key raises an exception, and the program has not
    asked to quit at its end: every read of an attribute tacked onto a
    sprite finds it, and the mode the key [n] looks up is always one of the
    four.  (The escape key calls [application.quit()], which ends the run.) *)
Theorem run_after_startup_never_raises :
  forall (app0 : EmojiApp) (events : list event),
    __init__ = Ok app0 ->
    ~ In (Key "escape") events ->
    exists app, run app0 events = Ok app /\ quit_requested app = false.
Proof.
  intros app0 events H0 Hesc.
  apply run_without_escape;
    [apply init_healthy; exact H0 | apply init_no_quit; exact H0 | exact Hesc].
Qed.

(** X11: in every state reached from start-up by keys and frames, the
    shader bound to the camera is the one the two toggles select (grayscale
    when it is on, else sepia when it is on, else none), and while sepia is
    bound the shader input [amount] equals the current sepia intensity. *)
Theorem shader_follows_toggles :
  forall (app0 : EmojiApp) (events : list event),
    __init__ = Ok app0 ->
    exists app,
      run app0 events = Ok app
      /\ shader (camera app) =
           (if grayscale_enabled app then Some grayscale_shader
            else if sepia_enabled app then Some sepia_shader
            else None)
      /\ (shader (camera app) = Some sepia_shader ->
          shader_amount (camera app) = Some (sepia_amount app)).
Proof.
  intros app0 events H0.
  destruct (run_keeps_healthy events app0 (init_healthy app0 H0))
    as (app & E & _ & _ & Hc).
  exists app. split; [exact E | exact Hc].
Qed.

(** ** Texture cache and sprite pool *)

(** X12: the texture cache answers a repeated request from memory: once a
    load has returned a texture, loading the same file again returns the
    same reference and leaves the cache as it is, and the entries of other
    paths are not disturbed.  A missing file is not recorded, so nothing is
    cached for it. *)
Theorem load_emoji_texture_caches :
  forall (cache cache' : list (string * string)) (filename folder : string)
         (r : option string),
    load_emoji_texture cache filename folder = (r, cache') ->
    (forall k, k <> texture_path folder filename ->
       cache_lookup cache' k = cache_lookup cache k)
    /\ match r with
       | Some t =>
           cache_lookup cache' (texture_path folder filename) = Some t
           /\ load_emoji_texture cache' filename folder = (Some t, cache')
       | None =>
           cache' = cache
           /\ cache_lookup cache (texture_path folder filename) = None
           /\ path_exists (texture_path folder filename) = false
       end.
Proof.
  intros cache cache' filename folder r. unfold load_emoji_texture.
  destruct (cache_lookup cache (texture_path folder filename)) as [t |] eqn:E.
  - intros H. injection H as <- <-. split; [reflexivity |].
    split; [exact E |]. rewrite E. reflexivity.
  - destruct (path_exists (texture_path folder filename)) eqn:Hex;
      intros H; injection H as <- <-.
    + split.
      * intros k Hk. cbn [cache_lookup].
        destruct (String.eqb_spec (texture_path folder filename) k) as [<- | _];
          [contradiction | reflexivity].
      * cbn [cache_lookup]. rewrite String.eqb_refl. split; reflexivity.
    + split; [reflexivity |]. auto.
Qed.

Lemma create_emoji_sprite_visible (tex : option string) (d : nat) :
  visible (fst (create_emoji_sprite tex d)) = true.
Proof.
  unfold create_emoji_sprite. destruct (texture_given tex); reflexivity.
Qed.

Lemma load_one_visible (filenames : list string) (i : nat)
    (st : list Sprite * list (string * string) * nat) :
  (i <= List.length (fst (fst st)))%nat ->
  visible_below i (fst (fst st)) ->
  visible_below (S i) (fst (fst (load_one filenames i st))).
Proof.
  destruct st as [[sp cache] d]. cbn [fst]. intros Hlen Hvis. unfold load_one.
  destruct (load_emoji_texture cache _ DEFAULT_RESOLUTION_FOLDER) as [tex cache'].
  destruct (Nat.ltb_spec i (List.length sp)) as [Hlt | Hge].
  - cbn [fst]. intros j s Hj E. rewrite nth_error_update_nth in E.
    destruct (Nat.eqb_spec j i) as [-> | Hne].
    + destruct (nth_error sp i) as [s0 |]; [| discriminate].
      cbn [option_map] in E. injection E as <-. reflexivity.
    + apply (Hvis j s); [lia | exact E].
  - pose proof (create_emoji_sprite_visible tex d) as Hc.
    destruct (create_emoji_sprite tex d) as [s0 d']. cbn [fst] in *.
    intros j s Hj E.
    destruct (Nat.lt_ge_cases j (List.length sp)) as [Hlt | Hge'].
    + rewrite nth_error_app1 in E by exact Hlt. apply (Hvis j s); [lia | exact E].
    + rewrite nth_error_app2 in E by exact Hge'.
      replace (j - List.length sp)%nat with 0%nat in E by lia.
      cbn in E. injection E as <-. exact Hc.
Qed.

Lemma load_loop_visible (filenames : list string) (count : nat) :
  forall i st,
    (i <= List.length (fst (fst st)))%nat ->
    visible_below i (fst (fst st)) ->
    visible_below (i + count) (fst (fst (load_loop filenames count i st))).
Proof.
  induction count as [| k IH]; intros i st Hlen Hvis; cbn [load_loop].
  - rewrite Nat.add_0_r. exact Hvis.
  - replace (i + S k)%nat with (S i + k)%nat by lia. apply IH.
    + destruct st as [[sp cache] d].
      rewrite load_one_length. cbn [fst] in *.
      destruct (Nat.ltb_spec i (List.length sp)); lia.
    + apply load_one_visible; assumption.
Qed.

Lemma apply_arrangement_length (app : EmojiApp) (nm : string)
    (f : list Sprite -> list Sprite) :
  (forall l, List.length (f l) = List.length l) ->
  List.length (sprites (_apply_arrangement_and_setup_state app nm f))
  = List.length (sprites app).
Proof.
  intros Hf. unfold _apply_arrangement_and_setup_state, setup_sprite_initial_states.
  cbn. rewrite enumerate_map_length, length_app, Hf.
  rewrite <- length_app, firstn_skipn. reflexivity.
Qed.

(** The pool after a load: its size and which sprites are visible. *)
Lemma load_and_arrange_pool (app : EmojiApp) (fn : string) (fns : list string) :
  get_emoji_filenames_for_set_and_group DEFAULT_EMOJI_SET DEFAULT_EMOJI_GROUP
  = Ok (fn :: fns) ->
  exists app',
    load_and_arrange_emojis app = Ok app'
    /\ List.length (sprites app')
       = Nat.max (List.length (sprites app)) (num_sprites app)
    /\ forall i s, nth_error (sprites app') i = Some s ->
         visible s = (i <? num_sprites app)%nat.
Proof.
  intros Hfiles. unfold load_and_arrange_emojis.
  rewrite Hfiles. cbn [bind].
  pose proof (load_loop_length (fn :: fns) (num_sprites app) 0
                (sprites app, texture_cache app, draws app) (Nat.le_0_l _)) as Hlen.
  assert (Hv0 : visible_below 0 (sprites app)) by (intros j s Hj; lia).
  pose proof (load_loop_visible (fn :: fns) (num_sprites app) 0
                (sprites app, texture_cache app, draws app) (Nat.le_0_l _) Hv0) as Hvis.
  destruct (load_loop (fn :: fns) (num_sprites app) 0
              (sprites app, texture_cache app, draws app)) as [[sp1 cache1] d1].
  cbn [fst] in Hlen, Hvis. cbn [Nat.add] in Hvis.
  cbn [num_sprites current_arrangement set_draws set_texture_cache set_sprites].
  assert (Hhid : forall i s, nth_error (hide_from (num_sprites app) sp1) i = Some s ->
            visible s = (i <? num_sprites app)%nat).
  { intros i s E. rewrite hide_from_nth in E.
    destruct (nth_error sp1 i) as [s0 |] eqn:E0; [| discriminate].
    cbn [option_map] in E. injection E as <-.
    destruct (Nat.leb_spec (num_sprites app) i) as [Hge | Hlt].
    - replace (i <? num_sprites app)%nat with false
        by (symmetry; apply Nat.ltb_ge; exact Hge).
      reflexivity.
    - replace (i <? num_sprites app)%nat with true
        by (symmetry; apply Nat.ltb_lt; exact Hlt).
      apply (Hvis i s0 Hlt E0). }
  assert (Hhlen : List.length (hide_from (num_sprites app) sp1) = List.length sp1)
    by apply enumerate_map_length.
  destruct (arrangement_map (num_sprites app) (current_arrangement app))
    as [f |] eqn:Hf.
  - eexists. split; [reflexivity |].
    destruct (arrangement_map_active _ _ _ Hf) as (Hflen & _).
    split.
    + rewrite (apply_arrangement_length _ _ f Hflen).
      cbn [sprites set_draws set_texture_cache set_sprites]. lia.
    + intros i s E. rewrite apply_arrangement_sprites in E.
      cbn [num_sprites sprites draws set_draws set_texture_cache set_sprites] in E.
      destruct (Nat.lt_ge_cases i (num_sprites app)) as [Hi | Hi].
      * rewrite (nth_error_slice_active f _ _ _ Hflen Hi) in E.
        destruct (nth_error (f (firstn (num_sprites app)
                                  (hide_from (num_sprites app) sp1))) i)
          as [r |] eqn:Er; [| discriminate].
        cbn [option_map] in E. injection E as <-.
        assert (Hin : exists s0,
                  nth_error (firstn (num_sprites app)
                               (hide_from (num_sprites app) sp1)) i = Some s0).
        { destruct (nth_error (firstn (num_sprites app)
                                 (hide_from (num_sprites app) sp1)) i) eqn:E1;
            [eauto |].
          apply nth_error_None in E1. rewrite <- Hflen in E1.
          apply nth_error_None in E1. congruence. }
        destruct Hin as (s0 & E1).
        destruct (arrangement_map_keeps_look _ _ f _ i s0 Hf Hi E1)
          as (r' & Er' & _ & _ & Hvr).
        rewrite Er in Er'. injection Er' as <-.
        match goal with
        | |- context [setup_sprite ?d r] =>
            destruct (setup_sprite_transform d r) as (_ & _ & _ & -> & _)
        end.
        rewrite Hvr. symmetry. apply Nat.ltb_lt. exact Hi.
      * rewrite (nth_error_slice_surplus f _ _ _ Hflen Hi) in E.
        destruct (nth_error (hide_from (num_sprites app) sp1) i) as [s0 |] eqn:E0;
          [| discriminate].
        cbn [option_map] in E. injection E as <-.
        match goal with
        | |- context [setup_sprite ?d s0] =>
            destruct (setup_sprite_transform d s0) as (_ & _ & _ & -> & _)
        end.
        apply Hhid. exact E0.
  - eexists. split; [reflexivity |].
    cbn [sprites set_draws set_texture_cache set_sprites].
    split; [lia | exact Hhid].
Qed.

(** X13: loading with a non-empty list of file names grows the pool to
    [num_sprites] sprites if it was shorter, never shrinks it, and leaves
    exactly the sprites with index [< num_sprites] visible, whatever the
    pool held before and whichever arrangement is current. *)
Theorem load_fills_pool :
  forall (app : EmojiApp) (fn : string) (fns : list string),
    get_emoji_filenames_for_set_and_group DEFAULT_EMOJI_SET DEFAULT_EMOJI_GROUP
    = Ok (fn :: fns) ->
    exists app',
      load_and_arrange_emojis app = Ok app'
      /\ List.length (sprites app')
         = Nat.max (List.length (sprites app)) (num_sprites app)
      /\ forall i s, nth_error (sprites app') i = Some s ->
           visible s = (i <? num_sprites app)%nat.
Proof.
  intros app fn fns Hfiles. exact (load_and_arrange_pool app fn fns Hfiles).
Qed.

Lemma load_emoji_texture_existing (cache : list (string * string))
    (filename folder : string) :
  cache_of_existing cache ->
  path_exists (texture_path folder filename) = true ->
  fst (load_emoji_texture cache filename folder) = Some (texture_path folder filename).
Proof.
  intros Hc Hex. unfold load_emoji_texture.
  destruct (cache_lookup cache (texture_path folder filename)) as [v |] eqn:E.
  - destruct (Hc _ _ E) as [-> _]. reflexivity.
  - rewrite Hex. reflexivity.
Qed.

Lemma load_emoji_texture_keeps_existing (cache : list (string * string))
    (filename folder : string) :
  cache_of_existing cache ->
  cache_of_existing (snd (load_emoji_texture cache filename folder)).
Proof.
  intros Hc. unfold load_emoji_texture.
  destruct (cache_lookup cache (texture_path folder filename)) as [v |] eqn:E;
    [exact Hc |].
  destruct (path_exists (texture_path folder filename)) eqn:Hex; [| exact Hc].
  intros k v. cbn [snd cache_lookup].
  destruct (String.eqb_spec (texture_path folder filename) k) as [<- | Hne].
  - intros H. injection H as <-. auto.
  - apply Hc.
Qed.

Lemma load_one_textured (filenames : list string) (i : nat)
    (st : list Sprite * list (string * string) * nat) :
  textured filenames i st -> textured filenames (S i) (load_one filenames i st).
Proof.
  destruct st as [[sp cache] d]. intros (Hlen & Hc & Htex). cbn [fst snd] in *.
  unfold load_one.
  pose proof (load_emoji_texture_keeps_existing cache
                (nth (i mod List.length filenames) filenames EmptyString)
                DEFAULT_RESOLUTION_FOLDER Hc) as Hc'.
  pose proof (load_emoji_texture_existing cache
                (nth (i mod List.length filenames) filenames EmptyString)
                DEFAULT_RESOLUTION_FOLDER Hc) as Hsome.
  destruct (load_emoji_texture cache
              (nth (i mod List.length filenames) filenames EmptyString)
              DEFAULT_RESOLUTION_FOLDER) as [tex cache'].
  cbn [fst snd] in Hc', Hsome.
  replace (i <? List.length sp)%nat with false by (symmetry; apply Nat.ltb_ge; lia).
  destruct (create_emoji_sprite tex d) as [s0 d'] eqn:Ecreate.
  unfold textured. cbn [fst snd].
  split; [rewrite length_app; cbn; lia |]. split; [exact Hc' |].
  intros j s Ej Hj.
  destruct (Nat.lt_ge_cases j (List.length sp)) as [Hlt | Hge].
  - rewrite nth_error_app1 in Ej by exact Hlt. eapply Htex; eassumption.
  - rewrite nth_error_app2 in Ej by exact Hge.
    destruct (j - List.length sp)%nat as [| m] eqn:Em.
    + assert (j = i) by lia. subst j. cbn in Ej. injection Ej as <-.
      specialize (Hsome Hj). subst tex.
      unfold create_emoji_sprite, texture_file, texture_path in Ecreate.
      cbn in Ecreate. injection Ecreate as <- _. split; reflexivity.
    + cbn in Ej. destruct m; discriminate.
Qed.

Lemma load_loop_textured (filenames : list string) (count : nat) :
  forall i st, textured filenames i st ->
    textured filenames (i + count) (load_loop filenames count i st).
Proof.
  induction count as [| k IH]; intros i st H; cbn [load_loop].
  - rewrite Nat.add_0_r. exact H.
  - replace (i + S k)%nat with (S i + k)%nat by lia.
    apply IH. apply load_one_textured. exact H.
Qed.

(** X14: at start-up with a non-empty list of file names, sprite [i] of the
    thirty takes the texture of file [i mod len(filenames)] (the list is
    cycled when it is shorter than the pool); when that file exists the
    sprite carries its path as texture and is white. *)
Theorem startup_textures_wrap_around :
  forall (fn : string) (fns : list string),
    get_emoji_filenames_for_set_and_group DEFAULT_EMOJI_SET DEFAULT_EMOJI_GROUP
    = Ok (fn :: fns) ->
    exists app,
      __init__ = Ok app
      /\ List.length (sprites app) = 30%nat
      /\ forall i, (i < 30)%nat ->
           path_exists (texture_file (fn :: fns) i) = true ->
           exists s, nth_error (sprites app) i = Some s
                     /\ texture s = Some (texture_file (fn :: fns) i)
                     /\ color s = white /\ visible s = true.
Proof.
  intros fn fns Hfiles. unfold __init__.
  destruct (load_and_arrange_pool initial_app fn fns Hfiles) as (app1 & E1 & Hlen & Hvis).
  rewrite E1. cbn [bind]. unfold setup_sprite_initial_states.
  eexists. split; [reflexivity |].
  cbn [sprites set_draws set_sprites]. rewrite enumerate_map_length.
  split; [rewrite Hlen; reflexivity |].
  intros i Hi Hex.
  (* the sprite as the loading loop created it *)
  unfold load_and_arrange_emojis in E1. rewrite Hfiles in E1. cbn [bind] in E1.
  assert (H0 : textured (fn :: fns) 0 ([], texture_cache initial_app, draws initial_app)).
  { unfold textured. cbn [fst snd]. split; [reflexivity |].
    split; [intros k v E; discriminate |]. intros [| j] s E; discriminate. }
  pose proof (load_loop_textured (fn :: fns) (num_sprites initial_app) 0 _ H0) as Hl.
  change (sprites initial_app) with (@nil Sprite) in E1.
  destruct (load_loop (fn :: fns) (num_sprites initial_app) 0
              ([], texture_cache initial_app, draws initial_app))
    as [[sp1 cache1] d1].
  destruct Hl as (Hlen1 & _ & Htex). cbn [fst snd] in Hlen1, Htex.
  change (num_sprites initial_app) with 30%nat in *.
  cbn [num_sprites current_arrangement set_draws set_texture_cache set_sprites
       initial_app] in E1.
  set (f := fun l => arrange_sprites_sphere l 30 3 0.6).
  change (arrangement_map 30 "sphere") with (Some f) in E1.
  injection E1 as <-.
  rewrite nth_error_enumerate_map, apply_arrangement_sprites.
  cbn [num_sprites sprites draws set_draws set_texture_cache set_sprites].
  rewrite (nth_error_slice_active f _ _ _
             (fun l' => enumerate_map_length _ l') Hi).
  unfold f.
  assert (E0 : exists s0, nth_error sp1 i = Some s0).
  { destruct (nth_error sp1 i) eqn:E; [eauto |]. apply nth_error_None in E. lia. }
  destruct E0 as (s0 & E0).
  destruct (Htex i s0 E0 Hex) as (Ht0 & Hc0).
  assert (Hfirst : nth_error (firstn 30 (hide_from 30 sp1)) i = Some s0).
  { rewrite nth_error_firstn. apply Nat.ltb_lt in Hi as Hi'. rewrite Hi'.
    rewrite hide_from_nth, E0. cbn [option_map].
    replace (30 <=? i)%nat with false by (symmetry; apply Nat.leb_gt; exact Hi).
    reflexivity. }
  rewrite (arrange_sprites_sphere_nth _ 30 3 0.6 i s0 Hi Hfirst).
  cbn [option_map]. eexists. split; [reflexivity |].
  repeat match goal with
  | |- context [setup_sprite ?d ?x] =>
      destruct (setup_sprite_transform d x) as (_ & _ & _ & -> & _ & -> & ->)
  end.
  cbn. auto.
Qed.

(** ** What a frame changes *)

Lemma same_but_transform_refl (s : Sprite) : same_but_transform s s.
Proof.
  unfold same_but_transform. destruct s. reflexivity.
Qed.

Lemma same_but_transform_trans (s s1 s2 : Sprite) :
  same_but_transform s s1 -> same_but_transform s1 s2 -> same_but_transform s s2.
Proof.
  unfold same_but_transform. intros H1 H2. rewrite H2. rewrite H1 at 1.
  destruct s. reflexivity.
Qed.

Lemma apply_node_animations_only_transform (app : EmojiApp) (s s1 : Sprite)
    (i : nat) (t dt : R) :
  apply_node_animations app s i t dt = Ok s1 -> same_but_transform s s1.
Proof.
  unfold apply_node_animations, same_but_transform, scale_z.
  destruct (base_position s) as [bp |] eqn:Hbp; cbn [attr bind]; [| discriminate].
  cbn [base_scale_val set_position].
  destruct (base_scale_val s) as [v |] eqn:Hv; cbn [attr bind]; [| discriminate].
  destruct (negb (node_animation_enabled app)
            || String.eqb (node_animation_type app) "none").
  { intros H. injection H as <-. destruct s. reflexivity. }
  cbn [animation_phase_offset set_scale set_position].
  destruct (animation_phase_offset s) as [ph |] eqn:Hph; cbn [attr bind];
    [| discriminate].
  destruct (String.eqb (node_animation_type app) "wave_position").
  { intros H. injection H as <-. destruct s. reflexivity. }
  destruct (String.eqb (node_animation_type app) "wave_zoom").
  { cbn [billboard base_scale set_scale set_position].
    destruct (billboard s) eqn:B.
    - destruct (base_scale s) as [bs |] eqn:Hbs; cbn [attr bind]; [| discriminate].
      intros H. injection H as <-. destruct s. reflexivity.
    - cbn [bind]. intros H. injection H as <-. destruct s. reflexivity. }
  destruct (String.eqb (node_animation_type app) "wave_rotation").
  { cbn [billboard set_scale set_position].
    destruct (billboard s) eqn:B; intros H; injection H as <-; destruct s; reflexivity. }
  intros H. injection H as <-. destruct s. reflexivity.
Qed.

Lemma apply_idle_animations_only_transform (app : EmojiApp) (s s2 : Sprite)
    (t dt : R) :
  apply_idle_animations app s t dt = Ok s2 -> same_but_transform s s2.
Proof.
  unfold apply_idle_animations.
  assert (Hrot : forall s1,
            (if idle_rotation_enabled app
             then factor <- idle_rotation_factor app s t ;;
                  (if billboard s
                   then Ok (add_world_rotation_z s (idle_rotation_speed app * factor * dt))
                   else Ok (add_rotation_y s (idle_rotation_speed app * factor * dt)))
             else Ok s) = Ok s1 -> same_but_transform s s1).
  { intros s1. destruct (idle_rotation_enabled app).
    - destruct (idle_rotation_factor app s t) as [factor | e]; cbn [bind];
        [| discriminate].
      unfold same_but_transform.
      destruct (billboard s); intros H; injection H as <-; destruct s; reflexivity.
    - intros H. injection H as <-. apply same_but_transform_refl. }
  destruct (if idle_rotation_enabled app
            then factor <- idle_rotation_factor app s t ;;
                 (if billboard s
                  then Ok (add_world_rotation_z s (idle_rotation_speed app * factor * dt))
                  else Ok (add_rotation_y s (idle_rotation_speed app * factor * dt)))
            else Ok s) as [s1 | e] eqn:E1; cbn [bind]; [| discriminate].
  specialize (Hrot s1 eq_refl).
  assert (Hzoom : forall x, same_but_transform s (set_scale s1 x)).
  { intros x. apply (same_but_transform_trans s s1); [exact Hrot |].
    unfold same_but_transform. destruct s1. reflexivity. }
  destruct (idle_zoom_enabled app); [| intros H; injection H as <-; exact Hrot].
  destruct (base_scale_val s1) as [bsv |]; [| intros H; injection H as <-; exact Hrot].
  destruct (idle_zoom_val app s1 t) as [zv | e]; cbn [bind]; [| discriminate].
  destruct (scale_z s1 (bsv * zv)) as [z | e]; cbn [bind]; [| discriminate].
  intros H. injection H as <-. apply Hzoom.
Qed.

Lemma update_sprite_only_transform (app : EmojiApp) (s s' : Sprite) (i : nat)
    (t dt : R) :
  update_sprite app t dt i s = Ok s' ->
  same_but_transform s s' /\ (visible s = false -> s' = s).
Proof.
  unfold update_sprite. destruct (visible s).
  - destruct (apply_node_animations app s i t dt) as [s1 | e] eqn:E1; cbn [bind];
      [| discriminate].
    intros E2. split; [| discriminate].
    apply (same_but_transform_trans s s1).
    + apply (apply_node_animations_only_transform app s s1 i t dt E1).
    + apply (apply_idle_animations_only_transform app s1 s' t dt E2).
  - intros H. injection H as <-. split; [apply same_but_transform_refl | reflexivity].
Qed.

Lemma update_sprites_nth (app : EmojiApp) (t dt : R) (l : list Sprite) :
  forall k l',
    update_sprites app t dt k l = Ok l' ->
    List.length l' = List.length l
    /\ forall i s, nth_error l i = Some s ->
         exists s', nth_error l' i = Some s'
                    /\ update_sprite app t dt (k + i) s = Ok s'.
Proof.
  induction l as [| s l IH]; intros k l'; cbn [update_sprites].
  - intros H. injection H as <-. split; [reflexivity |].
    intros [| i] s E; discriminate.
  - destruct (update_sprite app t dt k s) as [s1 | e] eqn:E1; cbn [bind];
      [| discriminate].
    destruct (update_sprites app t dt (S k) l) as [rest | e] eqn:E2; cbn [bind];
      [| discriminate].
    intros H. injection H as <-. destruct (IH (S k) rest E2) as (Hlen & Hnth).
    split; [cbn; lia |].
    intros [| i] s0 E; cbn [nth_error] in *.
    + injection E as <-. exists s1. rewrite Nat.add_0_r. auto.
    + destruct (Hnth i s0 E) as (s' & Es' & Eu). exists s'.
      replace (k + S i)%nat with (S k + i)%nat by lia. auto.
Qed.

(** X15: a frame that returns changes nothing but the render transform:
    every sprite keeps its index and everything except position, rotation
    and scale (texture, colour, visibility, billboard flag, base state and
    phase offset), an invisible sprite is not touched at all, and of the
    application state only the sprite list and the camera yaw can differ;
    the bound shader and its input stay. *)
Theorem frame_touches_only_transforms :
  forall (app app' : EmojiApp) (t dt : R),
    update app t dt = Ok app' ->
    List.length (sprites app') = List.length (sprites app)
    /\ (forall i s, nth_error (sprites app) i = Some s ->
          exists s', nth_error (sprites app') i = Some s'
                     /\ same_but_transform s s'
                     /\ (visible s = false -> s' = s))
    /\ app' = set_camera (set_sprites app (sprites app')) (camera app')
    /\ shader (camera app') = shader (camera app)
    /\ shader_amount (camera app') = shader_amount (camera app).
Proof.
  intros app app' t dt. unfold update.
  destruct (update_sprites app t dt 0 (sprites app)) as [l' | e] eqn:E; cbn [bind];
    [| discriminate].
  destruct (update_sprites_nth app t dt (sprites app) 0 l' E) as (Hlen & Hnth).
  assert (Hsp : forall i s, nth_error (sprites app) i = Some s ->
            exists s', nth_error l' i = Some s'
                       /\ same_but_transform s s' /\ (visible s = false -> s' = s)).
  { intros i s Es. destruct (Hnth i s Es) as (s' & Es' & Eu).
    exists s'. split; [exact Es' |].
    apply (update_sprite_only_transform app s s' (0 + i) t dt Eu). }
  destruct (String.eqb (current_arrangement (set_sprites app l')) "swirl"
            || String.eqb (current_arrangement (set_sprites app l')) "torus"
            || String.eqb (current_arrangement (set_sprites app l')) "sphere");
    intros H; injection H as <-; destruct app; cbn in *; repeat split; auto.
Qed.

Lemma update_camera_yaw (app : EmojiApp) (t dt : R) :
  well_formed (sprites app) ->
  exists app',
    update app t dt = Ok app'
    /\ well_formed (sprites app')
    /\ current_arrangement app' = current_arrangement app
    /\ camera_rotation_y (camera app')
       = camera_rotation_y (camera app) + (if is_3d_arrangement app then dt * 7 else 0).
Proof.
  intros Hwf. unfold update, is_3d_arrangement.
  destruct (update_sprites_ok app t dt (sprites app) Hwf 0) as (l' & -> & Hwf' & _).
  cbn [bind current_arrangement set_sprites].
  destruct (String.eqb (current_arrangement app) "swirl"
            || String.eqb (current_arrangement app) "torus"
            || String.eqb (current_arrangement app) "sphere");
    eexists; (split; [reflexivity |]); cbn; repeat split; auto; lra.
Qed.

(** X16: over any run of frames the camera yaw grows by seven degrees per
    second of frame time while the arrangement is swirl, torus or sphere,
    and does not move in the grid (or with any other arrangement name). *)
Theorem camera_yaw_accumulates :
  forall (frames : list (R * R)) (app : EmojiApp),
    well_formed (sprites app) ->
    exists app',
      run app (frames_events frames) = Ok app'
      /\ current_arrangement app' = current_arrangement app
      /\ camera_rotation_y (camera app')
         = camera_rotation_y (camera app)
           + (if is_3d_arrangement app then 7 * total_dt frames else 0).
Proof.
  induction frames as [| [t dt] frames IH]; intros app Hwf.
  - exists app. split; [reflexivity |]. split; [reflexivity |].
    cbn [total_dt]. destruct (is_3d_arrangement app); lra.
  - destruct (update_camera_yaw app t dt Hwf) as (app1 & E1 & Hwf1 & Ha1 & Hy1).
    destruct (IH app1 Hwf1) as (app2 & E2 & Ha2 & Hy2).
    exists app2. split.
    + cbn [frames_events List.map run step fst snd]. rewrite E1. cbn [bind]. exact E2.
    + split; [congruence |]. rewrite Hy2, Hy1.
      assert (H3 : is_3d_arrangement app1 = is_3d_arrangement app)
        by (unfold is_3d_arrangement; rewrite Ha1; reflexivity).
      rewrite H3. cbn [total_dt snd]. destruct (is_3d_arrangement app); lra.
Qed.

(** ** File names *)

Lemma pieces_of_string (s : ustr) :
  pieces (List.map (fun c => JStr [c]) s)
  = Ok (List.map (fun c => codepoint_piece [c]) s).
Proof.
  induction s as [| c s IH]; [reflexivity |].
  cbn [List.map pieces truthy]. rewrite IH. reflexivity.
Qed.

Lemma emoji_filename_string (s : ustr) :
  emoji_filename (JStr s) = Ok (filename_of_ustr s).
Proof.
  unfold emoji_filename. cbn [iterate bind]. rewrite pieces_of_string. reflexivity.
Qed.

Lemma emoji_filenames_strings (es : list ustr) :
  Forall (fun e => e <> []) es ->
  emoji_filenames (List.map JStr es) = Ok (List.map filename_of_ustr es).
Proof.
  induction 1 as [| e es He _ IH]; [reflexivity |].
  cbn [List.map emoji_filenames truthy].
  destruct e as [| c e]; [contradiction |].
  rewrite emoji_filename_string. cbn [bind]. rewrite IH. reflexivity.
Qed.

(** X17: a string of code points outside the Basic Multilingual Plane is
    named [emoji_u<hex>_<hex>....png]: the pieces are lower-case hexadecimal
    numbers, one per code point and in order, and reading them back gives
    the code points of the string. *)
Theorem astral_filename_round_trip :
  forall s : ustr,
    Forall (fun c => (65536 <= c < 1114112)%N) s ->
    exists ps,
      emoji_filename (JStr s) = Ok ("emoji_u" ++ String.concat "_" ps ++ ".png")%string
      /\ Forall hex_string ps
      /\ List.map hex_value ps = List.map Some s.
Proof.
  intros s Hs. exists (List.map (fun c => codepoint_piece [c]) s).
  split; [apply emoji_filename_string |].
  induction Hs as [| c s Hc _ IH]; [split; [constructor | reflexivity] |].
  destruct IH as (IH1 & IH2).
  destruct (codepoint_piece_astral c Hc) as (_ & Hh & Hv).
  cbn [List.map]. split; [constructor; assumption |]. rewrite Hv, IH2. reflexivity.
Qed.

(** X18: wherever a string has a code point of the Basic Multilingual Plane
    beyond Latin-1 (a variation selector, a zero-width joiner, a heart), the
    piece at that place of the file name is the escape [\u] followed by four
    digits, not the bare hexadecimal number. *)
Theorem bmp_piece_keeps_escape_prefix :
  forall (s : ustr) (i : nat) (c : N),
    nth_error s i = Some c ->
    (256 <= c < 65536)%N ->
    exists ps,
      emoji_filename (JStr s) = Ok ("emoji_u" ++ String.concat "_" ps ++ ".png")%string
      /\ List.length ps = List.length s
      /\ nth_error ps i = Some (String backslash (String "u" (hex_fixed 4 c)))
      /\ hex_value (String backslash (String "u" (hex_fixed 4 c))) = None.
Proof.
  intros s i c E Hc. exists (List.map (fun c => codepoint_piece [c]) s).
  split; [apply emoji_filename_string |].
  split; [apply length_map |].
  destruct (codepoint_piece_bmp c Hc) as (Ep & Hv).
  split; [| rewrite <- Ep; exact Hv].
  rewrite nth_error_map, E. cbn [option_map]. rewrite Ep. reflexivity.
Qed.

Lemma lstrip_space_subset (c : N) (s : ustr) : In c (lstrip_space s) -> In c s.
Proof.
  induction s as [| a s IH]; cbn [lstrip_space]; [auto |].
  destruct (is_space a); [intros H; right; auto | auto].
Qed.

Lemma strip_subset (c : N) (s : ustr) : In c (strip s) -> In c s.
Proof.
  unfold strip. intros H. apply in_rev in H. apply lstrip_space_subset in H.
  apply in_rev in H. apply lstrip_space_subset in H. exact H.
Qed.

Lemma split_semicolon_no_separator (s : ustr) :
  forall (cur p : ustr),
    ~ In 59%N cur -> In p (split_semicolon cur s) -> ~ In 59%N p.
Proof.
  induction s as [| c s IH]; intros cur p Hcur; cbn [split_semicolon].
  - intros [<- | []] H. apply in_rev in H. exact (Hcur H).
  - destruct (N.eqb_spec c 59) as [-> | Hc].
    + intros [<- | H].
      * intros H. apply in_rev in H. exact (Hcur H).
      * apply (IH [] p); [intros [] | exact H].
    + apply IH. intros [H | H]; [exact (Hc H) | exact (Hcur H)].
Qed.

(** X19: a group stored as one semicolon-separated string never raises: the
    result has one file name for each non-blank piece, stripped of
    surrounding white space, in the order of the string. *)
Theorem semicolon_group_names :
  forall (set_filename group_name : string) (d : list (ustr * json)) (s : ustr),
    read_set_file (EMOJI_SET_BASE_PATH ++ set_filename)%string = Ok (JDict d) ->
    dict_get d (ustr_of_string group_name) = JStr s ->
    get_emoji_filenames_for_set_and_group set_filename group_name
    = Ok (List.map filename_of_ustr (group_pieces s))
    /\ Forall (fun e => e <> [] /\ ~ In 59%N e) (group_pieces s).
Proof.
  intros f g d s Hr Hd. split.
  - unfold get_emoji_filenames_for_set_and_group. rewrite Hr.
    unfold filenames_of_data. rewrite Hd. fold (group_pieces s).
    assert (Hne : Forall (fun e : ustr => e <> []) (group_pieces s)).
    { apply Forall_forall. intros e He. apply filter_In in He.
      destruct He as (_ & He). destruct e; [discriminate | discriminate]. }
    destruct (group_pieces s) as [| e es] eqn:Eg; [reflexivity |].
    cbn [List.map truthy iterate bind].
    apply (emoji_filenames_strings (e :: es) Hne).
  - apply Forall_forall. intros e He. unfold group_pieces in He.
    apply filter_In in He. destruct He as (He & Hne).
    apply in_map_iff in He. destruct He as (p & <- & Hp).
    split; [destruct (strip p); [discriminate | discriminate] |].
    intros H59. apply strip_subset in H59.
    revert H59. apply (split_semicolon_no_separator s [] p); [| exact Hp].
    intros [].
Qed.

Lemma emoji_filenames_scalar (l : list json) :
  Exists truthy_scalar l ->
  Forall (fun v => truthy_scalar v \/ exists s, v = JStr s) l ->
  emoji_filenames l = Raise TypeError.
Proof.
  induction l as [| v l IH]; intros Hex Hall; [inversion Hex |].
  inversion Hall as [| v' l' Hv Hl]; subst.
  cbn [emoji_filenames]. destruct Hv as [Hv | (s & ->)].
  - destruct v as [| b | z | x | s | l0 | d0]; cbn in Hv; try contradiction.
    + subst b. reflexivity.
    + cbn [truthy]. destruct (Z.eqb_spec z 0) as [Hz | Hz]; [contradiction |].
      reflexivity.
    + cbn [truthy]. destruct (Req_dec_T x 0) as [Hx | Hx]; [contradiction |].
      reflexivity.
  - assert (Hrest : emoji_filenames l = Raise TypeError).
    { apply IH; [| exact Hl]. inversion Hex as [? ? H | ? ? H]; subst;
        [cbn in H; contradiction | exact H]. }
    destruct (truthy (JStr s)); [| exact Hrest].
    rewrite emoji_filename_string. cbn [bind]. rewrite Hrest. reflexivity.
Qed.

(** X20: the handler of the set file catches only a missing file and
    malformed JSON.  A well-formed file that holds a list of strings with a
    non-zero number (or [true]) among them makes the comprehension raise
    [TypeError], which neither the loader nor start-up catches. *)
Theorem number_in_set_file_raises :
  forall (l : list json),
    read_set_file (EMOJI_SET_BASE_PATH ++ DEFAULT_EMOJI_SET)%string = Ok (JList l) ->
    Exists truthy_scalar l ->
    Forall (fun v => truthy_scalar v \/ exists s, v = JStr s) l ->
    get_emoji_filenames_for_set_and_group DEFAULT_EMOJI_SET DEFAULT_EMOJI_GROUP
    = Raise TypeError
    /\ (forall app, load_and_arrange_emojis app = Raise TypeError)
    /\ __init__ = Raise TypeError.
Proof.
  intros l Hr Hex Hall.
  assert (H : get_emoji_filenames_for_set_and_group DEFAULT_EMOJI_SET DEFAULT_EMOJI_GROUP
              = Raise TypeError).
  { unfold get_emoji_filenames_for_set_and_group. rewrite Hr.
    unfold filenames_of_data.
    destruct l as [| v l]; [inversion Hex |].
    cbn [truthy iterate bind]. apply emoji_filenames_scalar; assumption. }
  split; [exact H |].
  assert (H2 : forall app, load_and_arrange_emojis app = Raise TypeError).
  { intros app. unfold load_and_arrange_emojis. rewrite H. reflexivity. }
  split; [exact H2 |]. unfold __init__. rewrite H2. reflexivity.
Qed.

(** ** Post-process shaders *)

(** X21: the grayscale program writes the same value to the three colour
    channels (a weighted mean of the input channels, the weights summing to
    one) with alpha one.  So a gray input comes out unchanged, running the
    program on its own output changes nothing, and channels inside [0, 1]
    give a value inside [0, 1]. *)
Theorem grayscale_is_projection_onto_grays :
  forall color : Vec3,
    let out := fst (grayscale_shader_frag color) in
    vx out = vy out /\ vy out = vz out
    /\ snd (grayscale_shader_frag color) = 1
    /\ grayscale_shader_frag out = grayscale_shader_frag color
    /\ (vx color = vy color -> vy color = vz color -> out = color)
    /\ (0 <= vx color <= 1 -> 0 <= vy color <= 1 -> 0 <= vz color <= 1 ->
        0 <= vx out <= 1).
Proof.
  intros [r g b]. unfold grayscale_shader_frag, dot. cbn [fst snd vx vy vz].
  split; [reflexivity |]. split; [reflexivity |]. split; [lra |].
  split; [f_equal; f_equal; lra |].
  split; [intros <- <-; f_equal; lra |].
  intros Hr Hg Hb. lra.
Qed.

(** X22: the sepia program blends the input colour with its sepia tone by
    [amount]: for an amount inside [0, 1] and channels that are not negative
    no channel of the result is negative, amount 0 gives the input colour
    back, and at amount 1 the channels are ordered red >= green >= blue.
    Each channel moves away from the input by [amount] times the distance
    of the sepia tone; with channels up to 1 the red channel can reach
    [1 + 0.351 * amount], which is above one. *)
Theorem sepia_blends_towards_tone :
  forall (amount : R) (color : Vec3),
    0 <= amount <= 1 ->
    0 <= vx color -> 0 <= vy color -> 0 <= vz color ->
    let out := fst (sepia_shader_frag amount color) in
    0 <= vx out /\ 0 <= vy out /\ 0 <= vz out
    /\ snd (sepia_shader_frag amount color) = 1
    /\ (amount = 0 -> out = color)
    /\ (amount = 1 -> out = sepia_color color /\ vz out <= vy out <= vx out)
    /\ vx out - vx color = amount * (vx (sepia_color color) - vx color)
    /\ (vx color <= 1 -> vy color <= 1 -> vz color <= 1 ->
        vx out <= 1 + 0.351 * amount).
Proof.
  intros a [r g b]. cbn [vx vy vz]. intros Ha Hr Hg Hb.
  unfold sepia_shader_frag, sepia_color, mix, dot. cbn [fst snd vx vy vz].
  assert (Hra : 0 <= r * a) by (apply Rmult_le_pos; lra).
  assert (Hga : 0 <= g * a) by (apply Rmult_le_pos; lra).
  assert (Hba : 0 <= b * a) by (apply Rmult_le_pos; lra).
  assert (Hr1 : 0 <= r * (1 - a)) by (apply Rmult_le_pos; lra).
  assert (Hg1 : 0 <= g * (1 - a)) by (apply Rmult_le_pos; lra).
  assert (Hb1 : 0 <= b * (1 - a)) by (apply Rmult_le_pos; lra).
  split; [nra |]. split; [nra |]. split; [nra |]. split; [lra |].
  split; [intros ->; f_equal; lra |].
  split; [intros ->; split; [f_equal; lra | lra] |].
  split; [lra |].
  intros Hr' Hg' Hb'.
  assert (H1 : r * (1 - a) <= 1 * (1 - a)) by (apply Rmult_le_compat_r; lra).
  assert (H2 : r * a <= 1 * a) by (apply Rmult_le_compat_r; lra).
  assert (H3 : g * a <= 1 * a) by (apply Rmult_le_compat_r; lra).
  assert (H4 : b * a <= 1 * a) by (apply Rmult_le_compat_r; lra).
  nra.
Qed.

(** ** Arrangement keys *)

Lemma arrangement_map_keeps_look_of (n : nat) (arrangement_name : string)
    (f : list Sprite -> list Sprite) (l : list Sprite) (i : nat) (s : Sprite) :
  arrangement_map n arrangement_name = Some f ->
  (i < n)%nat ->
  nth_error l i = Some s ->
  exists r,
    nth_error (f l) i = Some r
    /\ texture r = texture s /\ color r = color s
    /\ visible r = true
    /\ billboard r = String.eqb arrangement_name "grid".
Proof.
  unfold arrangement_map. intros H Hi E.
  destruct (String.eqb arrangement_name "grid").
  { assert (Hf : f = fun l => arrange_sprites_grid l 5 (ceil_div n 5) 1.2 1)
      by congruence.
    subst f. clear H. cbn beta.
    rewrite arrange_sprites_grid_nth by lia. rewrite E. cbn [option_map].
    pose proof (ceil_div_covers n 5) as Hcov.
    replace (i <? ceil_div n 5 * 5)%nat with true by (symmetry; apply Nat.ltb_lt; lia).
    eexists. split; [reflexivity |]. cbn. repeat split; reflexivity. }
  assert (H3d : forall pos sc tg,
            exists r,
              nth_error
                (enumerate_map (fun j sprite =>
                   if (j <? n)%nat then _arrange_3d_pattern sprite (pos j) sc (tg j)
                   else set_visible sprite false) l) i = Some r
              /\ texture r = texture s /\ color r = color s
              /\ visible r = true /\ billboard r = false).
  { intros pos sc tg. rewrite (enumerate_3d_nth n pos sc tg l i s E).
    replace (i <? n)%nat with true by (symmetry; apply Nat.ltb_lt; lia).
    eexists. split; [reflexivity |]. cbn. repeat split; reflexivity. }
  destruct (String.eqb arrangement_name "swirl");
    [injection H as <-; unfold arrange_sprites_swirl; apply H3d |].
  destruct (String.eqb arrangement_name "torus");
    [injection H as <-; unfold arrange_sprites_torus; apply H3d |].
  destruct (String.eqb arrangement_name "sphere"); [| discriminate].
  injection H as <-. unfold arrange_sprites_sphere. apply H3d.
Qed.

(** What a layout pass leaves on every sprite of the pool. *)
Lemma apply_arrangement_sprite_facts (app : EmojiApp) (name : string)
    (f : list Sprite -> list Sprite) (i : nat) (s : Sprite) :
  arrangement_map (num_sprites app) name = Some f ->
  nth_error (sprites app) i = Some s ->
  exists s',
    nth_error (sprites (_apply_arrangement_and_setup_state app name f)) i = Some s'
    /\ texture s' = texture s /\ color s' = color s
    /\ base_position s' = Some (position s')
    /\ base_scale s' = Some (scale s')
    /\ base_rotation_z s' = Some (world_rotation_z s')
    /\ (exists v, base_scale_val s' = Some v)
    /\ animation_phase_offset s' = Some (uniform_draw (draws app + i))
    /\ ((i < num_sprites app)%nat ->
        visible s' = true
        /\ billboard s' = String.eqb name "grid"
        /\ position s' = layout_position (num_sprites app) name i
        /\ scale s' = uniform (layout_scale name)
        /\ base_scale_val s' = Some (layout_scale name)
        /\ (name = "grid" -> rotation s' = vec_zero))
    /\ ((num_sprites app <= i)%nat ->
        visible s' = visible s /\ position s' = position s
        /\ scale s' = scale s /\ rotation s' = rotation s).
Proof.
  intros Hf E.
  destruct (arrangement_map_active (num_sprites app) name f Hf) as (Hlen & _).
  rewrite apply_arrangement_sprites.
  destruct (Nat.lt_ge_cases i (num_sprites app)) as [Hi | Hi].
  - rewrite (nth_error_slice_active f (sprites app) (num_sprites app) i Hlen Hi).
    assert (E1 : nth_error (firstn (num_sprites app) (sprites app)) i = Some s)
      by (rewrite nth_error_firstn; replace (i <? num_sprites app)%nat with true
            by (symmetry; apply Nat.ltb_lt; lia); exact E).
    destruct (arrangement_map_keeps_look_of (num_sprites app) name f _ i s Hf Hi E1)
      as (r & Er & Ht & Hc & Hv & Hb).
    destruct (arrangement_map_layout (num_sprites app) name f _ i s Hf Hi E1)
      as (r' & Er' & (Pp & Ps & Pv & Pr)).
    rewrite Er in Er'. injection Er' as <-. rewrite Er.
    cbn [option_map]. eexists. split; [reflexivity |].
    destruct (setup_sprite_transform (uniform_draw (draws app + i)) r)
      as (Hp' & Hr' & Hs' & Hv' & Hb' & Hc' & Ht').
    destruct (setup_sprite_base (uniform_draw (draws app + i)) r)
      as (Bp & Bs & Bz & Bph & Bv).
    unfold world_rotation_z.
    rewrite Ht', Hc', Bp, Bs, Bz, Bph, Bv, Hp', Hs', Hv', Hb', Hr', Pv.
    split; [exact Ht |]. split; [exact Hc |].
    split; [reflexivity |]. split; [reflexivity |]. split; [reflexivity |].
    split; [eexists; reflexivity |]. split; [reflexivity |].
    split; [| intros Hge; lia].
    intros _. split; [exact Hv |]. split; [exact Hb |].
    split; [exact Pp |]. split; [exact Ps |]. split; [reflexivity |].
    intros ->. exact Pr.
  - rewrite (nth_error_slice_surplus f (sprites app) (num_sprites app) i Hlen Hi), E.
    cbn [option_map]. eexists. split; [reflexivity |].
    destruct (setup_sprite_transform (uniform_draw (draws app + i)) s)
      as (Hp' & Hr' & Hs' & Hv' & Hb' & Hc' & Ht').
    destruct (setup_sprite_base (uniform_draw (draws app + i)) s)
      as (Bp & Bs & Bz & Bph & Bv).
    unfold world_rotation_z.
    rewrite Ht', Hc', Bp, Bs, Bz, Bph, Bv, Hp', Hs', Hv', Hr'.
    split; [reflexivity |]. split; [reflexivity |].
    split; [reflexivity |]. split; [reflexivity |]. split; [reflexivity |].
    split; [destruct (base_scale_val s); eexists; reflexivity |].
    split; [reflexivity |].
    split; [intros Hlt; lia |].
    intros _. repeat split; reflexivity.
Qed.

(** X23: the key 1 switches to the grid, 2 to the swirl, 3 to the torus
    and 4 to the sphere, each with the arguments of its table entry.  The
    press never raises; it keeps the number of sprites, every sprite's
    texture and colour and the camera; it puts every active sprite at the
    place and scale the arrangement fixes for its index, visible, a
    billboard with zero rotation in the grid and not a billboard in the
    three 3D patterns; it takes the new position, scale and Z rotation of
    every sprite as its base values and draws a fresh phase offset for every
    sprite of the pool. *)
Theorem arrangement_key_switches_layout :
  forall (app : EmojiApp) (key : string),
    In key ["1"; "2"; "3"; "4"] ->
    exists app',
      input app key = Ok app'
      /\ (key = "1" ->
          current_arrangement app' = "grid"
          /\ app' = _apply_arrangement_and_setup_state app "grid"
                      (fun l => arrange_sprites_grid l 5 (ceil_div (num_sprites app) 5)
                                  1.2 1))
      /\ (key = "2" ->
          current_arrangement app' = "swirl"
          /\ app' = _apply_arrangement_and_setup_state app "swirl"
                      (fun l => arrange_sprites_swirl l (num_sprites app) 3 3 5 0.7))
      /\ (key = "3" ->
          current_arrangement app' = "torus"
          /\ app' = _apply_arrangement_and_setup_state app "torus"
                      (fun l => arrange_sprites_torus l (num_sprites app) 3 1 0.5))
      /\ (key = "4" ->
          current_arrangement app' = "sphere"
          /\ app' = _apply_arrangement_and_setup_state app "sphere"
                      (fun l => arrange_sprites_sphere l (num_sprites app) 3 0.6))
      /\ current_arrangement app' = key_arrangement key
      /\ List.length (sprites app') = List.length (sprites app)
      /\ draws app' = (draws app + List.length (sprites app))%nat
      /\ camera app' = camera app
      /\ forall i s, nth_error (sprites app) i = Some s ->
           exists s',
             nth_error (sprites app') i = Some s'
             /\ texture s' = texture s /\ color s' = color s
             /\ base_position s' = Some (position s')
             /\ base_scale s' = Some (scale s')
             /\ base_rotation_z s' = Some (world_rotation_z s')
             /\ (exists v, base_scale_val s' = Some v)
             /\ animation_phase_offset s' = Some (uniform_draw (draws app + i))
             /\ ((i < num_sprites app)%nat ->
                 visible s' = true
                 /\ billboard s' = String.eqb key "1"
                 /\ position s'
                    = layout_position (num_sprites app) (key_arrangement key) i
                 /\ scale s' = uniform (layout_scale (key_arrangement key))
                 /\ base_scale_val s' = Some (layout_scale (key_arrangement key))
                 /\ (key = "1" -> rotation s' = vec_zero))
             /\ ((num_sprites app <= i)%nat ->
                 visible s' = visible s /\ position s' = position s
                 /\ scale s' = scale s /\ rotation s' = rotation s).
Proof.
  intros app key Hkey.
  assert (Hgen : forall name f,
            arrangement_map (num_sprites app) name = Some f ->
            List.length (sprites (_apply_arrangement_and_setup_state app name f))
            = List.length (sprites app)
            /\ draws (_apply_arrangement_and_setup_state app name f)
               = (draws app + List.length (sprites app))%nat
            /\ camera (_apply_arrangement_and_setup_state app name f) = camera app).
  { intros name f Hf.
    destruct (arrangement_map_active (num_sprites app) name f Hf) as (Hlen & _).
    split; [apply apply_arrangement_length; exact Hlen |].
    split; [| apply (apply_arrangement_keeps_post_process app name f)].
    unfold _apply_arrangement_and_setup_state, setup_sprite_initial_states. cbn.
    rewrite length_app, Hlen, <- length_app, firstn_skipn. reflexivity. }
  cbn [In] in Hkey. destruct Hkey as [<- | [<- | [<- | [<- | []]]]].
  - destruct (Hgen "grid" _ eq_refl) as (Hl & Hd & Hc).
    eexists. split; [reflexivity |].
    split; [intros _; split; reflexivity |].
    split; [discriminate |]. split; [discriminate |]. split; [discriminate |].
    split; [reflexivity |]. split; [exact Hl |]. split; [exact Hd |].
    split; [exact Hc |].
    intros i s E.
    destruct (apply_arrangement_sprite_facts app "grid" _ i s eq_refl E)
      as (s' & Es & Ht & Hco & Bp & Bs & Bz & Bv & Bph & Ha & Hs).
    exists s'. split; [exact Es |]. split; [exact Ht |]. split; [exact Hco |].
    split; [exact Bp |]. split; [exact Bs |]. split; [exact Bz |]. split; [exact Bv |].
    split; [exact Bph |]. split; [| exact Hs].
    intros Hi. destruct (Ha Hi) as (A1 & A2 & A3 & A4 & A5 & A6).
    split; [exact A1 |]. split; [exact A2 |]. split; [exact A3 |]. split; [exact A4 |].
    split; [exact A5 |]. intros _. apply A6. reflexivity.
  - destruct (Hgen "swirl" _ eq_refl) as (Hl & Hd & Hc).
    eexists. split; [reflexivity |].
    split; [discriminate |].
    split; [intros _; split; reflexivity |].
    split; [discriminate |]. split; [discriminate |].
    split; [reflexivity |]. split; [exact Hl |]. split; [exact Hd |].
    split; [exact Hc |].
    intros i s E.
    destruct (apply_arrangement_sprite_facts app "swirl" _ i s eq_refl E)
      as (s' & Es & Ht & Hco & Bp & Bs & Bz & Bv & Bph & Ha & Hs).
    exists s'. split; [exact Es |]. split; [exact Ht |]. split; [exact Hco |].
    split; [exact Bp |]. split; [exact Bs |]. split; [exact Bz |]. split; [exact Bv |].
    split; [exact Bph |]. split; [| exact Hs].
    intros Hi. destruct (Ha Hi) as (A1 & A2 & A3 & A4 & A5 & A6).
    split; [exact A1 |]. split; [exact A2 |]. split; [exact A3 |]. split; [exact A4 |].
    split; [exact A5 |]. discriminate.
  - destruct (Hgen "torus" _ eq_refl) as (Hl & Hd & Hc).
    eexists. split; [reflexivity |].
    split; [discriminate |]. split; [discriminate |].
    split; [intros _; split; reflexivity |].
    split; [discriminate |].
    split; [reflexivity |]. split; [exact Hl |]. split; [exact Hd |].
    split; [exact Hc |].
    intros i s E.
    destruct (apply_arrangement_sprite_facts app "torus" _ i s eq_refl E)
      as (s' & Es & Ht & Hco & Bp & Bs & Bz & Bv & Bph & Ha & Hs).
    exists s'. split; [exact Es |]. split; [exact Ht |]. split; [exact Hco |].
    split; [exact Bp |]. split; [exact Bs |]. split; [exact Bz |]. split; [exact Bv |].
    split; [exact Bph |]. split; [| exact Hs].
    intros Hi. destruct (Ha Hi) as (A1 & A2 & A3 & A4 & A5 & A6).
    split; [exact A1 |]. split; [exact A2 |]. split; [exact A3 |]. split; [exact A4 |].
    split; [exact A5 |]. discriminate.
  - destruct (Hgen "sphere" _ eq_refl) as (Hl & Hd & Hc).
    eexists. split; [reflexivity |].
    split; [discriminate |]. split; [discriminate |]. split; [discriminate |].
    split; [intros _; split; reflexivity |].
    split; [reflexivity |]. split; [exact Hl |]. split; [exact Hd |].
    split; [exact Hc |].
    intros i s E.
    destruct (apply_arrangement_sprite_facts app "sphere" _ i s eq_refl E)
      as (s' & Es & Ht & Hco & Bp & Bs & Bz & Bv & Bph & Ha & Hs).
    exists s'. split; [exact Es |]. split; [exact Ht |]. split; [exact Hco |].
    split; [exact Bp |]. split; [exact Bs |]. split; [exact Bz |]. split; [exact Bv |].
    split; [exact Bph |]. split; [| exact Hs].
    intros Hi. destruct (Ha Hi) as (A1 & A2 & A3 & A4 & A5 & A6).
    split; [exact A1 |]. split; [exact A2 |]. split; [exact A3 |]. split; [exact A4 |].
    split; [exact A5 |]. discriminate.
Qed.

(** ** What keys and frames never change *)

Lemma same_pool_refl (app : EmojiApp) : same_pool app app.
Proof.
  unfold same_pool. repeat split; try reflexivity.
  intros i s E. exists s. auto.
Qed.

Lemma same_pool_trans (a b c : EmojiApp) :
  same_pool a b -> same_pool b c -> same_pool a c.
Proof.
  intros (Hn1 & Hl1 & Hc1 & Hs1) (Hn2 & Hl2 & Hc2 & Hs2).
  unfold same_pool. repeat split; try congruence.
  intros i s E. destruct (Hs1 i s E) as (s1 & E1 & Ht1 & Hco1).
  destruct (Hs2 i s1 E1) as (s2 & E2 & Ht2 & Hco2).
  exists s2. repeat split; congruence.
Qed.

Lemma same_pool_sprites (app app' : EmojiApp) :
  num_sprites app' = num_sprites app ->
  texture_cache app' = texture_cache app ->
  sprites app' = sprites app ->
  same_pool app app'.
Proof.
  intros Hn Hc Hs. unfold same_pool. rewrite Hn, Hc, Hs. repeat split.
  intros i s E. exists s. auto.
Qed.

Lemma apply_arrangement_same_pool (app : EmojiApp) (nm : string)
    (f : list Sprite -> list Sprite) :
  arrangement_map (num_sprites app) nm = Some f ->
  same_pool app (_apply_arrangement_and_setup_state app nm f).
Proof.
  intros Hf.
  destruct (arrangement_map_active (num_sprites app) nm f Hf) as (Hlen & _).
  unfold same_pool.
  split; [unfold _apply_arrangement_and_setup_state, setup_sprite_initial_states;
          reflexivity |].
  split; [apply apply_arrangement_length; exact Hlen |].
  split; [unfold _apply_arrangement_and_setup_state, setup_sprite_initial_states;
          reflexivity |].
  intros i s E. rewrite apply_arrangement_sprites.
  destruct (Nat.lt_ge_cases i (num_sprites app)) as [Hi | Hi].
  - rewrite (nth_error_slice_active f (sprites app) (num_sprites app) i Hlen Hi).
    assert (E1 : nth_error (firstn (num_sprites app) (sprites app)) i = Some s)
      by (rewrite nth_error_firstn; replace (i <? num_sprites app)%nat with true
            by (symmetry; apply Nat.ltb_lt; lia); exact E).
    destruct (arrangement_map_keeps_look (num_sprites app) nm f _ i s Hf Hi E1)
      as (r & -> & Hc & Ht & _).
    cbn [option_map]. eexists. split; [reflexivity |].
    destruct (setup_sprite_transform (uniform_draw (draws app + i)) r)
      as (_ & _ & _ & _ & _ & Hc' & Ht').
    split; congruence.
  - rewrite (nth_error_slice_surplus f (sprites app) (num_sprites app) i Hlen Hi), E.
    cbn [option_map]. eexists. split; [reflexivity |].
    destruct (setup_sprite_transform (uniform_draw (draws app + i)) s)
      as (_ & _ & _ & _ & _ & Hc' & Ht').
    split; assumption.
Qed.

Lemma input_same_pool (app app' : EmojiApp) (key : string) :
  input app key = Ok app' -> same_pool app app'.
Proof.
  unfold input, arrangement_of_key.
  destruct (arrangement_key key) as [nm |].
  { destruct (arrangement_map (num_sprites app) nm) as [f |] eqn:Hf.
    - intros H. injection H as <-. apply apply_arrangement_same_pool. exact Hf.
    - repeat case_eqb;
        try (intros H; injection H as <-; apply same_pool_sprites;
             first [reflexivity
                   | unfold apply_post_processing;
                     repeat match goal with
                            | |- context [if ?b then _ else _] => destruct b
                            end; reflexivity]).
      destruct (index_of patterns (node_animation_type app)); cbn [bind];
        [| discriminate].
      intros H; injection H as <-; apply same_pool_sprites; reflexivity. }
  repeat case_eqb;
    try (intros H; injection H as <-; apply same_pool_sprites;
         first [reflexivity
               | unfold apply_post_processing;
                 repeat match goal with
                        | |- context [if ?b then _ else _] => destruct b
                        end; reflexivity]).
  destruct (index_of patterns (node_animation_type app)); cbn [bind];
    [| discriminate].
  intros H; injection H as <-; apply same_pool_sprites; reflexivity.
Qed.

Lemma update_same_pool (app app' : EmojiApp) (t dt : R) :
  update app t dt = Ok app' -> same_pool app app'.
Proof.
  unfold update.
  destruct (update_sprites app t dt 0 (sprites app)) as [l' | e] eqn:E; cbn [bind];
    [| discriminate].
  destruct (update_sprites_nth app t dt (sprites app) 0 l' E) as (Hlen & Hnth).
  assert (Hsp : forall i s, nth_error (sprites app) i = Some s ->
            exists s', nth_error l' i = Some s'
                       /\ texture s' = texture s /\ color s' = color s).
  { intros i s Es. destruct (Hnth i s Es) as (s' & Es' & Eu).
    exists s'. split; [exact Es' |].
    destruct (update_sprite_only_transform app s s' (0 + i) t dt Eu) as (Hsame & _).
    unfold same_but_transform in Hsame. rewrite Hsame. destruct s. split; reflexivity. }
  destruct (String.eqb (current_arrangement (set_sprites app l')) "swirl"
            || String.eqb (current_arrangement (set_sprites app l')) "torus"
            || String.eqb (current_arrangement (set_sprites app l')) "sphere");
    intros H; injection H as <-; unfold same_pool; cbn; repeat split; auto.
Qed.

(** X24: which emoji a sprite shows is decided when it is loaded: no
    sequence of keys and frames that returns changes the number of sprites,
    the active count, the texture cache, or the texture and colour of any
    sprite. *)
Theorem events_keep_emoji_assignment :
  forall (events : list event) (app app' : EmojiApp),
    run app events = Ok app' ->
    num_sprites app' = num_sprites app
    /\ List.length (sprites app') = List.length (sprites app)
    /\ texture_cache app' = texture_cache app
    /\ forall i s, nth_error (sprites app) i = Some s ->
         exists s', nth_error (sprites app') i = Some s'
                    /\ texture s' = texture s /\ color s' = color s.
Proof.
  intros events app app' H. change (same_pool app app').
  revert app H. induction events as [| e events IH]; intros app; cbn [run].
  - intros H. injection H as <-. apply same_pool_refl.
  - destruct (step app e) as [app1 | ex] eqn:E1; cbn [bind]; [| discriminate].
    intros H. apply (same_pool_trans app app1 app'); [| apply IH; exact H].
    destruct e as [key | t dt]; cbn [step] in E1;
      [apply (input_same_pool app app1 key E1)
      | apply (update_same_pool app app1 t dt E1)].
Qed.

(** ** Rotation drift *)

Lemma abs_sine_le_1 (x : R) : Rabs (sin x) <= 1.
Proof.
  pose proof (SIN_bound x) as [H1 H2]. apply Rabs_le. lra.
Qed.

Lemma node_rotation_delta_bound (app : EmojiApp) (i : nat) (t dt ph : R) :
  Rabs (node_rotation_delta app i t dt ph)
  <= 30 * Rabs (node_anim_amplitude app) * Rabs dt.
Proof.
  assert (H0 : 0 <= 30 * Rabs (node_anim_amplitude app) * Rabs dt).
  { pose proof (Rabs_pos (node_anim_amplitude app)).
    pose proof (Rabs_pos dt). apply Rmult_le_pos; [lra | assumption]. }
  unfold node_rotation_delta.
  destruct (negb (node_animation_enabled app)
            || String.eqb (node_animation_type app) "none");
    [rewrite Rabs_R0; exact H0 |].
  destruct (String.eqb (node_animation_type app) "wave_position");
    [rewrite Rabs_R0; exact H0 |].
  destruct (String.eqb (node_animation_type app) "wave_zoom");
    [rewrite Rabs_R0; exact H0 |].
  destruct (String.eqb (node_animation_type app) "wave_rotation");
    [| rewrite Rabs_R0; exact H0].
  rewrite !Rabs_mult. rewrite (Rabs_pos_eq 30) by lra.
  pose proof (abs_sine_le_1 (INR i * node_anim_frequency app
                             + t * node_anim_speed app * 2.0 + ph)) as Hs.
  pose proof (Rabs_pos (sin (INR i * node_anim_frequency app
                             + t * node_anim_speed app * 2.0 + ph))) as Hs0.
  pose proof (Rabs_pos (node_anim_amplitude app)) as Ha.
  pose proof (Rabs_pos dt) as Hd.
  assert (Had : 0 <= Rabs (node_anim_amplitude app) * Rabs dt)
    by (apply Rmult_le_pos; assumption).
  nra.
Qed.

Lemma idle_rotation_delta_bound (app : EmojiApp) (t dt ph : R) :
  Rabs (idle_rotation_delta app t dt ph) <= Rabs (idle_rotation_speed app) * Rabs dt.
Proof.
  pose proof (Rabs_pos (idle_rotation_speed app)) as Hsp.
  pose proof (Rabs_pos dt) as Hd.
  assert (H0 : 0 <= Rabs (idle_rotation_speed app) * Rabs dt)
    by (apply Rmult_le_pos; assumption).
  unfold idle_rotation_delta.
  destruct (idle_rotation_enabled app); [| rewrite Rabs_R0; exact H0].
  rewrite !Rabs_mult.
  set (x := t * idle_zoom_speed_factor app + ph).
  assert (Hf : Rabs (if String.eqb (idle_rotation_pattern app) "sin" then sin x
                     else if String.eqb (idle_rotation_pattern app) "pulse"
                     then Rabs (sin x)
                     else if String.eqb (idle_rotation_pattern app) "ramp"
                     then (sin x + 1) / 2.0
                     else 1.0) <= 1).
  { pose proof (SIN_bound x) as [H1 H2]. pose proof (abs_sine_le_1 x) as H3.
    repeat case_eqb.
    - exact H3.
    - rewrite Rabs_Rabsolu. exact H3.
    - apply Rabs_le. lra.
    - apply Rabs_le. lra. }
  pose proof (Rabs_pos (if String.eqb (idle_rotation_pattern app) "sin" then sin x
                        else if String.eqb (idle_rotation_pattern app) "pulse"
                        then Rabs (sin x)
                        else if String.eqb (idle_rotation_pattern app) "ramp"
                        then (sin x + 1) / 2.0
                        else 1.0)) as Hf0.
  nra.
Qed.

(** X25: one frame turns a visible sprite by at most
    [(30*|node amplitude| + |idle speed|) * |dt|] degrees, about Z when it
    is a billboard and about Y when it is not; the pitch (X) and the other
    of the two axes keep their values. *)
Theorem frame_rotation_drift_bounded :
  forall (app : EmojiApp) (s : Sprite) (i : nat) (t dt : R)
         (bp : Vec3) (v : R) (bs : Vec3) (ph : R),
    has_base_state s bp v bs ph ->
    visible s = true ->
    exists s',
      update_sprite app t dt i s = Ok s'
      /\ vx (rotation s') = vx (rotation s)
      /\ (if billboard s
          then vy (rotation s') = vy (rotation s)
               /\ Rabs (vz (rotation s') - vz (rotation s))
                  <= (30 * Rabs (node_anim_amplitude app)
                      + Rabs (idle_rotation_speed app)) * Rabs dt
          else vz (rotation s') = vz (rotation s)
               /\ Rabs (vy (rotation s') - vy (rotation s))
                  <= (30 * Rabs (node_anim_amplitude app)
                      + Rabs (idle_rotation_speed app)) * Rabs dt).
Proof.
  intros app s i t dt bp v bs ph Hb Hvis.
  destruct (update_sprite_ok app s i t dt bp v bs ph Hb Hvis)
    as (s' & E & _ & _ & _ & Hrot & _).
  exists s'. split; [exact E |]. rewrite Hrot.
  pose proof (node_rotation_delta_bound app i t dt ph) as Hn.
  pose proof (idle_rotation_delta_bound app t dt ph) as Hi.
  pose proof (Rabs_triang (node_rotation_delta app i t dt ph)
                (idle_rotation_delta app t dt ph)) as Ht.
  unfold spin. destruct (billboard s); cbn [vx vy vz];
    (split; [reflexivity |]); (split; [reflexivity |]).
  - replace (vz (rotation s)
             + (node_rotation_delta app i t dt ph + idle_rotation_delta app t dt ph)
             - vz (rotation s))
      with (node_rotation_delta app i t dt ph + idle_rotation_delta app t dt ph)
      by ring.
    lra.
  - replace (vy (rotation s)
             + (node_rotation_delta app i t dt ph + idle_rotation_delta app t dt ph)
             - vy (rotation s))
      with (node_rotation_delta app i t dt ph + idle_rotation_delta app t dt ph)
      by ring.
    lra.
Qed.

(** ** The stored base rotation *)

Lemma apply_node_animations_ignores_base_rotation (app : EmojiApp) (s : Sprite)
    (i : nat) (t dt x : R) :
  apply_node_animations app (set_base_rotation_z s x) i t dt
  = match apply_node_animations app s i t dt with
    | Ok s1 => Ok (set_base_rotation_z s1 x)
    | Raise e => Raise e
    end.
Proof.
  unfold apply_node_animations, scale_z.
  destruct s as [nm tx co po ro sc vi bi ds bsv bs bp brz ph].
  cbn [set_base_rotation_z base_position base_scale_val animation_phase_offset
       base_scale billboard set_position set_scale name texture color position
       rotation scale visible double_sided base_rotation_z attr bind
       add_world_rotation_z add_rotation_y world_rotation_z set_rotation].
  destruct bp as [bp |]; cbn [attr bind]; [| reflexivity].
  destruct bsv as [bsv |]; cbn [attr bind]; [| reflexivity].
  destruct (negb (node_animation_enabled app)
            || String.eqb (node_animation_type app) "none"); [reflexivity |].
  destruct ph as [ph |]; cbn [attr bind]; [| reflexivity].
  destruct (String.eqb (node_animation_type app) "wave_position"); [reflexivity |].
  destruct (String.eqb (node_animation_type app) "wave_zoom").
  { destruct bi; [destruct bs as [bs |] |]; reflexivity. }
  destruct (String.eqb (node_animation_type app) "wave_rotation"); [| reflexivity].
  destruct bi; reflexivity.
Qed.

Lemma apply_idle_animations_ignores_base_rotation (app : EmojiApp) (s : Sprite)
    (t dt x : R) :
  apply_idle_animations app (set_base_rotation_z s x) t dt
  = match apply_idle_animations app s t dt with
    | Ok s1 => Ok (set_base_rotation_z s1 x)
    | Raise e => Raise e
    end.
Proof.
  unfold apply_idle_animations, idle_rotation_factor, idle_zoom_val, scale_z.
  destruct s as [nm tx co po ro sc vi bi ds bsv bs bp brz ph].
  cbn [set_base_rotation_z base_position base_scale_val animation_phase_offset
       base_scale billboard set_position set_scale name texture color position
       rotation scale visible double_sided base_rotation_z
       add_world_rotation_z add_rotation_y world_rotation_z set_rotation].
  destruct (idle_rotation_enabled app), (idle_zoom_enabled app),
    (String.eqb (idle_rotation_pattern app) "sin"),
    (String.eqb (idle_rotation_pattern app) "pulse"),
    (String.eqb (idle_rotation_pattern app) "ramp"),
    (String.eqb (idle_zoom_pattern app) "sin"),
    (String.eqb (idle_zoom_pattern app) "pulse"),
    (String.eqb (idle_zoom_pattern app) "ramp"),
    ph as [ph |], bi, bsv as [bsv |], bs as [bs |]; reflexivity.
Qed.

(** X26: the compositor never reads [base_rotation_z]: a frame treats a
    sprite whose stored base rotation has been replaced by any other value
    exactly as it treats the sprite itself, result and exception alike, and
    hands the replaced value on unchanged. *)
Theorem base_rotation_z_never_read :
  forall (app : EmojiApp) (s : Sprite) (i : nat) (t dt x : R),
    update_sprite app t dt i (set_base_rotation_z s x)
    = match update_sprite app t dt i s with
      | Ok s' => Ok (set_base_rotation_z s' x)
      | Raise e => Raise e
      end.
Proof.
  intros app s i t dt x. unfold update_sprite.
  change (visible (set_base_rotation_z s x)) with (visible s).
  destruct (visible s); [| reflexivity].
  rewrite apply_node_animations_ignores_base_rotation.
  destruct (apply_node_animations app s i t dt) as [s1 | e]; cbn [bind];
    [| reflexivity].
  apply apply_idle_animations_ignores_base_rotation.
Qed.

Lemma sample_sprite_well_formed : well_formed [sample_sprite].
Proof.
  intros s [<- | []] _.
  exists (mkVec3 (-2.4) 0 0), 1, (uniform 1), 0. repeat split; reflexivity.
Qed.

End Program.

(** * Concrete instances

    The host services are fixed here: a look-at that returns its target, a
    random generator that always draws [PI / 2], a disk on which no file
    exists, and a camera that starts with zero yaw. *)



Lemma sepia_amount_stays_in_unit_interval_witness :
  In (node_animation_type sample_app) patterns
  /\ 0 <= sepia_amount sample_app <= 1
  /\ exists app',
       run (fun _ target => target) (fun _ => PI / 2) sample_app
         (List.map Key ["s down"; "s up"; "g"; "n"]) = Ok app'
       /\ 0 <= sepia_amount app' <= 1.
Proof.
  assert (H1 : In (node_animation_type sample_app) patterns) by (left; reflexivity).
  assert (H2 : 0 <= sepia_amount sample_app <= 1) by (cbn; lra).
  split; [exact H1 |]. split; [exact H2 |].
  exact (proj1 (sepia_amount_stays_in_unit_interval (fun _ target => target)
                  (fun _ => PI / 2) ["s down"; "s up"; "g"; "n"] sample_app H1 H2)).
Defined.

Lemma grid_layout_row_major_witness :
  (0 < 2)%nat
  /\ exists s',
       nth_error
         (arrange_sprites_grid [sample_sprite; sample_sprite; sample_sprite] 2
            (ceil_div 3 2) 1.2 1) 2 = Some s'
       /\ position s' = mkVec3 (cell_coord 0 2 1.2) (cell_coord 1 2 1.2) 0
       /\ billboard s' = true
       /\ rotation s' = vec_zero
       /\ visible s' = true.
Proof.
  assert (H0 : (0 < 2)%nat) by lia.
  split; [exact H0 |].
  pose proof (grid_layout_row_major (fun _ target => target) (fun _ => PI / 2)
                (fun _ => false) (fun _ => Raise FileNotFoundError)
                [sample_sprite; sample_sprite; sample_sprite] 2 1.2 1 H0) as H.
  cbv zeta in H. destruct H as (_ & H & _).
  destruct (H 2%nat sample_sprite eq_refl)
    as (s' & E & _ & _ & P & _ & B & Rr & _ & _ & V).
  exists s'. split; [exact E |]. split; [exact P |]. split; [exact B |].
  split; [exact Rr | exact V].
Defined.

Lemma sphere_layout_on_sphere_witness :
  (1 <= 1)%nat
  /\ exists s',
       nth_error
         (arrange_sprites_sphere (fun _ target => target) [sample_sprite] 1 0.6 1) 0
       = Some s'
       /\ vec_length (position s') = 0.6
       /\ position s' = mkVec3 0 0.6 0.
Proof.
  assert (H1 : (1 <= 1)%nat) by lia.
  split; [exact H1 |].
  pose proof (sphere_layout_on_sphere (fun _ target => target) [sample_sprite] 1 0.6 1 H1)
    as H.
  cbv zeta in H. destruct H as (H & _).
  assert (Hi : (0 < 1)%nat) by lia.
  destruct (H 0%nat sample_sprite Hi eq_refl)
    as (s' & E & _ & _ & _ & L & _ & P & _).
  exists s'. split; [exact E |]. split; [apply L; lra | exact (P eq_refl)].
Defined.

Lemma idle_zoom_overrides_node_scale_witness :
  idle_zoom_enabled sample_app_zoom = true
  /\ well_formed (sprites sample_app_zoom)
  /\ exists app',
       update sample_app_zoom 0 1 = Ok app'
       /\ exists s',
            nth_error (sprites app') 0 = Some s'
            /\ vx (scale s') = 1 * (1 + 0.1 * sin (0 * 2.0 * 1.5 + 0))
            /\ vz (scale s') = 1.
Proof.
  split; [reflexivity |]. split; [exact sample_sprite_well_formed |].
  destruct (idle_zoom_overrides_node_scale sample_app_zoom 0 1 eq_refl
              sample_sprite_well_formed) as (app' & E & H).
  exists app'. split; [exact E |].
  assert (Hb : has_base_state sample_sprite (mkVec3 (-2.4) 0 0) 1 (uniform 1) 0)
    by (repeat split; reflexivity).
  destruct (H 0%nat sample_sprite _ _ _ _ eq_refl eq_refl Hb) as (s' & Es & _ & Hs).
  exists s'. split; [exact Es |]. rewrite Hs. split; reflexivity.
Defined.

Lemma position_scale_reset_rotation_kept_witness :
  well_formed (sprites sample_app_rotation)
  /\ position displaced_sprite <> mkVec3 1 2 3
  /\ scale displaced_sprite <> uniform 2
  /\ exists app',
       update sample_app_rotation 0 1 = Ok app'
       /\ exists s1 s',
            apply_node_animations sample_app_rotation displaced_sprite 0 0 1 = Ok s1
            /\ position s1 = mkVec3 1 2 3
            /\ scale s1 = uniform 2
            /\ nth_error (sprites app') 0 = Some s'
            /\ rotation s' =
                 spin false (mkVec3 10 20 30)
                   (node_rotation_delta sample_app_rotation 0 0 1 0
                    + idle_rotation_delta sample_app_rotation 0 1 0).
Proof.
  assert (Hb : has_base_state displaced_sprite (mkVec3 1 2 3) 2 (uniform 2) 0)
    by (repeat split; reflexivity).
  assert (Hwf : well_formed (sprites sample_app_rotation)).
  { intros s [<- | []] _. exists (mkVec3 1 2 3), 2, (uniform 2), 0. exact Hb. }
  split; [exact Hwf |].
  split; [intros H; injection H as H _ _; lra |].
  split; [intros H; injection H as H _ _; lra |].
  destruct (position_scale_reset_rotation_kept (fun _ target => target)
              (fun _ => PI / 2) sample_app_rotation 0 1 Hwf)
    as (app' & E & H & _).
  exists app'. split; [exact E |].
  destruct (H 0%nat displaced_sprite (mkVec3 1 2 3) 2 (uniform 2) 0 eq_refl eq_refl Hb)
    as (s1 & s' & E1 & _ & _ & Hp & Hs & _ & Es' & Hr).
  exists s1, s'. split; [exact E1 |]. split; [exact Hp |]. split; [exact Hs |].
  split; [exact Es' | exact Hr].
Defined.



Lemma asset_errors_degrade_gracefully_witness :
  (exists app s,
      __init__ (fun _ target => target) (fun _ => PI / 2) (fun _ => false)
        (fun _ => Raise FileNotFoundError) 0 = Ok app
      /\ sprites app = [s] /\ color s = red /\ texture s = None)
  /\ (exists app s,
        __init__ (fun _ target => target) (fun _ => PI / 2) (fun _ => false)
          (fun _ => Ok (JList [JStr [128512%N]])) 0 = Ok app
        /\ nth_error (sprites app) 0 = Some s /\ color s = red /\ texture s = None).
Proof.
  split.
  - destruct (asset_errors_degrade_gracefully (fun _ target => target)
                (fun _ => PI / 2) (fun _ => false) (fun _ => Raise FileNotFoundError) 0)
      as (_ & H & _).
    destruct (H (or_introl eq_refl)) as (app & s & E & Es & _ & Hc & Ht & _).
    exists app, s. auto.
  - destruct (asset_errors_degrade_gracefully (fun _ target => target)
                (fun _ => PI / 2) (fun _ => false)
                (fun _ => Ok (JList [JStr [128512%N]])) 0)
      as (_ & _ & _ & H).
    destruct (H "emoji_u1f600.png" [] eq_refl) as (app & E & Hs).
    assert (Hi : (0 < 30)%nat) by lia.
    destruct (Hs 0%nat Hi eq_refl) as (s & Es & Hc & Ht & _).
    exists app, s. auto.
Defined.

(** ** Instances of the further properties *)

Lemma swirl_layout_on_cylinder_witness :
  (0 < 2)%nat
  /\ nth_error [sample_sprite; sample_sprite] 0 = Some sample_sprite
  /\ exists s',
       nth_error
         (arrange_sprites_swirl (fun _ target => target) [sample_sprite; sample_sprite]
            2 3 3 5 0.7) 0 = Some s'
       /\ visible s' = true
       /\ vx (position s') * vx (position s') + vz (position s') * vz (position s')
          = 3 * 3
       /\ vy (position s') = - 5 / 2.
Proof.
  assert (Hi : (0 < 2)%nat) by lia.
  split; [exact Hi |]. split; [reflexivity |].
  destruct (swirl_layout_on_cylinder (fun _ target => target)
              [sample_sprite; sample_sprite] 2 3 3 5 0.7 0 sample_sprite Hi eq_refl)
    as (s' & E & V & _ & _ & C & _ & F & _).
  exists s'. split; [exact E |]. split; [exact V |]. split; [exact C | exact (F eq_refl)].
Defined.

Lemma torus_layout_on_surface_witness :
  (0 < 1)%nat
  /\ nth_error [sample_sprite] 0 = Some sample_sprite
  /\ exists s',
       nth_error (arrange_sprites_torus (fun _ target => target) [sample_sprite] 1 3 1 0.5) 0
       = Some s'.
Proof.
  assert (Hi : (0 < 1)%nat) by lia.
  split; [exact Hi |]. split; [reflexivity |].
  pose proof (torus_layout_on_surface (fun _ target => target) [sample_sprite] 1 3 1 0.5
                0 sample_sprite Hi eq_refl) as H.
  cbv zeta in H. destruct H as (E & _).
  eexists. exact E.
Defined.

Lemma sphere_faces_outward_witness :
  (0 < 1)%nat
  /\ nth_error [sample_sprite] 0 = Some sample_sprite
  /\ nth_error (arrange_sprites_sphere (fun _ target => target) [sample_sprite] 1 3 0.6) 0
     = Some (_arrange_3d_pattern (fun _ target => target) sample_sprite
               (vec_scale (sphere_unit 1 0) 3) 0.6 (vec_scale (sphere_unit 1 0) (3 + 1))).
Proof.
  assert (Hi : (0 < 1)%nat) by lia.
  split; [exact Hi |]. split; [reflexivity |].
  exact (sphere_faces_outward (fun _ target => target) [sample_sprite] 1 3 0.6
           0 sample_sprite Hi eq_refl).
Defined.

Lemma surplus_sprites_hidden_witness :
  (1 <= 1)%nat
  /\ nth_error [sample_sprite; sample_sprite] 1 = Some sample_sprite
  /\ nth_error
       (arrange_sprites_torus (fun _ target => target) [sample_sprite; sample_sprite]
          1 3 1 0.5) 1
     = Some (set_visible sample_sprite false).
Proof.
  assert (Hi : (1 <= 1)%nat) by lia.
  split; [exact Hi |]. split; [reflexivity |].
  destruct (surplus_sprites_hidden (fun _ target => target)
              [sample_sprite; sample_sprite] 1 3 1 5 0.5) as (_ & _ & _ & H).
  destruct (H 1%nat sample_sprite Hi eq_refl) as (_ & E & _). exact E.
Defined.

Lemma wave_zoom_scale_clamped_witness :
  has_base_state sample_sprite (mkVec3 (-2.4) 0 0) 1 (uniform 1) 0
  /\ node_animation_enabled sample_app_zoom = true
  /\ node_animation_type sample_app_zoom = "wave_zoom"
  /\ 0 <= 1
  /\ exists s1,
       apply_node_animations sample_app_zoom sample_sprite 0 0 1 = Ok s1
       /\ position s1 = mkVec3 (-2.4) 0 0
       /\ 0.1 * 1 <= vx (scale s1)
          <= (1 + Rabs (node_anim_amplitude sample_app_zoom) / 2) * 1.
Proof.
  assert (Hb : has_base_state sample_sprite (mkVec3 (-2.4) 0 0) 1 (uniform 1) 0)
    by (repeat split; reflexivity).
  assert (H1 : 0 <= 1) by lra.
  split; [exact Hb |]. split; [reflexivity |]. split; [reflexivity |].
  split; [exact H1 |].
  destruct (wave_zoom_scale_clamped sample_app_zoom sample_sprite 0 0 1
              (mkVec3 (-2.4) 0 0) 1 (uniform 1) 0 Hb eq_refl eq_refl H1)
    as (s1 & E & P & _ & _ & B & _).
  exists s1. split; [exact E |]. split; [exact P | exact B].
Defined.

Lemma wave_position_offset_bounded_witness :
  has_base_state sample_sprite (mkVec3 (-2.4) 0 0) 1 (uniform 1) 0
  /\ node_animation_enabled (set_node_animation_type sample_app_zoom "wave_position") = true
  /\ node_animation_type (set_node_animation_type sample_app_zoom "wave_position")
     = "wave_position"
  /\ exists s1,
       apply_node_animations (set_node_animation_type sample_app_zoom "wave_position")
         sample_sprite 0 0 1 = Ok s1
       /\ Rabs (vx (position s1) - (-2.4)) <= Rabs 0.5
       /\ scale s1 = uniform 1.
Proof.
  assert (Hb : has_base_state sample_sprite (mkVec3 (-2.4) 0 0) 1 (uniform 1) 0)
    by (repeat split; reflexivity).
  split; [exact Hb |]. split; [reflexivity |]. split; [reflexivity |].
  destruct (wave_position_offset_bounded
              (set_node_animation_type sample_app_zoom "wave_position")
              sample_sprite 0 0 1 (mkVec3 (-2.4) 0 0) 1 (uniform 1) 0 Hb eq_refl eq_refl)
    as (s1 & E & Bx & _ & _ & S & _).
  exists s1. split; [exact E |]. split; [exact Bx | exact S].
Defined.

Lemma idle_zoom_scale_bounded_witness :
  has_base_state sample_sprite (mkVec3 (-2.4) 0 0) 1 (uniform 1) 0
  /\ visible sample_sprite = true
  /\ idle_zoom_enabled sample_app_zoom = true
  /\ 0 <= 1
  /\ exists s',
       update_sprite sample_app_zoom 0 1 0 sample_sprite = Ok s'
       /\ 1 * (1 - Rabs (idle_zoom_amplitude sample_app_zoom)) <= vx (scale s')
          <= 1 * (1 + Rabs (idle_zoom_amplitude sample_app_zoom)).
Proof.
  assert (Hb : has_base_state sample_sprite (mkVec3 (-2.4) 0 0) 1 (uniform 1) 0)
    by (repeat split; reflexivity).
  assert (H1 : 0 <= 1) by lra.
  split; [exact Hb |]. split; [reflexivity |]. split; [reflexivity |].
  split; [exact H1 |].
  destruct (idle_zoom_scale_bounded sample_app_zoom sample_sprite 0 0 1
              (mkVec3 (-2.4) 0 0) 1 (uniform 1) 0 Hb eq_refl eq_refl H1)
    as (s' & E & _ & B).
  exists s'. split; [exact E | exact B].
Defined.

Lemma node_mode_cycles_witness :
  In (node_animation_type sample_app_zoom) patterns
  /\ input (fun _ target => target) (fun _ => PI / 2) sample_app_zoom "n"
     = Ok (set_node_animation_type sample_app_zoom "wave_rotation")
  /\ run (fun _ target => target) (fun _ => PI / 2) sample_app_zoom
       [Key "n"; Key "n"; Key "n"; Key "n"] = Ok sample_app_zoom.
Proof.
  assert (Hin : In (node_animation_type sample_app_zoom) patterns)
    by (right; right; left; reflexivity).
  split; [exact Hin |].
  destruct (node_mode_cycles (fun _ target => target) (fun _ => PI / 2) sample_app_zoom)
    as (H & _).
  destruct (H Hin) as ((next & E & _ & _ & Hz & _) & Er).
  split; [| exact Er].
  rewrite E, (Hz eq_refl). reflexivity.
Defined.

Lemma toggle_twice_restores_witness :
  (input (fun _ target => target) (fun _ => PI / 2) sample_app "r"
   = Ok (set_idle_rotation_enabled sample_app true)
   /\ run (fun _ target => target) (fun _ => PI / 2) sample_app [Key "r"; Key "r"]
      = Ok sample_app)
  /\ (input (fun _ target => target) (fun _ => PI / 2) sample_app_zoom "t"
      = Ok (set_idle_zoom_enabled sample_app_zoom false)
      /\ run (fun _ target => target) (fun _ => PI / 2) sample_app_zoom
           [Key "t"; Key "t"] = Ok sample_app_zoom)
  /\ (input (fun _ target => target) (fun _ => PI / 2) sample_app "b"
      = Ok (set_bloom_enabled sample_app true)
      /\ run (fun _ target => target) (fun _ => PI / 2) sample_app [Key "b"; Key "b"]
         = Ok sample_app)
  /\ (input (fun _ target => target) (fun _ => PI / 2) sample_app "a"
      = Ok (set_afterimage_enabled sample_app true)
      /\ run (fun _ target => target) (fun _ => PI / 2) sample_app [Key "a"; Key "a"]
         = Ok sample_app).
Proof.
  split; [| split; [| split]].
  - exact (toggle_twice_restores (fun _ target => target) (fun _ => PI / 2)
             sample_app "r" (or_introl eq_refl)).
  - exact (toggle_twice_restores (fun _ target => target) (fun _ => PI / 2)
             sample_app_zoom "t" (or_intror (or_introl eq_refl))).
  - exact (toggle_twice_restores (fun _ target => target) (fun _ => PI / 2)
             sample_app "b" (or_intror (or_intror (or_introl eq_refl)))).
  - exact (toggle_twice_restores (fun _ target => target) (fun _ => PI / 2)
             sample_app "a" (or_intror (or_intror (or_intror eq_refl)))).
Defined.

Lemma run_after_startup_never_raises_witness :
  ~ In (Key "escape") [Key "2"; Frame 0 1; Key "n"; Key "s"; Frame 1 1]
  /\ exists app0,
       __init__ (fun _ target => target) (fun _ => PI / 2) (fun _ => false)
         (fun _ => Raise FileNotFoundError) 0 = Ok app0
       /\ exists app,
            run (fun _ target => target) (fun _ => PI / 2) app0
              [Key "2"; Frame 0 1; Key "n"; Key "s"; Frame 1 1] = Ok app
            /\ quit_requested app = false.
Proof.
  assert (Hesc : ~ In (Key "escape") [Key "2"; Frame 0 1; Key "n"; Key "s"; Frame 1 1]).
  { intros [H | [H | [H | [H | [H | []]]]]]; discriminate H. }
  split; [exact Hesc |].
  assert (E : exists app0,
            __init__ (fun _ target => target) (fun _ => PI / 2) (fun _ => false)
              (fun _ => Raise FileNotFoundError) 0 = Ok app0)
    by (eexists; normalize_state; reflexivity).
  destruct E as (app0 & E). exists app0. split; [exact E |].
  exact (run_after_startup_never_raises (fun _ target => target) (fun _ => PI / 2)
           (fun _ => false) (fun _ => Raise FileNotFoundError) 0 app0
           [Key "2"; Frame 0 1; Key "n"; Key "s"; Frame 1 1] E Hesc).
Defined.

Lemma shader_follows_toggles_witness :
  exists app0,
    __init__ (fun _ target => target) (fun _ => PI / 2) (fun _ => false)
      (fun _ => Raise FileNotFoundError) 0 = Ok app0
    /\ exists app,
         run (fun _ target => target) (fun _ => PI / 2) app0
           [Key "s"; Key "s up"; Key "g"; Key "g"] = Ok app
         /\ shader (camera app) =
              (if grayscale_enabled app then Some grayscale_shader
               else if sepia_enabled app then Some sepia_shader
               else None).
Proof.
  assert (E : exists app0,
            __init__ (fun _ target => target) (fun _ => PI / 2) (fun _ => false)
              (fun _ => Raise FileNotFoundError) 0 = Ok app0)
    by (eexists; normalize_state; reflexivity).
  destruct E as (app0 & E). exists app0. split; [exact E |].
  destruct (shader_follows_toggles (fun _ target => target) (fun _ => PI / 2)
              (fun _ => false) (fun _ => Raise FileNotFoundError) 0 app0
              [Key "s"; Key "s up"; Key "g"; Key "g"] E) as (app & Er & Hs & _).
  exists app. split; [exact Er | exact Hs].
Defined.

Lemma load_emoji_texture_caches_witness :
  load_emoji_texture (fun _ => true) [] "emoji_u1f600.png" "128"
  = (Some "assets/noto-emoji/png/128/emoji_u1f600.png",
     [("assets/noto-emoji/png/128/emoji_u1f600.png",
       "assets/noto-emoji/png/128/emoji_u1f600.png")])
  /\ load_emoji_texture (fun _ => true)
       [("assets/noto-emoji/png/128/emoji_u1f600.png",
         "assets/noto-emoji/png/128/emoji_u1f600.png")] "emoji_u1f600.png" "128"
     = (Some "assets/noto-emoji/png/128/emoji_u1f600.png",
        [("assets/noto-emoji/png/128/emoji_u1f600.png",
          "assets/noto-emoji/png/128/emoji_u1f600.png")]).
Proof.
  assert (E : load_emoji_texture (fun _ => true) [] "emoji_u1f600.png" "128"
              = (Some "assets/noto-emoji/png/128/emoji_u1f600.png",
                 [("assets/noto-emoji/png/128/emoji_u1f600.png",
                   "assets/noto-emoji/png/128/emoji_u1f600.png")]))
    by reflexivity.
  split; [exact E |].
  destruct (load_emoji_texture_caches (fun _ => true) []
              [("assets/noto-emoji/png/128/emoji_u1f600.png",
                "assets/noto-emoji/png/128/emoji_u1f600.png")]
              "emoji_u1f600.png" "128"
              (Some "assets/noto-emoji/png/128/emoji_u1f600.png") E) as (_ & _ & H).
  exact H.
Defined.

Lemma load_fills_pool_witness :
  get_emoji_filenames_for_set_and_group (fun _ => Ok (JList [JStr [128512%N]]))
    DEFAULT_EMOJI_SET DEFAULT_EMOJI_GROUP = Ok ["emoji_u1f600.png"]
  /\ exists app',
       load_and_arrange_emojis (fun _ target => target) (fun _ => PI / 2) (fun _ => true)
         (fun _ => Ok (JList [JStr [128512%N]])) sample_app = Ok app'
       /\ List.length (sprites app') = 1%nat.
Proof.
  assert (E : get_emoji_filenames_for_set_and_group (fun _ => Ok (JList [JStr [128512%N]]))
                DEFAULT_EMOJI_SET DEFAULT_EMOJI_GROUP = Ok ["emoji_u1f600.png"])
    by reflexivity.
  split; [exact E |].
  destruct (load_fills_pool (fun _ target => target) (fun _ => PI / 2) (fun _ => true)
              (fun _ => Ok (JList [JStr [128512%N]])) sample_app "emoji_u1f600.png" [] E)
    as (app' & El & Hl & _).
  exists app'. split; [exact El | exact Hl].
Defined.

Lemma startup_textures_wrap_around_witness :
  get_emoji_filenames_for_set_and_group
    (fun _ => Ok (JList [JStr [128512%N]; JStr [128513%N]]))
    DEFAULT_EMOJI_SET DEFAULT_EMOJI_GROUP = Ok ["emoji_u1f600.png"; "emoji_u1f601.png"]
  /\ exists app s,
       __init__ (fun _ target => target) (fun _ => PI / 2) (fun _ => true)
         (fun _ => Ok (JList [JStr [128512%N]; JStr [128513%N]])) 0 = Ok app
       /\ List.length (sprites app) = 30%nat
       /\ nth_error (sprites app) 3 = Some s
       /\ texture s = Some "assets/noto-emoji/png/128/emoji_u1f601.png".
Proof.
  assert (E : get_emoji_filenames_for_set_and_group
                (fun _ => Ok (JList [JStr [128512%N]; JStr [128513%N]]))
                DEFAULT_EMOJI_SET DEFAULT_EMOJI_GROUP
              = Ok ["emoji_u1f600.png"; "emoji_u1f601.png"])
    by reflexivity.
  split; [exact E |].
  destruct (startup_textures_wrap_around (fun _ target => target) (fun _ => PI / 2)
              (fun _ => true) (fun _ => Ok (JList [JStr [128512%N]; JStr [128513%N]])) 0
              "emoji_u1f600.png" ["emoji_u1f601.png"] E) as (app & Ei & Hl & H).
  assert (Hi : (3 < 30)%nat) by lia.
  destruct (H 3%nat Hi eq_refl) as (s & Es & Ht & _).
  exists app, s. split; [exact Ei |]. split; [exact Hl |]. split; [exact Es | exact Ht].
Defined.

Lemma frame_touches_only_transforms_witness :
  exists app',
    update sample_app_zoom 0 1 = Ok app'
    /\ List.length (sprites app') = List.length (sprites sample_app_zoom)
    /\ shader (camera app') = shader (camera sample_app_zoom).
Proof.
  assert (E : exists app', update sample_app_zoom 0 1 = Ok app')
    by (eexists; normalize_state; reflexivity).
  destruct E as (app' & E). exists app'. split; [exact E |].
  destruct (frame_touches_only_transforms sample_app_zoom app' 0 1 E)
    as (Hl & _ & _ & Hs & _).
  split; [exact Hl | exact Hs].
Defined.

Lemma camera_yaw_accumulates_witness :
  well_formed (sprites (set_current_arrangement sample_app "torus"))
  /\ exists app',
       run (fun _ target => target) (fun _ => PI / 2)
         (set_current_arrangement sample_app "torus") (frames_events [(0, 1); (1, 2)])
       = Ok app'
       /\ camera_rotation_y (camera app') = 0 + 7 * (1 + (2 + 0)).
Proof.
  split; [exact sample_sprite_well_formed |].
  destruct (camera_yaw_accumulates (fun _ target => target) (fun _ => PI / 2)
              [(0, 1); (1, 2)] (set_current_arrangement sample_app "torus")
              sample_sprite_well_formed) as (app' & E & _ & Hy).
  exists app'. split; [exact E | exact Hy].
Defined.

Lemma astral_filename_round_trip_witness :
  Forall (fun c => (65536 <= c < 1114112)%N) [128104%N; 128187%N]
  /\ exists ps,
       emoji_filename (JStr [128104%N; 128187%N])
       = Ok ("emoji_u" ++ String.concat "_" ps ++ ".png")%string
       /\ List.map hex_value ps = [Some 128104%N; Some 128187%N].
Proof.
  assert (H : Forall (fun c => (65536 <= c < 1114112)%N) [128104%N; 128187%N])
    by (repeat constructor; lia).
  split; [exact H |].
  destruct (astral_filename_round_trip [128104%N; 128187%N] H) as (ps & E & _ & Hv).
  exists ps. split; [exact E | exact Hv].
Defined.

Lemma bmp_piece_keeps_escape_prefix_witness :
  nth_error [10084%N; 65039%N] 1 = Some 65039%N
  /\ (256 <= 65039 < 65536)%N
  /\ exists ps,
       emoji_filename (JStr [10084%N; 65039%N])
       = Ok ("emoji_u" ++ String.concat "_" ps ++ ".png")%string
       /\ nth_error ps 1 = Some (String backslash (String "u" (hex_fixed 4 65039))).
Proof.
  assert (Hc : (256 <= 65039 < 65536)%N) by lia.
  split; [reflexivity |]. split; [exact Hc |].
  destruct (bmp_piece_keeps_escape_prefix [10084%N; 65039%N] 1 65039%N eq_refl Hc)
    as (ps & E & _ & Hp & _).
  exists ps. split; [exact E | exact Hp].
Defined.

Lemma semicolon_group_names_witness :
  dict_get [(ustr_of_string "Smileys & Emotion", JStr [128512%N; 59%N; 32%N; 59%N; 128513%N])]
    (ustr_of_string "Smileys & Emotion")
  = JStr [128512%N; 59%N; 32%N; 59%N; 128513%N]
  /\ get_emoji_filenames_for_set_and_group
       (fun _ => Ok (JDict [(ustr_of_string "Smileys & Emotion",
                             JStr [128512%N; 59%N; 32%N; 59%N; 128513%N])]))
       "noto_emoji_regular.json" "Smileys & Emotion"
     = Ok (List.map filename_of_ustr [[128512%N]; [128513%N]]).
Proof.
  split; [reflexivity |].
  exact (proj1 (semicolon_group_names
                  (fun _ => Ok (JDict [(ustr_of_string "Smileys & Emotion",
                                        JStr [128512%N; 59%N; 32%N; 59%N; 128513%N])]))
                  "noto_emoji_regular.json" "Smileys & Emotion"
                  [(ustr_of_string "Smileys & Emotion",
                    JStr [128512%N; 59%N; 32%N; 59%N; 128513%N])]
                  [128512%N; 59%N; 32%N; 59%N; 128513%N] eq_refl eq_refl)).
Defined.

Lemma number_in_set_file_raises_witness :
  Exists truthy_scalar [JStr [128512%N]; JInt 3]
  /\ Forall (fun v => truthy_scalar v \/ exists s, v = JStr s) [JStr [128512%N]; JInt 3]
  /\ __init__ (fun _ target => target) (fun _ => PI / 2) (fun _ => true)
       (fun _ => Ok (JList [JStr [128512%N]; JInt 3])) 0 = Raise TypeError.
Proof.
  assert (H3 : truthy_scalar (JInt 3)) by (cbn; discriminate).
  assert (Hex : Exists truthy_scalar [JStr [128512%N]; JInt 3])
    by (apply Exists_cons_tl, Exists_cons_hd; exact H3).
  assert (Hall : Forall (fun v => truthy_scalar v \/ exists s, v = JStr s)
                   [JStr [128512%N]; JInt 3]).
  { constructor; [right; eexists; reflexivity |].
    constructor; [left; exact H3 | constructor]. }
  split; [exact Hex |]. split; [exact Hall |].
  destruct (number_in_set_file_raises (fun _ target => target) (fun _ => PI / 2)
              (fun _ => true) (fun _ => Ok (JList [JStr [128512%N]; JInt 3])) 0
              [JStr [128512%N]; JInt 3] eq_refl Hex Hall) as (_ & _ & E).
  exact E.
Defined.

Lemma grayscale_is_projection_onto_grays_witness :
  fst (grayscale_shader_frag (mkVec3 0.5 0.5 0.5)) = mkVec3 0.5 0.5 0.5
  /\ grayscale_shader_frag (fst (grayscale_shader_frag (mkVec3 1 0 0)))
     = grayscale_shader_frag (mkVec3 1 0 0).
Proof.
  split.
  - pose proof (grayscale_is_projection_onto_grays (mkVec3 0.5 0.5 0.5)) as H.
    cbv zeta in H. destruct H as (_ & _ & _ & _ & H & _).
    exact (H eq_refl eq_refl).
  - pose proof (grayscale_is_projection_onto_grays (mkVec3 1 0 0)) as H.
    cbv zeta in H. destruct H as (_ & _ & _ & H & _). exact H.
Defined.

Lemma sepia_blends_towards_tone_witness :
  0 <= 0.5 <= 1
  /\ 0 <= 1
  /\ 0 <= vx (fst (sepia_shader_frag 0.5 (mkVec3 1 1 1)))
  /\ vx (fst (sepia_shader_frag 0.5 (mkVec3 1 1 1))) <= 1 + 0.351 * 0.5.
Proof.
  assert (Ha : 0 <= 0.5 <= 1) by lra.
  assert (H1 : 0 <= 1) by lra.
  assert (H2 : 1 <= 1) by lra.
  split; [exact Ha |]. split; [exact H1 |].
  pose proof (sepia_blends_towards_tone 0.5 (mkVec3 1 1 1) Ha H1 H1 H1) as H.
  cbv zeta in H. destruct H as (H0 & _ & _ & _ & _ & _ & _ & Hup).
  split; [exact H0 | exact (Hup H2 H2 H2)].
Defined.

Lemma arrangement_key_switches_layout_witness :
  In "3" ["1"; "2"; "3"; "4"]
  /\ In "4" ["1"; "2"; "3"; "4"]
  /\ (exists app' s',
         input (fun _ target => target) (fun _ => PI / 2) sample_app_pair "3" = Ok app'
         /\ current_arrangement app' = "torus"
         /\ nth_error (sprites app') 1 = Some s'
         /\ position s' = torus_pos 2 3 1 1
         /\ scale s' = uniform 0.5
         /\ billboard s' = false
         /\ base_rotation_z s' = Some (world_rotation_z s')
         /\ texture s' = texture displaced_sprite)
  /\ (exists app' s',
         input (fun _ target => target) (fun _ => PI / 2) sample_app_pair "4" = Ok app'
         /\ current_arrangement app' = "sphere"
         /\ nth_error (sprites app') 0 = Some s'
         /\ position s' = sphere_pos 2 3 0
         /\ scale s' = uniform 0.6
         /\ billboard s' = false
         /\ base_rotation_z s' = Some (world_rotation_z s')
         /\ texture s' = texture sample_sprite).
Proof.
  assert (H3 : In "3" ["1"; "2"; "3"; "4"]) by (right; right; left; reflexivity).
  assert (H4 : In "4" ["1"; "2"; "3"; "4"]) by (right; right; right; left; reflexivity).
  assert (Hi1 : (1 < num_sprites sample_app_pair)%nat) by (cbn; lia).
  assert (Hi0 : (0 < num_sprites sample_app_pair)%nat) by (cbn; lia).
  split; [exact H3 |]. split; [exact H4 |]. split.
  - destruct (arrangement_key_switches_layout (fun _ target => target) (fun _ => PI / 2)
                sample_app_pair "3" H3)
      as (app' & E & _ & _ & K3 & _ & _ & _ & _ & _ & H).
    destruct (K3 eq_refl) as (Hc & _).
    destruct (H 1%nat displaced_sprite eq_refl)
      as (s' & Es & Ht & _ & _ & _ & Bz & _ & _ & Ha & _).
    destruct (Ha Hi1) as (_ & Hb & Hp & Hs & _).
    exists app', s'. split; [exact E |]. split; [exact Hc |]. split; [exact Es |].
    split; [exact Hp |]. split; [exact Hs |]. split; [exact Hb |].
    split; [exact Bz | exact Ht].
  - destruct (arrangement_key_switches_layout (fun _ target => target) (fun _ => PI / 2)
                sample_app_pair "4" H4)
      as (app' & E & _ & _ & _ & K4 & _ & _ & _ & _ & H).
    destruct (K4 eq_refl) as (Hc & _).
    destruct (H 0%nat sample_sprite eq_refl)
      as (s' & Es & Ht & _ & _ & _ & Bz & _ & _ & Ha & _).
    destruct (Ha Hi0) as (_ & Hb & Hp & Hs & _).
    exists app', s'. split; [exact E |]. split; [exact Hc |]. split; [exact Es |].
    split; [exact Hp |]. split; [exact Hs |]. split; [exact Hb |].
    split; [exact Bz | exact Ht].
Defined.

Lemma events_keep_emoji_assignment_witness :
  exists app',
    run (fun _ target => target) (fun _ => PI / 2) sample_app
      [Key "2"; Frame 0 1; Key "g"] = Ok app'
    /\ List.length (sprites app') = 1%nat
    /\ exists s',
         nth_error (sprites app') 0 = Some s'
         /\ texture s' = texture sample_sprite.
Proof.
  assert (E : exists app',
            run (fun _ target => target) (fun _ => PI / 2) sample_app
              [Key "2"; Frame 0 1; Key "g"] = Ok app')
    by (eexists; normalize_state; reflexivity).
  destruct E as (app' & E). exists app'. split; [exact E |].
  destruct (events_keep_emoji_assignment (fun _ target => target) (fun _ => PI / 2)
              [Key "2"; Frame 0 1; Key "g"] sample_app app' E) as (_ & Hl & _ & H).
  split; [exact Hl |].
  destruct (H 0%nat sample_sprite eq_refl) as (s' & Es & Ht & _).
  exists s'. split; [exact Es | exact Ht].
Defined.

Lemma frame_rotation_drift_bounded_witness :
  has_base_state sample_sprite (mkVec3 (-2.4) 0 0) 1 (uniform 1) 0
  /\ visible sample_sprite = true
  /\ exists s',
       update_sprite (set_idle_rotation_enabled sample_app_zoom true) 0 1 0 sample_sprite
       = Ok s'
       /\ vx (rotation s') = 0
       /\ vy (rotation s') = 0
       /\ Rabs (vz (rotation s') - 30) <= (30 * Rabs 0.5 + Rabs 30) * Rabs 1.
Proof.
  assert (Hb : has_base_state sample_sprite (mkVec3 (-2.4) 0 0) 1 (uniform 1) 0)
    by (repeat split; reflexivity).
  split; [exact Hb |]. split; [reflexivity |].
  destruct (frame_rotation_drift_bounded (set_idle_rotation_enabled sample_app_zoom true)
              sample_sprite 0 0 1 (mkVec3 (-2.4) 0 0) 1 (uniform 1) 0 Hb eq_refl)
    as (s' & E & Hx & Hy & Hz).
  exists s'. split; [exact E |]. split; [exact Hx |]. split; [exact Hy | exact Hz].
Defined.

Lemma base_rotation_z_never_read_witness :
  update_sprite sample_app_zoom 0 1 0 (set_base_rotation_z sample_sprite 45)
  = match update_sprite sample_app_zoom 0 1 0 sample_sprite with
    | Ok s' => Ok (set_base_rotation_z s' 45)
    | Raise e => Raise e
    end.
Proof.
  exact (base_rotation_z_never_read sample_app_zoom sample_sprite 0 0 1 45).
Defined.
